(** * Participation map: a shallow embedding of [app.py]

    The script loads one registration sheet per competition, normalises the
    country column, aggregates per country, and serves one reactive callback
    [update_map].  Every definition below follows the statement of [app.py]
    named in its comment.  pandas / Python library calls are modelled by the
    small functions of the first sections: a [str] is its list of code
    points, a blank cell ([NaN]) is [None]. *)

From Stdlib Require Import Ascii String DecimalString.
From Stdlib Require Import List Bool Arith ZArith NArith Lia Sorted.
Import ListNotations.

Set Implicit Arguments.

(* ------------------------------------------------------------------ *)
(** ** Python strings *)
(* ------------------------------------------------------------------ *)

Module PyStr.

(** A Python [str]: the sequence of its Unicode code points. *)
Definition pystr := list N.

(** An ASCII literal as a [pystr]. *)
Definition lit (s : string) : pystr := map N_of_ascii (list_ascii_of_string s).

Definition chr (a : ascii) : N := N_of_ascii a.

Definition str_eq_dec : forall a b : pystr, {a = b} + {a <> b} :=
  list_eq_dec N.eq_dec.

Definition str_eqb (a b : pystr) : bool :=
  if str_eq_dec a b then true else false.

(** [a < b] on [str]: lexicographic on code points. *)
Fixpoint str_ltb (a b : pystr) : bool :=
  match a, b with
  | _, [] => false
  | [], _ :: _ => true
  | x :: a', y :: b' =>
      if (x <? y)%N then true
      else if (y <? x)%N then false
      else str_ltb a' b'
  end.

Definition str_leb (a b : pystr) : bool := negb (str_ltb b a).

(** [str.isspace] for one code point; the regular-expression class [\s]
    of a [str] pattern is the same set. *)
Definition isspace (c : N) : bool :=
  (((0x09 <=? c) && (c <=? 0x0D)) || ((0x1C <=? c) && (c <=? 0x20))
   || (c =? 0x85) || (c =? 0xA0) || (c =? 0x1680)
   || ((0x2000 <=? c) && (c <=? 0x200A))
   || (c =? 0x2028) || (c =? 0x2029) || (c =? 0x202F) || (c =? 0x205F)
   || (c =? 0x3000))%N.

Fixpoint lstrip (s : pystr) : pystr :=
  match s with
  | c :: t => if isspace c then lstrip t else s
  | [] => []
  end.

Definition rstrip (s : pystr) : pystr := rev (lstrip (rev s)).

(** [s.strip()] *)
Definition strip (s : pystr) : pystr := rstrip (lstrip s).

(** [s.split(sep)] for a one-character separator. *)
Fixpoint split (sep : N) (s : pystr) : list pystr :=
  match s with
  | [] => [[]]
  | c :: t =>
      if (c =? sep)%N then [] :: split sep t
      else match split sep t with
           | h :: r => (c :: h) :: r
           | [] => [[c]]
           end
  end.

(** [needle in s] *)
Fixpoint prefixb (p s : pystr) : bool :=
  match p, s with
  | [], _ => true
  | _ :: _, [] => false
  | x :: p', y :: s' => (x =? y)%N && prefixb p' s'
  end.

Fixpoint contains (needle s : pystr) : bool :=
  prefixb needle s ||
  match s with
  | [] => false
  | _ :: t => contains needle t
  end.

(** [str(n)] for an integer. *)
Definition str_of_Z (z : Z) : pystr := lit (NilZero.string_of_int (Z.to_int z)).

End PyStr.
Import PyStr.

(* ------------------------------------------------------------------ *)
(** ** The regular-expression fragment used by the script *)
(* ------------------------------------------------------------------ *)

Module Re.

(** One-character matchers: a literal, or the class [\s]. *)
Inductive atom := Chr (c : N) | WS.

(** [x], greedy [x*], greedy [x+]. *)
Inductive item := One (a : atom) | Many0 (a : atom) | Many1 (a : atom).

(** A pattern is an ordered alternation of sequences. *)
Definition branch := list item.
Definition pattern := list branch.

Definition atom_ok (a : atom) (c : N) : bool :=
  match a with
  | Chr x => (c =? x)%N
  | WS => isspace c
  end.

Section Matcher.
Variable a : atom.
Variable rest : pystr -> option pystr.

(** Greedy repetition with backtracking: take one more character when
    the atom accepts it and the remainder then matches, otherwise go on
    with what follows. *)
Fixpoint star (s : pystr) : option pystr :=
  match s with
  | c :: t =>
      if atom_ok a c then
        match star t with
        | Some r => Some r
        | None => rest s
        end
      else rest s
  | [] => rest []
  end.

Definition one (k : pystr -> option pystr) (s : pystr) : option pystr :=
  match s with
  | c :: t => if atom_ok a c then k t else None
  | [] => None
  end.
End Matcher.

(** Match a sequence at the start of [s]; the result is what is left of
    [s] after the match. *)
Fixpoint match_items (b : branch) : pystr -> option pystr :=
  match b with
  | [] => fun s => Some s
  | One a :: b' => one a (match_items b')
  | Many0 a :: b' => star a (match_items b')
  | Many1 a :: b' => one a (star a (match_items b'))
  end.

(** Alternatives are tried in order, the first that matches wins. *)
Fixpoint match_alt (p : pattern) (s : pystr) : option pystr :=
  match p with
  | [] => None
  | b :: p' =>
      match match_items b s with
      | Some r => Some r
      | None => match_alt p' s
      end
  end.

(** [re.sub(p, repl, s)] for a pattern that matches no empty string:
    scan left to right, replace the match found at the current position and
    go on after it.  [skip] counts the characters of a match still to be
    passed over. *)
Fixpoint sub_from (p : pattern) (repl : pystr) (skip : nat) (s : pystr) : pystr :=
  match s with
  | [] => []
  | c :: t =>
      match skip with
      | S k => sub_from p repl k t
      | O =>
          match match_alt p s with
          | Some r =>
              if (length r <? length s)%nat
              then repl ++ sub_from p repl (length s - length r - 1) t
              else c :: sub_from p repl 0 t
          | None => c :: sub_from p repl 0 t
          end
      end
  end.

Definition sub (p : pattern) (repl s : pystr) : pystr := sub_from p repl 0 s.

End Re.

(* ------------------------------------------------------------------ *)
(** ** Frames and the pandas operations the script calls *)
(* ------------------------------------------------------------------ *)

Module Pandas.

(** A cell of a text column: [None] is a blank cell ([NaN]). *)
Definition cell := option pystr.

(** A registration row.  The type of the [COUNTRY] column changes along
    the normaliser (text, then a list of tokens, then text again), so it is
    a parameter. *)
Record Row (C : Type) := mkRow {
  SR_NO        : option Z;
  TEAM_NAME    : cell;
  TEAM_MEMBER  : cell;
  ORGANIZATION : cell;
  COUNTRY      : C;
  Competition  : pystr
}.

(** A row of a sheet as [read_excel(..., header=None)] returns it, under
    the five column names line 15 assigns. *)
Record SheetRow := mkSheetRow {
  sh_SR_NO        : option Z;
  sh_TEAM_NAME    : cell;
  sh_TEAM_MEMBER  : cell;
  sh_ORGANIZATION : cell;
  sh_COUNTRY      : cell
}.

Definition set_SR_NO (v : option Z) (r : SheetRow) : SheetRow :=
  mkSheetRow v (sh_TEAM_NAME r) (sh_TEAM_MEMBER r) (sh_ORGANIZATION r) (sh_COUNTRY r).
Definition set_TEAM_NAME (v : cell) (r : SheetRow) : SheetRow :=
  mkSheetRow (sh_SR_NO r) v (sh_TEAM_MEMBER r) (sh_ORGANIZATION r) (sh_COUNTRY r).
Definition set_ORGANIZATION (v : cell) (r : SheetRow) : SheetRow :=
  mkSheetRow (sh_SR_NO r) (sh_TEAM_NAME r) (sh_TEAM_MEMBER r) v (sh_COUNTRY r).
Definition set_COUNTRY (v : cell) (r : SheetRow) : SheetRow :=
  mkSheetRow (sh_SR_NO r) (sh_TEAM_NAME r) (sh_TEAM_MEMBER r) (sh_ORGANIZATION r) v.

(** [df[col] = f(df[col])] on the [COUNTRY] column of a frame. *)
Definition with_COUNTRY {C D : Type} (f : C -> D) (r : Row C) : Row D :=
  mkRow (SR_NO r) (TEAM_NAME r) (TEAM_MEMBER r) (ORGANIZATION r)
        (f (COUNTRY r)) (Competition r).

(** [Series.ffill()] on one column of a frame: a blank cell takes the last
    non-blank value above it; [last] is that value so far. *)
Fixpoint ffill {A : Type} (get : SheetRow -> option A)
    (set : option A -> SheetRow -> SheetRow)
    (last : option A) (df : list SheetRow) : list SheetRow :=
  match df with
  | [] => []
  | r :: t =>
      let v := match get r with Some x => Some x | None => last end in
      set v r :: ffill get set v t
  end.

Definition notna {A : Type} (c : option A) : bool :=
  match c with Some _ => true | None => false end.

(** [df.dropna(subset=[col])] *)
Definition dropna_subset {R A : Type} (get : R -> option A) (df : list R) : list R :=
  filter (fun r => notna (get r)) df.

(** The non-blank values of a column. *)
Definition dropna {A : Type} (col : list (option A)) : list A :=
  flat_map (fun c => match c with Some x => [x] | None => [] end) col.

(** [Series.nunique()]: the number of distinct non-blank values. *)
Definition nunique {A : Type} (dec : forall a b : A, {a = b} + {a <> b})
    (col : list (option A)) : Z :=
  Z.of_nat (length (nodup dec (dropna col))).

(** [Series.count()]: the number of non-blank values. *)
Definition count {A : Type} (col : list (option A)) : Z :=
  Z.of_nat (length (dropna col)).

(** [Series.sum()] *)
Definition sum (col : list Z) : Z := fold_left Z.add col 0%Z.

(** [Series.max()]: blank ([NaN]) on an empty column. *)
Definition series_max (col : list Z) : option Z :=
  match col with
  | [] => None
  | x :: t => Some (fold_left Z.max t x)
  end.

(** [Series.str.f(...)]: blank cells stay blank. *)
Definition str_accessor {A : Type} (f : pystr -> A) (c : cell) : option A :=
  option_map f c.

(** [df.explode(col)] on one cell: one row per list element; a blank cell
    or an empty list gives one row with a blank cell. *)
Definition explode_cell (c : option (list pystr)) : list cell :=
  match c with
  | None => [None]
  | Some [] => [None]
  | Some l => map (@Some pystr) l
  end.

Definition explode (df : list (Row (option (list pystr)))) : list (Row cell) :=
  flat_map (fun r => map (fun c => with_COUNTRY (fun _ => c) r)
                         (explode_cell (COUNTRY r))) df.

(** A [dict] with [str] keys, in insertion order. *)
Definition dict (V : Type) := list (pystr * V).

Fixpoint dict_get {V : Type} (d : dict V) (k : pystr) : option V :=
  match d with
  | [] => None
  | (k', v) :: d' => if str_eqb k k' then Some v else dict_get d' k
  end.

Definition keys {V : Type} (d : dict V) : list pystr := map fst d.

(** [Series.replace(d)]: a cell equal to a key of [d] becomes the key's
    value, every other cell is kept. *)
Definition replace (d : dict pystr) (c : cell) : cell :=
  option_map (fun s => match dict_get d s with Some v => v | None => s end) c.

(** Sorting of group keys ([groupby] sorts them). *)
Section Sort.
Variable K : Type.
Variable leb : K -> K -> bool.

Fixpoint insert (k : K) (l : list K) : list K :=
  match l with
  | [] => [k]
  | x :: t => if leb k x then k :: l else x :: insert k t
  end.

Fixpoint sort (l : list K) : list K :=
  match l with
  | [] => []
  | x :: t => insert x (sort t)
  end.
End Sort.

End Pandas.
Import Pandas.

(* ------------------------------------------------------------------ *)
(** ** Record loader (lines 8-21) *)
(* ------------------------------------------------------------------ *)

Module Loader.

(** line 8 *)
Definition competition_order : list pystr :=
  [lit "IROS 2024"; lit "CDC 2024"; lit "ICRA 2025"; lit "CDC-TF 2025"].

(** The frame [read_excel(..., header=None)] returns for a sheet: numbered
    columns, [sf_width] of them (none for an empty sheet), and the rows,
    which are read below only when the frame has five columns. *)
Record SheetFrame := mkSheetFrame {
  sf_width : nat;
  sf_rows : list SheetRow
}.

(** The workbook [Registration.xlsx]: its sheets by name. *)
Definition Workbook := dict SheetFrame.

(** line 14; a missing sheet is an error. *)
Definition read_excel (book : Workbook) (sheet_name : pystr) : option SheetFrame :=
  dict_get book sheet_name.

(** line 15: five names are assigned to the columns; pandas raises
    [ValueError] unless the frame has exactly five columns, so also for the
    frame of an empty sheet. *)
Definition set_columns (f : SheetFrame) : option (list SheetRow) :=
  if (sf_width f =? 5)%nat then Some (sf_rows f) else None.

(** line 16: the four columns are filled one by one. *)
Definition ffill_team_columns (df : list SheetRow) : list SheetRow :=
  ffill sh_COUNTRY set_COUNTRY None
    (ffill sh_ORGANIZATION set_ORGANIZATION None
       (ffill sh_TEAM_NAME set_TEAM_NAME None
          (ffill sh_SR_NO set_SR_NO None df))).

(** line 18 *)
Definition tag (sheet_name : pystr) (r : SheetRow) : Row cell :=
  mkRow (sh_SR_NO r) (sh_TEAM_NAME r) (sh_TEAM_MEMBER r) (sh_ORGANIZATION r)
        (sh_COUNTRY r) sheet_name.

(** lines 16-18 on a sheet already read. *)
Definition clean (sheet_name : pystr) (df : list SheetRow) : list (Row cell) :=
  map (tag sheet_name) (dropna_subset sh_TEAM_MEMBER (ffill_team_columns df)).

(** lines 13-19 *)
Definition load_competition (book : Workbook) (sheet_name : pystr)
  : option (list (Row cell)) :=
  match read_excel book sheet_name with
  | Some f =>
      match set_columns f with
      | Some df => Some (clean sheet_name df)
      | None => None
      end
  | None => None
  end.

(** [pd.concat([load_competition(c) for c in names], ignore_index=True)] *)
Fixpoint load_all (book : Workbook) (names : list pystr) : option (list (Row cell)) :=
  match names with
  | [] => Some []
  | c :: rest =>
      match load_competition book c with
      | Some df =>
          match load_all book rest with
          | Some dfs => Some (df ++ dfs)
          | None => None
          end
      | None => None
      end
  end.

(** line 21 *)
Definition all_data (book : Workbook) : option (list (Row cell)) :=
  load_all book competition_order.

End Loader.

(* ------------------------------------------------------------------ *)
(** ** Country normaliser (lines 23-44) *)
(* ------------------------------------------------------------------ *)

Module Normalizer.
Import Re.

(** lines 23-37 *)
Definition country_alias_map : dict pystr :=
  [ (lit "USA", lit "United States");
    (lit "U.S.", lit "United States");
    (lit "United States of America (USA)", lit "United States");
    (lit "United States (US)", lit "United States");
    (lit "UAE", lit "United Arab Emirates");
    (lit "United Arab Emirates (UAE)", lit "United Arab Emirates");
    (lit "C" ++ [0xF4%N] ++ lit "te d'Ivoire", lit "Ivory Coast");
    (lit "Republic of Korea", lit "South Korea");
    (lit "Republic of T" ++ [0xFC%N] ++ lit "rkiye", lit "Turkey");
    (lit "Turkiye", lit "Turkey");
    (lit "T" ++ [0xFC%N] ++ lit "rkiye", lit "Turkey");
    (lit "UK", lit "United Kingdom");
    (lit "U.K.", lit "United Kingdom") ].

(** The pattern of line 40: [\s*&\s*|\s*/\s*|\s+and\s+]. *)
Definition separator : pattern :=
  [ [Many0 WS; One (Chr (chr "&")); Many0 WS];
    [Many0 WS; One (Chr (chr "/")); Many0 WS];
    [Many1 WS; One (Chr (chr "a")); One (Chr (chr "n")); One (Chr (chr "d"));
     Many1 WS] ].

(** line 40 *)
Definition replace_separators (df : list (Row cell)) : list (Row cell) :=
  map (with_COUNTRY (str_accessor (Re.sub separator (lit ",")))) df.

(** line 41 *)
Definition split_countries (df : list (Row cell)) : list (Row (option (list pystr))) :=
  map (with_COUNTRY (str_accessor (split (chr ",")))) df.

(** line 43 *)
Definition strip_countries (df : list (Row cell)) : list (Row cell) :=
  map (with_COUNTRY (str_accessor strip)) df.

(** line 44 *)
Definition replace_aliases (df : list (Row cell)) : list (Row cell) :=
  map (with_COUNTRY (replace country_alias_map)) df.

(** lines 39-44, statement by statement. *)
Definition df_split (all_data : list (Row cell)) : list (Row cell) :=
  let df := replace_separators all_data in
  let df := split_countries df in
  let df := explode df in
  let df := strip_countries df in
  replace_aliases df.

End Normalizer.

(* ------------------------------------------------------------------ *)
(** ** Aggregator (lines 49-67) *)
(* ------------------------------------------------------------------ *)

Module Aggregator.

(** A row of an aggregate table.  [per_competition] has no
    [Participation] column ([unit]), [all_combined] has an integer one, and
    in their concatenation the column may be blank. *)
Record AggRow (P : Type) := mkAgg {
  a_Competition : pystr;
  a_COUNTRY     : pystr;
  Teams         : Z;
  Participants  : Z;
  Organizations : Z;
  Participation : P
}.

Definition with_Participation {P Q : Type} (f : P -> Q) (r : AggRow P) : AggRow Q :=
  mkAgg (a_Competition r) (a_COUNTRY r) (Teams r) (Participants r)
        (Organizations r) (f (Participation r)).

Definition key2 := (pystr * pystr)%type.

Definition key2_eq_dec : forall a b : key2, {a = b} + {a <> b}.
Proof. decide equality; apply str_eq_dec. Defined.

Definition key2_leb (a b : key2) : bool :=
  if str_ltb (fst a) (fst b) then true
  else if str_ltb (fst b) (fst a) then false
  else str_leb (snd a) (snd b).

(** The group keys of [groupby(['Competition', 'COUNTRY'])]: rows with a
    blank country belong to no group; keys come out sorted. *)
Definition keys_by_competition_country (df : list (Row cell)) : list key2 :=
  sort key2_leb
    (nodup key2_eq_dec
       (flat_map (fun r => match COUNTRY r with
                           | Some c => [(Competition r, c)]
                           | None => []
                           end) df)).

(** The group keys of [groupby('COUNTRY')]. *)
Definition keys_by_country (df : list (Row cell)) : list pystr :=
  sort str_leb (nodup str_eq_dec (dropna (map (@COUNTRY cell) df))).

Definition country_is (c : pystr) (r : Row cell) : bool :=
  match COUNTRY r with
  | Some c' => str_eqb c' c
  | None => false
  end.

Definition group_by_competition_country (k : key2) (df : list (Row cell)) : list (Row cell) :=
  filter (fun r => str_eqb (Competition r) (fst k) && country_is (snd k) r) df.

Definition group_by_country (c : pystr) (df : list (Row cell)) : list (Row cell) :=
  filter (country_is c) df.

(** lines 49-55 *)
Definition per_competition (df_split : list (Row cell)) : list (AggRow unit) :=
  map (fun k =>
         let g := group_by_competition_country k df_split in
         mkAgg (fst k) (snd k)
               (nunique str_eq_dec (map (@TEAM_NAME cell) g))
               (count (map (@TEAM_MEMBER cell) g))
               (nunique str_eq_dec (map (@ORGANIZATION cell) g))
               tt)
      (keys_by_competition_country df_split).

Definition All_Competitions : pystr := lit "All Competitions".

(** lines 57-65 *)
Definition all_combined (df_split : list (Row cell)) : list (AggRow Z) :=
  map (fun c =>
         let g := group_by_country c df_split in
         mkAgg All_Competitions c
               (nunique str_eq_dec (map (@TEAM_NAME cell) g))
               (count (map (@TEAM_MEMBER cell) g))
               (nunique str_eq_dec (map (@ORGANIZATION cell) g))
               (nunique str_eq_dec (map (fun r => Some (Competition r)) g)))
      (keys_by_country df_split).

(** line 67: the columns of the two tables are united, the missing
    [Participation] of the per-competition rows is blank. *)
Definition map_data (df_split : list (Row cell)) : list (AggRow (option Z)) :=
  map (with_Participation (fun _ => None)) (per_competition df_split)
  ++ map (with_Participation (@Some Z)) (all_combined df_split).

End Aggregator.
Import Aggregator.

(* ------------------------------------------------------------------ *)
(** ** Presentation layer (lines 72-219) *)
(* ------------------------------------------------------------------ *)

Module Presentation.

(** lines 72-77 *)
Definition metric_labels : dict pystr :=
  [ (lit "Teams", lit "Number of Teams");
    (lit "Participants", lit "Number of Participants");
    (lit "Organizations", lit "Number of Organizations");
    (lit "Participation", lit "Number of Competitions") ].

(** *** Frames as objects of a store *)

(** A [DataFrame] object of the aggregate schema; [hover_text] is the
    column the callback adds to its own copy. *)
Record Frame := mkFrame {
  body       : list (AggRow (option Z));
  hover_text : option (list pystr)
}.

Definition columns (f : Frame) : list pystr :=
  [lit "Competition"; lit "COUNTRY"; lit "Teams"; lit "Participants";
   lit "Organizations"; lit "Participation"]
  ++ match hover_text f with Some _ => [lit "hover_text"] | None => [] end.

Inductive exn := NameError | KeyError | IndexError | ValueError.

Definition ref := nat.
Definition Store := list Frame.

(** Computations that read and write frame objects and may raise. *)
Definition M (A : Type) : Type := Store -> (exn + A) * Store.

Definition ret {A : Type} (a : A) : M A := fun st => (inr a, st).
Definition raise {A : Type} (e : exn) : M A := fun st => (inl e, st).
Definition bind {A B : Type} (m : M A) (f : A -> M B) : M B :=
  fun st =>
    match m st with
    | (inr a, st') => f a st'
    | (inl e, st') => (inl e, st')
    end.

Notation "x <- m ;; k" := (bind m (fun x => k))
  (at level 61, m at next level, right associativity).
Notation "m ;;; k" := (bind m (fun _ => k))
  (at level 61, right associativity).

Definition read (l : ref) : M Frame :=
  fun st =>
    match nth_error st l with
    | Some f => (inr f, st)
    | None => (inl NameError, st)
    end.

(** A new object, at a fresh reference. *)
Definition alloc (f : Frame) : M ref :=
  fun st => (inr (length st), st ++ [f]).

Fixpoint update {A : Type} (l : nat) (x : A) (xs : list A) : list A :=
  match xs, l with
  | [], _ => []
  | _ :: t, O => x :: t
  | y :: t, S l' => y :: update l' x t
  end.

(** In-place change of the object at [l]. *)
Definition write (l : ref) (f : Frame) : M unit :=
  fun st =>
    if (l <? length st)%nat then (inr tt, update l f st)
    else (inl NameError, st).

Fixpoint for_each {A : Type} (xs : list A) (f : A -> M unit) : M unit :=
  match xs with
  | [] => ret tt
  | x :: t => f x ;;; for_each t f
  end.

Fixpoint mapM {A B : Type} (f : A -> M B) (xs : list A) : M (list B) :=
  match xs with
  | [] => ret []
  | x :: t => y <- f x ;; ys <- mapM f t ;; ret (y :: ys)
  end.

(** [d[k]] *)
Definition dict_getitem {V : Type} (d : dict V) (k : pystr) : M V :=
  match dict_get d k with
  | Some v => ret v
  | None => raise KeyError
  end.

(** *** Frame operations *)

(** [xs[mask]] *)
Definition select {A : Type} (mask : list bool) (xs : list A) : list A :=
  map snd (filter fst (combine mask xs)).

(** [df[mask]] *)
Definition getitem_mask (mask : list bool) (f : Frame) : Frame :=
  mkFrame (select mask (body f)) (option_map (select mask) (hover_text f)).

(** [df[col]] for a numeric column. *)
Definition getitem_num (col : pystr) (f : Frame) : M (list (option Z)) :=
  if str_eqb col (lit "Teams") then ret (map (fun r => Some (Teams r)) (body f))
  else if str_eqb col (lit "Participants") then ret (map (fun r => Some (Participants r)) (body f))
  else if str_eqb col (lit "Organizations") then ret (map (fun r => Some (Organizations r)) (body f))
  else if str_eqb col (lit "Participation") then ret (map (@Participation _) (body f))
  else raise KeyError.

Definition fillna_int (v : option Z) : option Z :=
  match v with
  | Some z => Some z
  | None => Some 0%Z
  end.

(** [df[col] = df[col].fillna(0).astype(int)].  The three count columns
    hold integers and no blank; [Participation] is the column with blanks. *)
Definition fillna_astype_int (col : pystr) (f : Frame) : Frame :=
  if str_eqb col (lit "Participation")
  then mkFrame (map (with_Participation fillna_int) (body f)) (hover_text f)
  else f.

(** [Series.sum()], [Series.max()] skip blanks. *)
Definition sum_skipna (col : list (option Z)) : Z := sum (dropna col).
Definition max_skipna (col : list (option Z)) : option Z := series_max (dropna col).

(** *** Formatting *)

Definition str_of_num (v : option Z) : pystr :=
  match v with
  | Some z => str_of_Z z
  | None => lit "nan"
  end.

(** lines 160-166 *)
Definition hover_row (hover_cols : list pystr) (row : AggRow (option Z)) : pystr :=
  (a_COUNTRY row ++ lit "<br>")
  ++ (lit "Teams: " ++ str_of_Z (Teams row) ++ lit "<br>")
  ++ (lit "Participants: " ++ str_of_Z (Participants row) ++ lit "<br>")
  ++ (lit "Organizations: " ++ str_of_Z (Organizations row))
  ++ (if existsb (str_eqb (lit "Participation")) hover_cols
      then lit "<br>Competitions: " ++ str_of_num (Participation row)
      else []).

(** Python's [round(n / d)] for integers [n] and [d > 0]: to the nearest
    integer, a tie to the even one.  ([n / d] is a float; for counts it is
    a tie exactly when the quotient of the integers is.) *)
Definition round_div (n d : Z) : Z :=
  let q := (n / d)%Z in
  let r := (n mod d)%Z in
  if (2 * r <? d)%Z then q
  else if (d <? 2 * r)%Z then (q + 1)%Z
  else if Z.even q then q else (q + 1)%Z.

(** lines 171-172.  On an empty column [max_val] is [NaN]: the comparison
    is false and [round] of a [NaN] raises. *)
Definition dtick_of (max_val : option Z) : M Z :=
  match max_val with
  | Some m => ret (if (m <=? 20)%Z then 1%Z else Z.max 1 (round_div m 6))
  | None => raise ValueError
  end.

Record MetricOption := mkOption { label : pystr; value : pystr }.

(** What the callback hands to the chart: the parts of the figure that
    depend on the data. *)
Record Figure := mkFigure {
  fig_locations      : list pystr;
  fig_color          : pystr;
  fig_color_values   : list (option Z);
  fig_hovertemplate  : list pystr;
  fig_title          : pystr;
  fig_colorbar_title : pystr;
  fig_dtick          : Z
}.

(** lines 189-196 *)
Definition title_text (selected_comp metric_label : pystr)
    (total_participants total_teams total_organizations total_countries : Z) : pystr :=
  ([0x1F30D%N] ++ lit " Global Participation Map " ++ [0x2014%N] ++ lit " "
     ++ selected_comp ++ lit " (" ++ metric_label ++ lit ")<br>")
  ++ lit "<span style='font-size:12px; color:gray;'>"
  ++ (str_of_Z total_participants ++ lit " Participants | ")
  ++ (str_of_Z total_teams ++ lit " Teams | ")
  ++ (str_of_Z total_organizations ++ lit " Organizations | ")
  ++ (str_of_Z total_countries ++ lit " Countries")
  ++ lit "</span>".

(** *** The callback *)

(** line 128 *)
Definition numeric_cols : list pystr :=
  [lit "Teams"; lit "Participants"; lit "Organizations"; lit "Participation"].

(** lines 134-138 *)
Definition valid_metrics_for (selected_comp : pystr) : list pystr :=
  let all_metrics := keys metric_labels in
  if negb (str_eqb selected_comp All_Competitions)
  then filter (fun m => negb (str_eqb m (lit "Participation"))) all_metrics
  else all_metrics.

(** lines 124-219; [map_data] is the module-level table. *)
Definition update_map (map_data : ref) (selected_comp selected_metric : pystr)
  : M (list MetricOption * pystr * Figure) :=
  (* line 125 *)
  md <- read map_data ;;
  let mask := map (fun r => str_eqb (a_Competition r) selected_comp) (body md) in
  masked <- alloc (getitem_mask mask md) ;;
  view <- read masked ;;
  df_subset <- alloc view ;;
  (* lines 128-131 *)
  for_each numeric_cols (fun col =>
    f <- read df_subset ;;
    if existsb (str_eqb col) (columns f)
    then write df_subset (fillna_astype_int col f)
    else ret tt) ;;;
  (* lines 134-138 *)
  let valid_metrics := valid_metrics_for selected_comp in
  (* lines 141-142 *)
  selected_metric <-
    (if negb (existsb (str_eqb selected_metric) valid_metrics)
     then match valid_metrics with
          | m :: _ => ret m
          | [] => raise IndexError
          end
     else ret selected_metric) ;;
  (* line 145 *)
  metric_options <-
    mapM (fun m => l <- dict_getitem metric_labels m ;; ret (mkOption l m))
         valid_metrics ;;
  (* lines 148-151 *)
  f <- read df_subset ;;
  let total_participants := sum (map (@Participants _) (body f)) in
  let total_teams := sum (map (@Teams _) (body f)) in
  let total_organizations := sum (map (@Organizations _) (body f)) in
  let total_countries :=
    nunique str_eq_dec (map (fun r => Some (a_COUNTRY r)) (body f)) in
  (* lines 154-156 *)
  let hover_cols :=
    [lit "Teams"; lit "Participants"; lit "Organizations"]
    ++ (if str_eqb selected_comp All_Competitions then [lit "Participation"] else []) in
  (* lines 159-168 *)
  write df_subset (mkFrame (body f) (Some (map (hover_row hover_cols) (body f)))) ;;;
  (* lines 171-172 *)
  f <- read df_subset ;;
  column <- getitem_num selected_metric f ;;
  dtick <- dtick_of (max_skipna column) ;;
  (* lines 175-217 *)
  hover <- match hover_text f with
           | Some h => ret h
           | None => raise KeyError
           end ;;
  metric_label <- dict_getitem metric_labels selected_metric ;;
  let fig :=
    mkFigure (map (@a_COUNTRY _) (body f)) selected_metric column hover
             (title_text selected_comp metric_label total_participants
                         total_teams total_organizations total_countries)
             metric_label dtick in
  (* line 219 *)
  ret (metric_options, selected_metric, fig).

(** The running server: the table is built once (lines 21-67) and is the
    first object of the store. *)
Definition map_data_ref : ref := 0%nat.

Definition startup (book : Loader.Workbook) : option Store :=
  match Loader.all_data book with
  | Some all_data => Some [mkFrame (map_data (Normalizer.df_split all_data)) None]
  | None => None
  end.

(** A session: the callback runs once per interaction, whatever it
    returns or raises. *)
Fixpoint serve (interactions : list (pystr * pystr)) (st : Store) : Store :=
  match interactions with
  | [] => st
  | (comp, metric) :: rest => serve rest (snd (update_map map_data_ref comp metric st))
  end.

End Presentation.

(* ------------------------------------------------------------------ *)
(** ** Page layout (lines 85-112) *)
(* ------------------------------------------------------------------ *)

Module Layout.
Import Presentation.

(** A [dcc.Dropdown]: its id, its options, its selected value. *)
Record Dropdown := mkDropdown {
  dd_id        : pystr;
  dd_options   : list MetricOption;
  dd_value     : pystr;
  dd_clearable : bool
}.

(** lines 95-101 *)
Definition competition_dropdown : Dropdown :=
  mkDropdown (lit "competition-dropdown")
             (map (fun c => mkOption c c) ([All_Competitions] ++ Loader.competition_order))
             All_Competitions
             false.

(** lines 102-107: the options are left to the callback. *)
Definition metric_dropdown : Dropdown :=
  mkDropdown (lit "metric-dropdown") [] (lit "Teams") false.

(** lines 117-123: the callback is run on the values of the two
    dropdowns. *)
Definition run_callback (competition metric : Dropdown)
  : M (list MetricOption * pystr * Figure) :=
  update_map map_data_ref (dd_value competition) (dd_value metric).

End Layout.

(* ------------------------------------------------------------------ *)
(** ** Notions used to state the properties *)
(* ------------------------------------------------------------------ *)

Module Notions.
Import Loader Normalizer Presentation.

(** No separator starts anywhere in [u]: at no position does the pattern
    of line 40 match. *)
Definition separator_free (u : pystr) : Prop :=
  forall p v, u = p ++ v -> Re.match_alt Normalizer.separator v = None.

(** The same, as a check that runs over the positions of [u]. *)
Fixpoint separator_freeb (u : pystr) : bool :=
  match Re.match_alt Normalizer.separator u with
  | Some _ => false
  | None =>
      match u with
      | [] => true
      | _ :: t => separator_freeb t
      end
  end.

(** The country text holds no delimiter: none of the separators line 40
    replaces ([&], [/], the word [and] between whitespace) and no comma. *)
Definition no_delimiter (s : pystr) : Prop :=
  separator_free s /\ contains (lit ",") s = false.

Definition cell_no_delimiter (c : cell) : Prop :=
  match c with
  | Some s => no_delimiter s
  | None => True
  end.

(** A registration row with the given country text. *)
Definition entry (team member org country comp : string) : Row cell :=
  mkRow None (Some (lit team)) (Some (lit member)) (Some (lit org))
        (Some (lit country)) (lit comp).

(** The output records of one input record. *)
Definition normalized (r : Row cell) : list (Row cell) :=
  map (fun tok =>
         with_COUNTRY (fun _ => replace country_alias_map (str_accessor strip tok)) r)
      (explode_cell
         (str_accessor (split (chr ","))
            (str_accessor (Re.sub separator (lit ",")) (COUNTRY r)))).

(** The last non-blank value of a column over [rows], top to bottom. *)
Definition carry {A : Type} (get : SheetRow -> option A) (acc : option A)
    (r : SheetRow) : option A :=
  match get r with
  | Some x => Some x
  | None => acc
  end.

Definition last_seen {A : Type} (get : SheetRow -> option A) (rows : list SheetRow)
  : option A :=
  fold_left (carry get) rows None.

(** The row that names the team of row [i]: the nearest row at or above
    [i] whose team name is not blank. *)
Definition carry_header (acc : option SheetRow) (r : SheetRow) : option SheetRow :=
  if notna (sh_TEAM_NAME r) then Some r else acc.

Definition team_header (sheet : list SheetRow) (i : nat) : option SheetRow :=
  fold_left carry_header (firstn (S i) sheet) None.

(** A sheet row given by its five cells. *)
Definition sheet_row (sr : option Z) (team member org country : option string)
  : SheetRow :=
  mkSheetRow sr (option_map lit team) (option_map lit member)
             (option_map lit org) (option_map lit country).

(** Row [i] of the filled sheet carries the four values of its team's
    header row. *)
Definition filled_from_team (sheet : list SheetRow) (i : nat) : Prop :=
  forall r h,
    nth_error (ffill_team_columns sheet) i = Some r ->
    team_header sheet i = Some h ->
    sh_SR_NO r = sh_SR_NO h /\ sh_TEAM_NAME r = sh_TEAM_NAME h /\
    sh_ORGANIZATION r = sh_ORGANIZATION h /\ sh_COUNTRY r = sh_COUNTRY h.

(** A sheet laid out team by team: the first row of a team gives the four
    team fields, its further member rows leave all four blank. *)
Definition header_row (r : SheetRow) : bool :=
  notna (sh_SR_NO r) && notna (sh_TEAM_NAME r) &&
  notna (sh_ORGANIZATION r) && notna (sh_COUNTRY r).

Definition member_row (r : SheetRow) : bool :=
  negb (notna (sh_SR_NO r)) && negb (notna (sh_TEAM_NAME r)) &&
  negb (notna (sh_ORGANIZATION r)) && negb (notna (sh_COUNTRY r)).

Definition team_blocks (sheet : list SheetRow) : Prop :=
  Forall (fun r => header_row r = true \/ member_row r = true) sheet.

(** The rows of the table the callback works on: those of the selected
    competition. *)
Definition rows_of (selected_comp : pystr) (table : list (AggRow (option Z)))
  : list (AggRow (option Z)) :=
  filter (fun r => str_eqb (a_Competition r) selected_comp) table.

(** The value of a metric in a row, a blank one counting as zero. *)
Definition metric_value (metric : pystr) (row : AggRow (option Z)) : option Z :=
  if str_eqb metric (lit "Teams") then Some (Teams row)
  else if str_eqb metric (lit "Participants") then Some (Participants row)
  else if str_eqb metric (lit "Organizations") then Some (Organizations row)
  else if str_eqb metric (lit "Participation") then
    Some (match Participation row with Some z => z | None => 0%Z end)
  else None.

(** [mx] is the largest value of [metric] over [rows]. *)
Definition is_max (metric : pystr) (rows : list (AggRow (option Z))) (mx : Z) : Prop :=
  (exists row, In row rows /\ metric_value metric row = Some mx) /\
  (forall row v, In row rows -> metric_value metric row = Some v -> (v <= mx)%Z).

Definition label_of (metric : pystr) : pystr :=
  match dict_get metric_labels metric with
  | Some l => l
  | None => []
  end.

(** The metric the callback goes on with (lines 141-142). *)
Definition resolve_metric (selected_comp selected_metric : pystr) : pystr :=
  if existsb (str_eqb selected_metric) (valid_metrics_for selected_comp)
  then selected_metric
  else hd [] (valid_metrics_for selected_comp).

(** The dropdown options of line 145. *)
Definition options_for (selected_comp : pystr) : list MetricOption :=
  map (fun m => mkOption (label_of m) m) (valid_metrics_for selected_comp).

(** What [update_map] returns or raises, as a function of the table it
    reads and of the two selections; [update_map_run] proves that the
    callback computes it. *)
Definition outcome (table : list (AggRow (option Z)))
    (selected_comp selected_metric : pystr)
  : exn + list MetricOption * pystr * Figure :=
  let rows := rows_of selected_comp table in
  let filled := map (with_Participation fillna_int) rows in
  let metric := resolve_metric selected_comp selected_metric in
  let column := map (metric_value metric) rows in
  let hover_cols :=
    [lit "Teams"; lit "Participants"; lit "Organizations"]
    ++ (if str_eqb selected_comp All_Competitions then [lit "Participation"] else []) in
  match max_skipna column with
  | None => inl ValueError
  | Some mx =>
      inr (options_for selected_comp, metric,
           mkFigure (map (@a_COUNTRY _) filled) metric column
                    (map (hover_row hover_cols) filled)
                    (title_text selected_comp (label_of metric)
                       (sum (map (@Participants _) filled))
                       (sum (map (@Teams _) filled))
                       (sum (map (@Organizations _) filled))
                       (nunique str_eq_dec (map (fun r => Some (a_COUNTRY r)) filled)))
                    (label_of metric)
                    (if (mx <=? 20)%Z then 1%Z else Z.max 1 (round_div mx 6)))
  end.

(** The two frames a run of the callback creates: the masked frame of
    line 125 and its copy [df_subset] as the callback leaves it. *)
Definition masked_frame (fr : Frame) (selected_comp : pystr) : Frame :=
  getitem_mask (map (fun r => str_eqb (a_Competition r) selected_comp) (body fr)) fr.

Definition subset_frame (fr : Frame) (selected_comp : pystr) : Frame :=
  let filled := map (with_Participation fillna_int) (rows_of selected_comp (body fr)) in
  let hover_cols :=
    [lit "Teams"; lit "Participants"; lit "Organizations"]
    ++ (if str_eqb selected_comp All_Competitions then [lit "Participation"] else []) in
  mkFrame filled (Some (map (hover_row hover_cols) filled)).

(** The frame read from a sheet with the given five-column rows; a sheet
    without rows reads as a frame without columns. *)
Definition sheet_of (rows : list SheetRow) : SheetFrame :=
  mkSheetFrame (match rows with [] => 0 | _ :: _ => 5 end) rows.

(** A small aggregate table and a small workbook, for concrete runs. *)
Definition example_table : list (AggRow (option Z)) :=
  [mkAgg (lit "CDC 2024") (lit "India") 3%Z 5%Z 2%Z None;
   mkAgg All_Competitions (lit "India") 42%Z 90%Z 30%Z (Some 4%Z);
   mkAgg All_Competitions (lit "Japan") 15%Z 33%Z 9%Z (Some 2%Z)].

Definition example_book : Workbook :=
  [(lit "IROS 2024",
    sheet_of
      [sheet_row (Some 1%Z) (Some "Alpha"%string) (Some "Ann"%string)
                 (Some "MIT"%string) (Some "USA & Canada"%string);
       sheet_row None None (Some "Al"%string) None None;
       sheet_row None None None None None]);
   (lit "CDC 2024",
    sheet_of
      [sheet_row (Some 1%Z) (Some "Alpha"%string) (Some "Ann"%string)
                 (Some "MIT"%string) (Some "U.S."%string)]);
   (lit "ICRA 2025",
    sheet_of
      [sheet_row (Some 1%Z) (Some "Gamma"%string) (Some "Gus"%string)
                 (Some "Aalto"%string) (Some "Finland"%string)]);
   (lit "CDC-TF 2025",
    sheet_of
      [sheet_row (Some 1%Z) (Some "Beta"%string) (Some "Bob"%string)
                 (Some "IIT"%string) (Some "India"%string)])].

(** The store of the server started on [example_book]. *)
Definition example_store : Store :=
  match startup example_book with
  | Some st => st
  | None => []
  end.

(** [l] lists, each once, the values [f r] of the rows of [df] that
    satisfy [sel]. *)
Definition enumerates {R A : Type} (l : list A) (sel : R -> Prop)
    (f : R -> option A) (df : list R) : Prop :=
  NoDup l /\ forall x, In x l <-> exists r, In r df /\ sel r /\ f r = Some x.

End Notions.

(* ------------------------------------------------------------------ *)
(** ** Further notions *)
(* ------------------------------------------------------------------ *)

Module Further.
Import Loader Normalizer Presentation Notions.

(** Line 16 started with given last values for the four columns. *)
Definition ffill_from (l1 : option Z) (l2 l3 l4 : cell) (sheet : list SheetRow)
  : list SheetRow :=
  ffill sh_COUNTRY set_COUNTRY l4
    (ffill sh_ORGANIZATION set_ORGANIZATION l3
       (ffill sh_TEAM_NAME set_TEAM_NAME l2
          (ffill sh_SR_NO set_SR_NO l1 sheet))).

(** A record without its country. *)
Definition other_fields {C : Type} (r : Row C) : Row unit :=
  with_COUNTRY (fun _ => tt) r.

(** A country name free of separators and of surrounding whitespace. *)
Definition tidy (c : pystr) : Prop :=
  ~ In (chr ",") c /\ ~ In (chr "&") c /\ ~ In (chr "/") c /\ strip c = c.

Definition tidyb (c : pystr) : bool :=
  negb (existsb (N.eqb (chr ",")) c) && negb (existsb (N.eqb (chr "&")) c)
  && negb (existsb (N.eqb (chr "/")) c) && str_eqb (strip c) c.

(** The pattern of line 40 as a scanner: skip the whitespace; an [&] or a
    [/] there is a separator; so is the word [and] when whitespace stood
    before it and stands after it.  What is left starts after the whitespace
    that follows. *)
Definition sep_match (s : pystr) : option pystr :=
  match lstrip s with
  | [] => None
  | c :: v =>
      if (c =? chr "&")%N then Some (lstrip v)
      else if (c =? chr "/")%N then Some (lstrip v)
      else
        match s with
        | x :: _ =>
            if isspace x then
              match v with
              | n :: d :: y :: w =>
                  if (c =? chr "a")%N && (n =? chr "n")%N && (d =? chr "d")%N
                     && isspace y
                  then Some (lstrip w)
                  else None
              | _ => None
              end
            else None
        | [] => None
        end
  end.

(** A country that every step of the normaliser leaves as it is. *)
Definition settledb (c : pystr) : bool :=
  str_eqb (Re.sub Normalizer.separator (lit ",") c) c
  && negb (existsb (N.eqb (chr ",")) c)
  && str_eqb (strip c) c
  && match dict_get Normalizer.country_alias_map c with
     | None => true
     | Some _ => false
     end.

(** The key of an aggregate row. *)
Definition agg_key {P : Type} (row : AggRow P) : key2 :=
  (a_Competition row, a_COUNTRY row).

(** The member names of a group, as a sum of ones. *)
Definition member_weight (r : Row cell) : Z :=
  if notna (TEAM_MEMBER r) then 1%Z else 0%Z.

(** The records behind a view: those with a country that belong to the
    selected competition, all of them for [All Competitions]. *)
Definition records_of (comp : pystr) (df : list (Row cell)) : list (Row cell) :=
  filter (fun r => notna (COUNTRY r)
                   && (str_eqb comp All_Competitions || str_eqb (Competition r) comp))
         df.

(** The records that enter the aggregates: those with a country. *)
Definition with_country (df : list (Row cell)) : list (Row cell) :=
  filter (fun r => notna (COUNTRY r)) df.

End Further.

(* ================================================================== *)
(** * Properties *)
(* ================================================================== *)

(** ** Strings and the separator pattern *)

Section StringFacts.
Import Re Normalizer Notions.

(** Case analysis on the alternative tried first. *)
Ltac first_branch E :=
  match goal with
  | |- match ?x with Some _ => _ | None => _ end = _ -> _ => destruct x eqn:E
  end.

Lemma str_eqb_eq (a b : pystr) : str_eqb a b = true <-> a = b.
Proof.
  unfold str_eqb. destruct (str_eq_dec a b); split; congruence.
Qed.

Lemma str_eqb_refl (a : pystr) : str_eqb a a = true.
Proof. now apply str_eqb_eq. Qed.

Lemma str_eqb_neq (a b : pystr) : str_eqb a b = false <-> a <> b.
Proof.
  unfold str_eqb. destruct (str_eq_dec a b); split; congruence.
Qed.

Lemma contains_here (needle s : pystr) :
  prefixb needle s = true -> contains needle s = true.
Proof.
  intros H. destruct s; simpl; rewrite H; reflexivity.
Qed.

Lemma contains_app (needle pre s : pystr) :
  contains needle s = true -> contains needle (pre ++ s) = true.
Proof.
  induction pre as [|c pre IH]; intros H; simpl; auto.
  rewrite (IH H). apply orb_true_r.
Qed.

Lemma contains_tail (needle : pystr) (c : N) (s : pystr) :
  contains needle (c :: s) = false -> contains needle s = false.
Proof.
  simpl. intros H. now apply orb_false_elim in H.
Qed.

(** A greedy repetition only consumes a prefix: what follows it matched
    at some suffix. *)
Lemma star_suffix (a : atom) (rest : pystr -> option pystr) (s r : pystr) :
  star a rest s = Some r ->
  exists pre t, s = pre ++ t /\ rest t = Some r.
Proof.
  induction s as [|c s IH]; simpl; intros H.
  - exists [], []. auto.
  - destruct (atom_ok a c).
    + destruct (star a rest s) as [r'|] eqn:E.
      * destruct (IH H) as (pre & t & -> & Ht).
        exists (c :: pre), t. split; [reflexivity|assumption].
      * exists [], (c :: s). auto.
    + exists [], (c :: s). auto.
Qed.

Lemma one_chr_prefix (x : N) (k : pystr -> option pystr) (s r : pystr) :
  one (Chr x) k s = Some r -> exists t, s = x :: t /\ k t = Some r.
Proof.
  destruct s as [|c t]; simpl; [discriminate|].
  destruct (N.eqb_spec c x); [|discriminate].
  subst. eauto.
Qed.

(** A match of the separator pattern needs one of [&], [/], [and] in the
    text. *)
Lemma separator_needs_delimiter (s r : pystr) :
  match_alt separator s = Some r ->
  contains (lit "&") s = true \/ contains (lit "/") s = true \/
  contains (lit "and") s = true.
Proof.
  unfold separator. simpl match_alt.
  first_branch E1.
  { intros _. apply star_suffix in E1. destruct E1 as (pre & t & -> & Ht).
    apply one_chr_prefix in Ht. destruct Ht as (u & -> & _).
    left. apply contains_app, contains_here. reflexivity. }
  first_branch E2.
  { intros _. apply star_suffix in E2. destruct E2 as (pre & t & -> & Ht).
    apply one_chr_prefix in Ht. destruct Ht as (u & -> & _).
    right; left. apply contains_app, contains_here. reflexivity. }
  first_branch E3; [|discriminate].
  intros _. destruct s as [|c s]; simpl in E3; [discriminate|].
  destruct (isspace c); [|discriminate].
  apply star_suffix in E3. destruct E3 as (pre & t & -> & Ht).
  apply one_chr_prefix in Ht. destruct Ht as (u1 & -> & Ht).
  apply one_chr_prefix in Ht. destruct Ht as (u2 & -> & Ht).
  apply one_chr_prefix in Ht. destruct Ht as (u3 & -> & _).
  right; right. apply (contains_app _ (c :: pre)), contains_here.
  reflexivity.
Qed.

(** The pattern never matches the empty string. *)
Lemma separator_consumes (s r : pystr) :
  match_alt separator s = Some r -> (length r < length s)%nat.
Proof.
  assert (Hstar : forall a k s r,
             (forall t r, k t = Some r -> (length r < length t)%nat) ->
             star a k s = Some r -> (length r < length s)%nat).
  { intros a k s0 r0 Hk H. apply star_suffix in H.
    destruct H as (pre & t & -> & Ht). apply Hk in Ht.
    rewrite length_app. lia. }
  assert (Hstar0 : forall a s r, star a (fun s : pystr => Some s) s = Some r ->
                                 (length r <= length s)%nat).
  { intros a s0 r0 H. apply star_suffix in H.
    destruct H as (pre & t & -> & Ht). inversion Ht; subst.
    rewrite length_app. lia. }
  assert (Hone : forall x k t r,
             (forall t r, k t = Some r -> (length r <= length t)%nat) ->
             one (Chr x) k t = Some r -> (length r < length t)%nat).
  { intros x k t r0 Hk H. apply one_chr_prefix in H.
    destruct H as (u & -> & Hu). apply Hk in Hu. simpl. lia. }
  unfold separator. simpl match_alt.
  first_branch E1.
  { intros H; inversion H; subst.
    eapply Hstar; [|exact E1].
    intros t r0. apply Hone. apply Hstar0. }
  first_branch E2.
  { intros H; inversion H; subst.
    eapply Hstar; [|exact E2].
    intros t r0. apply Hone. apply Hstar0. }
  first_branch E3; [|discriminate].
  intros H; inversion H; subst.
  destruct s as [|c s]; simpl in E3; [discriminate|].
  destruct (isspace c); [|discriminate].
  apply star_suffix in E3. destruct E3 as (pre & t & -> & Ht).
  apply one_chr_prefix in Ht. destruct Ht as (u1 & -> & Ht).
  apply one_chr_prefix in Ht. destruct Ht as (u2 & -> & Ht).
  apply one_chr_prefix in Ht. destruct Ht as (u3 & -> & Ht).
  destruct u3 as [|c' u4]; simpl in Ht; [discriminate|].
  destruct (isspace c'); [|discriminate].
  apply Hstar0 in Ht. simpl. rewrite length_app. simpl. lia.
Qed.

Lemma separator_freeb_eq (u : pystr) :
  separator_freeb u =
    match match_alt separator u with
    | Some _ => false
    | None => match u with [] => true | _ :: t => separator_freeb t end
    end.
Proof. destruct u; reflexivity. Qed.

(** The check over the positions decides [separator_free]. *)
Lemma separator_freeb_free (u : pystr) :
  separator_freeb u = true <-> separator_free u.
Proof.
  induction u as [|c u IH]; rewrite separator_freeb_eq.
  - split.
    + intros H p v E. destruct p; [|discriminate]. simpl in E. subst v.
      destruct (match_alt separator []); [discriminate|reflexivity].
    + intros H. rewrite (H [] [] eq_refl). reflexivity.
  - split.
    + intros H p v E.
      destruct (match_alt separator (c :: u)) eqn:M; [discriminate|].
      destruct p as [|x p]; simpl in E.
      * subst v. exact M.
      * injection E as -> E. exact (proj1 IH H p v E).
    + intros H. rewrite (H [] (c :: u) eq_refl). apply IH.
      intros p v E. apply (H (c :: p) v). simpl. now rewrite E.
Qed.

(** A text without [&], [/] and the letters [and] has no separator. *)
Lemma separator_free_no_chars (s : pystr) :
  contains (lit "&") s = false -> contains (lit "/") s = false ->
  contains (lit "and") s = false ->
  separator_free s.
Proof.
  intros H1 H2 H3 p v ->.
  destruct (match_alt separator v) as [r|] eqn:E; [|reflexivity].
  apply separator_needs_delimiter in E.
  destruct E as [E|[E|E]]; apply (contains_app _ p) in E; congruence.
Qed.

(** Where no separator starts, line 40 leaves the text as it is. *)
Lemma sub_without_separator (repl u : pystr) :
  separator_free u -> Re.sub separator repl u = u.
Proof.
  unfold Re.sub. induction u as [|c u IH]; intros H; [reflexivity|].
  cbn [sub_from]. rewrite (H [] (c :: u) eq_refl). f_equal. apply IH.
  intros p v E. apply (H (c :: p) v). simpl. now rewrite E.
Qed.

Lemma split_no_sep (sep : N) (s : pystr) :
  contains [sep] s = false -> split sep s = [s].
Proof.
  induction s as [|c s IH]; intros H; [reflexivity|].
  cbn [contains prefixb] in H. apply orb_false_elim in H. destruct H as [Hc Hs].
  rewrite andb_true_r, N.eqb_sym in Hc. cbn [split]. rewrite Hc, (IH Hs). reflexivity.
Qed.

(** The pattern on a few country texts: whitespace around [&] and [/] is
    optional and swallowed, [and] needs whitespace on both sides. *)
Example separator_examples :
  Re.sub separator (lit ",") (lit "Trinidad and Tobago") = lit "Trinidad,Tobago"
  /\ Re.sub separator (lit ",") (lit "India&Nepal  /  Bhutan") = lit "India,Nepal,Bhutan"
  /\ Re.sub separator (lit ",") (lit "Finland and") = lit "Finland and"
  /\ Re.sub separator (lit ",") (lit "Iceland") = lit "Iceland"
  /\ Re.sub separator (lit ",") (lit "USA" ++ [0xA0%N] ++ lit "&" ++ [0x2003%N] ++ lit "UK")
     = lit "USA,UK".
Proof. repeat split; vm_compute; reflexivity. Qed.

Lemma split_not_nil (sep : N) (s : pystr) : split sep s <> [].
Proof.
  destruct s as [|c u]; cbn [split]; [discriminate|].
  destruct (c =? sep)%N; [discriminate|].
  destruct (split sep u); discriminate.
Qed.

End StringFacts.

(** ** Country normaliser *)

Section NormalizerFacts.
Import Re Normalizer Notions.

Lemma dict_get_notin {V : Type} (d : dict V) (k : pystr) :
  ~ In k (keys d) -> dict_get d k = None.
Proof.
  induction d as [|[k' v] d IH]; simpl; intros H; [reflexivity|].
  destruct (str_eqb k k') eqn:E.
  - apply str_eqb_eq in E. subst. tauto.
  - apply IH. tauto.
Qed.

(** The normaliser works record by record. *)
Lemma df_split_app (a b : list (Row cell)) :
  df_split (a ++ b) = df_split a ++ df_split b.
Proof.
  unfold df_split, replace_aliases, strip_countries, explode, split_countries,
    replace_separators.
  rewrite !map_app, flat_map_app, !map_app. reflexivity.
Qed.

Lemma df_split_one (r : Row cell) : df_split [r] = normalized r.
Proof.
  unfold df_split, normalized, replace_aliases, strip_countries, explode,
    split_countries, replace_separators.
  cbn [map flat_map]. rewrite app_nil_r, !map_map.
  destruct r as [sr tn tm org c comp]. reflexivity.
Qed.

Lemma df_split_flat_map (all_data : list (Row cell)) :
  df_split all_data = flat_map normalized all_data.
Proof.
  induction all_data as [|r rest IH]; [reflexivity|].
  change (r :: rest) with ([r] ++ rest).
  rewrite df_split_app, df_split_one, IH. reflexivity.
Qed.

(** The normaliser keeps the member names: a table loaded from a
    workbook has one in every normalised record. *)
Lemma df_split_members_present (all_data : list (Row cell)) :
  Forall (fun r : Row cell => TEAM_MEMBER r <> None) all_data ->
  Forall (fun r : Row cell => TEAM_MEMBER r <> None) (df_split all_data).
Proof.
  rewrite !Forall_forall. intros H row Hrow.
  rewrite df_split_flat_map in Hrow. apply in_flat_map in Hrow.
  destruct Hrow as (r & Hr & Hrow). unfold normalized in Hrow.
  apply in_map_iff in Hrow. destruct Hrow as (tok & <- & _).
  cbn [with_COUNTRY TEAM_MEMBER]. now apply H.
Qed.

(** C4.  The normaliser replaces the separators [&], [/] and the word
    [and] by a comma (line 40), splits at commas and makes one record per
    token, every other field copied (lines 41-42), trims each token
    (line 43) and only then looks the token up in the alias table
    (line 44).  Tokens are trimmed and aliased one by one after the split:
    the same steps with trimming and aliasing moved before the split give
    another result. *)
Theorem df_split_splits_then_trims_then_aliases (all_data : list (Row cell)) :
  df_split all_data =
    flat_map
      (fun r =>
         map (fun tok =>
                with_COUNTRY
                  (fun _ => replace country_alias_map (str_accessor strip tok)) r)
             (explode_cell
                (str_accessor (split (chr ","))
                   (str_accessor (Re.sub separator (lit ",")) (COUNTRY r)))))
      all_data
  /\ (forall sr tn tm org comp s,
        df_split [mkRow sr tn tm org (Some s) comp] =
        map (fun tok =>
               mkRow sr tn tm org
                     (replace country_alias_map (Some (strip tok))) comp)
            (split (chr ",") (Re.sub separator (lit ",") s)))
  /\ (Re.sub separator (lit ",") (lit "India & Nepal") = lit "India,Nepal"
      /\ Re.sub separator (lit ",") (lit "India/Nepal") = lit "India,Nepal"
      /\ Re.sub separator (lit ",") (lit "India and Nepal") = lit "India,Nepal"
      /\ Re.sub separator (lit ",") (lit "Finland") = lit "Finland")
  /\ (map (@COUNTRY cell) (df_split [entry "T" "m" "O" " USA , U.K. " "CDC 2024"])
        = [Some (lit "United States"); Some (lit "United Kingdom")]
      /\ map (@COUNTRY cell)
           (explode (split_countries (replace_separators (replace_aliases
              (strip_countries [entry "T" "m" "O" " USA , U.K. " "CDC 2024"])))))
        = [Some (lit "USA "); Some (lit " U.K.")]).
Proof.
  split; [apply df_split_flat_map|].
  split.
  { intros. rewrite df_split_one. unfold normalized. cbn [COUNTRY str_accessor option_map].
    pose proof (split_not_nil (chr ",") (Re.sub separator (lit ",") s)) as Hne.
    destruct (split (chr ",") (Re.sub separator (lit ",") s)) as [|t ts];
      [contradiction|].
    cbn [explode_cell]. rewrite map_map. reflexivity. }
  split; [repeat split; vm_compute; reflexivity|].
  split; vm_compute; reflexivity.
Qed.

(** C5, as stated: a record whose country holds no delimiter would come
    out of the normaliser unchanged.  It does not: the country is still
    looked up in the alias table. *)
Lemma single_country_is_still_aliased :
  ~ (forall r : Row cell,
       cell_no_delimiter (COUNTRY r) -> df_split [r] = [r]).
Proof.
  intros H.
  specialize (H (entry "T" "m" "O" "USA" "CDC 2024")).
  assert (Hd : cell_no_delimiter (COUNTRY (entry "T" "m" "O" "USA" "CDC 2024"))).
  { split; [apply separator_freeb_free|]; reflexivity. }
  apply H in Hd. vm_compute in Hd. discriminate Hd.
Qed.

(** Names with the letters [and] inside hold no delimiter; a name with the
    word [and] between whitespace, an [&], a [/] or a comma holds one. *)
Example no_delimiter_examples :
  (no_delimiter (lit "Finland") /\ no_delimiter (lit "Poland")
   /\ no_delimiter (lit "New Zealand") /\ no_delimiter (lit "Netherlands")
   /\ no_delimiter (lit "Finland and"))
  /\ ~ no_delimiter (lit "Trinidad and Tobago")
  /\ ~ no_delimiter (lit "USA&UK")
  /\ ~ no_delimiter (lit "USA / UK")
  /\ ~ no_delimiter (lit "USA, UK").
Proof.
  split.
  { repeat split; try (apply separator_freeb_free); reflexivity. }
  repeat split; intros [F C]; try discriminate C;
    apply separator_freeb_free in F; discriminate F.
Qed.

(** C5, amended.  A record whose country holds no delimiter (nowhere in it
    does a separator of line 40 start, that is an [&], a [/] or the word
    [and] between whitespace, and it holds no comma) gives exactly one
    output record: the input record with its country trimmed and looked up
    in the alias table.  When the country has no surrounding whitespace and
    is not a key of the alias table, that record is the input record.  The
    letters [and] inside a name are no delimiter: [Finland], [Poland],
    [New Zealand] and [Netherlands] are covered. *)
Theorem single_country_one_record (r : Row cell)
    (Hd : cell_no_delimiter (COUNTRY r)) :
  df_split [r] =
    [with_COUNTRY (fun c => replace country_alias_map (str_accessor strip c)) r]
  /\ ((forall s, COUNTRY r = Some s ->
                 strip s = s /\ ~ In s (keys country_alias_map)) ->
      df_split [r] = [r]).
Proof.
  assert (E : df_split [r] =
    [with_COUNTRY (fun c => replace country_alias_map (str_accessor strip c)) r]).
  { rewrite df_split_one. unfold normalized.
    destruct r as [sr tn tm org [s|] comp]; cbn [COUNTRY] in *; [|reflexivity].
    destruct Hd as (H1 & H4).
    cbn [str_accessor option_map].
    rewrite (@sub_without_separator (lit ",") s H1).
    rewrite (split_no_sep (chr ",") s H4).
    reflexivity. }
  split; [exact E|].
  intros Hs. rewrite E. f_equal.
  destruct r as [sr tn tm org [s|] comp]; cbn [COUNTRY] in *; [|reflexivity].
  destruct (Hs s eq_refl) as [Hstrip Hkey].
  unfold with_COUNTRY. cbn [COUNTRY SR_NO TEAM_NAME TEAM_MEMBER ORGANIZATION
    Competition str_accessor option_map replace].
  rewrite Hstrip, (dict_get_notin country_alias_map s Hkey). reflexivity.
Qed.

Lemma single_country_one_record_witness :
  df_split [entry "T" "m" "O" "New Zealand" "CDC 2024"]
  = [entry "T" "m" "O" "New Zealand" "CDC 2024"].
Proof.
  refine (proj2 (single_country_one_record
                   (entry "T" "m" "O" "New Zealand" "CDC 2024") _) _).
  - split; [apply separator_freeb_free|]; reflexivity.
  - intros s Hs. injection Hs as <-. split; [reflexivity|].
    vm_compute. intros H.
    repeat (destruct H as [H|H]; [discriminate H|]). exact H.
Defined.

(** C6.  Line 44 replaces a token by the alias table's value exactly when
    the whole token is, character for character, a key of the table; every
    other token is kept.  [U.S.], [USA] and
    [United States of America (USA)] all become [United States] and are
    counted in one row, [usa] is no key and keeps a row of its own. *)
Theorem alias_is_exact_match (tok : pystr) :
  (forall v, In (tok, v) country_alias_map ->
             replace country_alias_map (Some tok) = Some v)
  /\ (~ In tok (keys country_alias_map) ->
      replace country_alias_map (Some tok) = Some tok)
  /\ (replace country_alias_map (Some tok) <> Some tok <->
      In tok (keys country_alias_map))
  /\ (replace country_alias_map (Some (lit "U.S.")) = Some (lit "United States")
      /\ replace country_alias_map (Some (lit "USA")) = Some (lit "United States")
      /\ replace country_alias_map (Some (lit "United States of America (USA)"))
         = Some (lit "United States")
      /\ replace country_alias_map (Some (lit "usa")) = Some (lit "usa"))
  /\ map (fun row => (a_COUNTRY row, Participants row))
         (all_combined (df_split
            [entry "T1" "m1" "O" "U.S." "CDC 2024";
             entry "T2" "m2" "O" "USA" "CDC 2024";
             entry "T3" "m3" "O" "United States of America (USA)" "ICRA 2025";
             entry "T4" "m4" "O" "usa" "ICRA 2025"]))
     = [(lit "United States", 3%Z); (lit "usa", 1%Z)].
Proof.
  assert (Hin : forall v, In (tok, v) country_alias_map ->
                          replace country_alias_map (Some tok) = Some v).
  { intros v H. unfold country_alias_map in H.
    repeat (destruct H as [H|H];
            [injection H as <- <-; vm_compute; reflexivity|]).
    destruct H. }
  assert (Hout : ~ In tok (keys country_alias_map) ->
                 replace country_alias_map (Some tok) = Some tok).
  { intros H. unfold replace. cbn [option_map].
    rewrite (dict_get_notin country_alias_map tok H). reflexivity. }
  split; [exact Hin|]. split; [exact Hout|].
  split; [|split; [repeat split; vm_compute; reflexivity|vm_compute; reflexivity]].
  split.
  - intros Hne. destruct (in_dec str_eq_dec tok (keys country_alias_map)) as [H|H];
      [exact H|]. elim Hne. now apply Hout.
  - intros H. unfold country_alias_map, keys in H. cbn [map fst] in H.
    repeat (destruct H as [H|H]; [subst tok; vm_compute; discriminate|]).
    destruct H.
Qed.

Lemma alias_is_exact_match_witness :
  replace country_alias_map (Some (lit "UK")) = Some (lit "United Kingdom").
Proof.
  refine (proj1 (alias_is_exact_match (lit "UK")) (lit "United Kingdom") _).
  vm_compute. tauto.
Defined.

End NormalizerFacts.

(** ** Record loader *)

Section LoaderFacts.
Import Loader Notions.
Local Open Scope string_scope.

(** Row [i] of the filled sheet: in each of the four columns the last
    non-blank value at or above row [i], the member name as it was. *)
Lemma ffill_four_nth (sheet : list SheetRow) :
  forall (l1 : option Z) (l2 l3 l4 : cell) (i : nat) (r : SheetRow),
    nth_error sheet i = Some r ->
    nth_error
      (ffill sh_COUNTRY set_COUNTRY l4
         (ffill sh_ORGANIZATION set_ORGANIZATION l3
            (ffill sh_TEAM_NAME set_TEAM_NAME l2
               (ffill sh_SR_NO set_SR_NO l1 sheet)))) i
    = Some (mkSheetRow
              (fold_left (carry sh_SR_NO) (firstn (S i) sheet) l1)
              (fold_left (carry sh_TEAM_NAME) (firstn (S i) sheet) l2)
              (sh_TEAM_MEMBER r)
              (fold_left (carry sh_ORGANIZATION) (firstn (S i) sheet) l3)
              (fold_left (carry sh_COUNTRY) (firstn (S i) sheet) l4)).
Proof.
  induction sheet as [|r0 t IH]; intros l1 l2 l3 l4 i r H.
  - destruct i; discriminate.
  - destruct i as [|i].
    + injection H as <-. reflexivity.
    + cbn [nth_error] in H. cbn [ffill nth_error].
      rewrite (IH _ _ _ _ _ _ H). reflexivity.
Qed.

Lemma ffill_team_columns_nth (sheet : list SheetRow) (i : nat) (r : SheetRow) :
  nth_error sheet i = Some r ->
  nth_error (ffill_team_columns sheet) i
  = Some (mkSheetRow (last_seen sh_SR_NO (firstn (S i) sheet))
                     (last_seen sh_TEAM_NAME (firstn (S i) sheet))
                     (sh_TEAM_MEMBER r)
                     (last_seen sh_ORGANIZATION (firstn (S i) sheet))
                     (last_seen sh_COUNTRY (firstn (S i) sheet))).
Proof. apply ffill_four_nth. Qed.

Lemma ffill_length {A : Type} (get : SheetRow -> option A) set (df : list SheetRow) :
  forall last, length (ffill get set last df) = length df.
Proof.
  induction df as [|r t IH]; intros last; [reflexivity|].
  cbn [ffill length]. now rewrite IH.
Qed.

Lemma ffill_team_columns_length (sheet : list SheetRow) :
  length (ffill_team_columns sheet) = length sheet.
Proof.
  unfold ffill_team_columns. now rewrite !ffill_length.
Qed.

(** In a sheet laid out team by team, the value carried down a column is
    the one of the current team's header row. *)
Lemma carry_follows_header {A : Type} (get : SheetRow -> option A) :
  (forall r, header_row r = true -> get r <> None) ->
  (forall r, member_row r = true -> get r = None) ->
  forall rows acc_h acc_v h,
    Forall (fun r => header_row r = true \/ member_row r = true) rows ->
    (forall h0, acc_h = Some h0 -> acc_v = get h0) ->
    fold_left carry_header rows acc_h = Some h ->
    fold_left (carry get) rows acc_v = get h.
Proof.
  intros Hhead Hmem. induction rows as [|r t IH]; intros acc_h acc_v h Hok Hacc Hh.
  - cbn in *. now apply Hacc.
  - inversion Hok as [|? ? Hr Ht]; subst. cbn [fold_left] in *.
    apply (IH (carry_header acc_h r)); [exact Ht| |exact Hh].
    unfold carry_header, carry. destruct Hr as [Hr|Hr].
    + pose proof (Hhead r Hr) as Hg.
      assert (Hn : notna (sh_TEAM_NAME r) = true).
      { unfold header_row in Hr. apply andb_prop in Hr. destruct Hr as [Hr _].
        apply andb_prop in Hr. destruct Hr as [Hr _].
        apply andb_prop in Hr. now destruct Hr. }
      rewrite Hn. intros h0 E. injection E as <-.
      destruct (get r); [reflexivity|contradiction].
    + rewrite (Hmem r Hr).
      assert (Hn : notna (sh_TEAM_NAME r) = false).
      { unfold member_row in Hr. apply andb_prop in Hr. destruct Hr as [Hr _].
        apply andb_prop in Hr. destruct Hr as [Hr _].
        apply andb_prop in Hr. destruct Hr as [_ Hr].
        now apply negb_true_iff in Hr. }
      rewrite Hn. exact Hacc.
Qed.

Lemma Forall_firstn_keep {A : Type} (P : A -> Prop) (n : nat) (l : list A) :
  Forall P l -> Forall P (firstn n l).
Proof.
  intros H. revert n. induction H as [|x l Hx Hl IH]; intros [|n]; cbn [firstn];
    constructor; auto.
Qed.

(** Every loaded row has a member name (line 17). *)
Lemma clean_members_present (name : pystr) (sheet : list SheetRow) :
  Forall (fun r : Row cell => TEAM_MEMBER r <> None) (clean name sheet).
Proof.
  unfold clean, dropna_subset. rewrite Forall_forall. intros row Hrow.
  apply in_map_iff in Hrow. destruct Hrow as (r & <- & Hr).
  apply filter_In in Hr. destruct Hr as [_ Hm]. cbn [tag TEAM_MEMBER].
  destruct (sh_TEAM_MEMBER r); [discriminate|discriminate].
Qed.

(** A sheet loads when it is there and reads as five columns. *)
Lemma load_competition_some (book : Workbook) (c : pystr) (df : list (Row cell)) :
  load_competition book c = Some df <->
  exists f, read_excel book c = Some f /\ sf_width f = 5%nat
            /\ df = clean c (sf_rows f).
Proof.
  unfold load_competition, set_columns.
  destruct (read_excel book c) as [f|].
  - destruct (Nat.eqb_spec (sf_width f) 5) as [W|W].
    + split.
      * intros H. injection H as <-. now exists f.
      * intros (f' & E & _ & ->). now injection E as <-.
    + split; [discriminate|].
      intros (f' & E & W' & _). injection E as <-. contradiction.
  - split; [discriminate|]. intros (f' & E & _). discriminate.
Qed.

Lemma load_competition_none (book : Workbook) (c : pystr) :
  load_competition book c = None <->
  read_excel book c = None
  \/ exists f, read_excel book c = Some f /\ sf_width f <> 5%nat.
Proof.
  unfold load_competition, set_columns.
  destruct (read_excel book c) as [f|].
  - destruct (Nat.eqb_spec (sf_width f) 5) as [W|W].
    + split; [discriminate|].
      intros [E|(f' & E & W')]; [discriminate|].
      injection E as <-. contradiction.
    + split; [|reflexivity]. intros _. right. now exists f.
  - split; [|reflexivity]. intros _. now left.
Qed.

Lemma load_all_members_present (book : Workbook) (names : list pystr) :
  forall df, load_all book names = Some df ->
             Forall (fun r : Row cell => TEAM_MEMBER r <> None) df.
Proof.
  induction names as [|c rest IH]; intros df H; cbn [load_all] in H.
  - injection H as <-. constructor.
  - destruct (load_competition book c) as [sheet|] eqn:E; [|discriminate].
    apply load_competition_some in E. destruct E as (f & _ & _ & ->).
    destruct (load_all book rest) as [dfs|]; [|discriminate].
    injection H as <-. apply Forall_app. split; [apply clean_members_present|].
    now apply IH.
Qed.

Ltac header_bits H :=
  unfold header_row, member_row in H;
  repeat (apply andb_prop in H; let H' := fresh in destruct H as [H H']);
  repeat match goal with
         | X : negb _ = true |- _ => apply negb_true_iff in X
         end.

(** C7, as stated: every row of the filled sheet would carry the four
    values of its own team's first row.  A team whose first row leaves the
    organisation blank gets the organisation of the team above. *)
Lemma ffill_crosses_team_boundary :
  ~ (forall sheet i, filled_from_team sheet i).
Proof.
  intros H.
  specialize (H [sheet_row (Some 1%Z) (Some "Alpha") (Some "Ann") (Some "MIT") (Some "USA");
                 sheet_row (Some 2%Z) (Some "Beta") (Some "Bob") None (Some "India")]
                1%nat).
  unfold filled_from_team in H.
  specialize (H _ _ eq_refl eq_refl).
  destruct H as (_ & _ & H & _). vm_compute in H. discriminate H.
Qed.

(** C7, amended.  Line 16 fills each of the four columns on its own: a
    blank cell takes the nearest non-blank value above it in its column,
    whatever team that value belongs to, and stays blank when there is
    none.  In a sheet where the first row of each team gives all four
    fields and the further member rows leave all four blank, every row of a
    team's block carries exactly that team's values.  Line 17 then drops the
    rows without a member name, and only those. *)
Theorem ffill_takes_nearest_value_above (sheet : list SheetRow) :
  (forall i r,
      nth_error sheet i = Some r ->
      nth_error (ffill_team_columns sheet) i
      = Some (mkSheetRow (last_seen sh_SR_NO (firstn (S i) sheet))
                         (last_seen sh_TEAM_NAME (firstn (S i) sheet))
                         (sh_TEAM_MEMBER r)
                         (last_seen sh_ORGANIZATION (firstn (S i) sheet))
                         (last_seen sh_COUNTRY (firstn (S i) sheet))))
  /\ (team_blocks sheet -> forall i, filled_from_team sheet i)
  /\ (forall name row,
        In row (clean name sheet) <->
        exists r, In r (ffill_team_columns sheet) /\
                  sh_TEAM_MEMBER r <> None /\ row = tag name r).
Proof.
  split; [apply ffill_team_columns_nth|]. split.
  - intros Hblocks i r h Hr Hh.
    destruct (nth_error sheet i) as [r0|] eqn:E.
    2:{ apply nth_error_None in E.
        assert (nth_error (ffill_team_columns sheet) i = None) as Hnone.
        { apply nth_error_None. now rewrite ffill_team_columns_length. }
        congruence. }
    rewrite (ffill_team_columns_nth sheet i E) in Hr. injection Hr as <-.
    unfold team_header in Hh. unfold last_seen. cbn [sh_SR_NO sh_TEAM_NAME
      sh_ORGANIZATION sh_COUNTRY].
    pose proof (Forall_firstn_keep (S i) Hblocks) as Hok.
    repeat split.
    + apply (carry_follows_header sh_SR_NO) with (acc_h := None); auto;
        try discriminate; intros x Hx; header_bits Hx;
        destruct (sh_SR_NO x); (discriminate || reflexivity).
    + apply (carry_follows_header sh_TEAM_NAME) with (acc_h := None); auto;
        try discriminate; intros x Hx; header_bits Hx;
        destruct (sh_TEAM_NAME x); (discriminate || reflexivity).
    + apply (carry_follows_header sh_ORGANIZATION) with (acc_h := None); auto;
        try discriminate; intros x Hx; header_bits Hx;
        destruct (sh_ORGANIZATION x); (discriminate || reflexivity).
    + apply (carry_follows_header sh_COUNTRY) with (acc_h := None); auto;
        try discriminate; intros x Hx; header_bits Hx;
        destruct (sh_COUNTRY x); (discriminate || reflexivity).
  - intros name row. unfold clean, dropna_subset. rewrite in_map_iff. split.
    + intros (r & <- & Hr). apply filter_In in Hr. destruct Hr as [Hin Hm].
      exists r. repeat split; [exact Hin|]. destruct (sh_TEAM_MEMBER r); [discriminate|discriminate].
    + intros (r & Hin & Hm & ->). exists r. split; [reflexivity|].
      apply filter_In. split; [exact Hin|].
      destruct (sh_TEAM_MEMBER r); [reflexivity|contradiction].
Qed.

Lemma ffill_takes_nearest_value_above_witness :
  filled_from_team
    [sheet_row (Some 1%Z) (Some "Alpha") (Some "Ann") (Some "MIT") (Some "USA");
     sheet_row None None (Some "Al") None None;
     sheet_row (Some 2%Z) (Some "Beta") (Some "Bob") (Some "IIT") (Some "India")]
    1%nat.
Proof.
  refine (proj1 (proj2 (ffill_takes_nearest_value_above _)) _ 1%nat).
  repeat (constructor; [(left; reflexivity) || (right; reflexivity)|]).
  constructor.
Defined.

End LoaderFacts.

(** ** Aggregator *)

Section AggregatorFacts.
Import Notions.

Lemma in_insert {K : Type} (leb : K -> K -> bool) (k x : K) (l : list K) :
  In x (insert leb k l) <-> x = k \/ In x l.
Proof.
  induction l as [|y t IH]; cbn [insert].
  - simpl. intuition.
  - destruct (leb k y); simpl; [intuition|]. rewrite IH. intuition.
Qed.

Lemma in_sort {K : Type} (leb : K -> K -> bool) (x : K) (l : list K) :
  In x (sort leb l) <-> In x l.
Proof.
  induction l as [|y t IH]; cbn [sort]; [reflexivity|].
  rewrite in_insert, IH. simpl. intuition.
Qed.

Lemma NoDup_insert {K : Type} (leb : K -> K -> bool) (k : K) (l : list K) :
  ~ In k l -> NoDup l -> NoDup (insert leb k l).
Proof.
  induction l as [|y t IH]; cbn [insert]; intros Hk Hl.
  - constructor; [intros []|constructor].
  - destruct (leb k y); [now constructor|].
    inversion Hl as [|? ? Hy Ht]; subst. constructor.
    + rewrite in_insert. intros [->|H]; [|contradiction].
      apply Hk. now left.
    + apply IH; [|exact Ht]. intros H. apply Hk. now right.
Qed.

Lemma NoDup_sort {K : Type} (leb : K -> K -> bool) (l : list K) :
  NoDup l -> NoDup (sort leb l).
Proof.
  induction 1 as [|x l Hx Hl IH]; cbn [sort]; [constructor|].
  apply NoDup_insert; [|exact IH]. now rewrite in_sort.
Qed.

Lemma in_dropna {A : Type} (x : A) (col : list (option A)) :
  In x (dropna col) <-> In (Some x) col.
Proof.
  unfold dropna. rewrite in_flat_map. split.
  - intros ([y|] & Hin & Hx); simpl in Hx; [|contradiction].
    destruct Hx as [->|[]]. exact Hin.
  - intros H. exists (Some x). split; [exact H|now left].
Qed.

(** [nunique] is the size of the set of non-blank values. *)
Lemma nunique_set {A : Type} (dec : forall a b : A, {a = b} + {a <> b})
    (col : list (option A)) (l : list A) :
  NoDup l -> (forall x, In x l <-> In (Some x) col) ->
  nunique dec col = Z.of_nat (length l).
Proof.
  intros Hl Hiff. unfold nunique. f_equal. apply Nat.le_antisymm.
  - apply NoDup_incl_length; [apply NoDup_nodup|].
    intros x Hx. apply nodup_In, in_dropna in Hx. now apply Hiff.
  - apply NoDup_incl_length; [exact Hl|].
    intros x Hx. apply nodup_In, in_dropna. now apply Hiff.
Qed.

Lemma nunique_enumerates {R A : Type} (dec : forall a b : A, {a = b} + {a <> b})
    (selb : R -> bool) (sel : R -> Prop) (f : R -> option A)
    (df : list R) (l : list A) :
  (forall r, selb r = true <-> sel r) ->
  enumerates l sel f df ->
  nunique dec (map f (filter selb df)) = Z.of_nat (length l).
Proof.
  intros Hsel [Hnd Hl]. apply nunique_set; [exact Hnd|].
  intros x. rewrite Hl, in_map_iff. split.
  - intros (r & Hin & Hs & Hf). exists r. split; [exact Hf|].
    apply filter_In. split; [exact Hin|now apply Hsel].
  - intros (r & Hf & Hin). apply filter_In in Hin. destruct Hin as [Hin Hs].
    exists r. repeat split; [exact Hin|now apply Hsel|exact Hf].
Qed.

Lemma nunique_nonneg {A : Type} (dec : forall a b : A, {a = b} + {a <> b})
    (col : list (option A)) : (0 <= nunique dec col)%Z.
Proof. unfold nunique. apply Nat2Z.is_nonneg. Qed.

Lemma count_nonneg {A : Type} (col : list (option A)) : (0 <= count col)%Z.
Proof. unfold count. apply Nat2Z.is_nonneg. Qed.

Lemma country_is_spec (c : pystr) (r : Row cell) :
  country_is c r = true <-> COUNTRY r = Some c.
Proof.
  unfold country_is. destruct (COUNTRY r) as [c'|].
  - rewrite str_eqb_eq. split; congruence.
  - split; discriminate.
Qed.

Lemma in_group_spec (k : key2) (r : Row cell) :
  str_eqb (Competition r) (fst k) && country_is (snd k) r = true <->
  Competition r = fst k /\ COUNTRY r = Some (snd k).
Proof.
  rewrite andb_true_iff, str_eqb_eq, country_is_spec. reflexivity.
Qed.

Lemma in_keys_by_country (df : list (Row cell)) (c : pystr) :
  In c (keys_by_country df) <-> exists r, In r df /\ COUNTRY r = Some c.
Proof.
  unfold keys_by_country. rewrite in_sort, nodup_In, in_dropna, in_map_iff.
  split; intros (r & H1 & H2); exists r; auto.
Qed.

Lemma in_keys_by_competition_country (df : list (Row cell)) (k : key2) :
  In k (keys_by_competition_country df) <->
  exists r, In r df /\ Competition r = fst k /\ COUNTRY r = Some (snd k).
Proof.
  unfold keys_by_competition_country. rewrite in_sort, nodup_In, in_flat_map.
  split.
  - intros (r & Hin & Hk). exists r. split; [exact Hin|].
    destruct (COUNTRY r) as [c|] eqn:E; simpl in Hk; [|contradiction].
    destruct Hk as [<-|[]]. split; [reflexivity|exact E].
  - intros (r & Hin & Hc & Hk). exists r. split; [exact Hin|].
    unfold cell in *. cbv beta. rewrite Hk. left. destruct k; simpl in *. now subst.
Qed.

(** A row of a frame column counts the non-blank cells. *)
Lemma count_all_present {R A : Type} (f : R -> option A) (g : list R) :
  Forall (fun r => f r <> None) g -> count (map f g) = Z.of_nat (length g).
Proof.
  intros H. unfold count. f_equal. induction H as [|r g Hr Hg IH]; [reflexivity|].
  cbn [map dropna flat_map]. destruct (f r); [|contradiction].
  cbn [app length]. f_equal. exact IH.
Qed.

Lemma in_all_combined (df : list (Row cell)) (row : AggRow Z) :
  In row (all_combined df) <->
  In (a_COUNTRY row) (keys_by_country df) /\
  row = mkAgg All_Competitions (a_COUNTRY row)
          (nunique str_eq_dec (map (@TEAM_NAME cell) (group_by_country (a_COUNTRY row) df)))
          (count (map (@TEAM_MEMBER cell) (group_by_country (a_COUNTRY row) df)))
          (nunique str_eq_dec (map (@ORGANIZATION cell) (group_by_country (a_COUNTRY row) df)))
          (nunique str_eq_dec
             (map (fun r => Some (Competition r)) (group_by_country (a_COUNTRY row) df))).
Proof.
  unfold all_combined. rewrite in_map_iff. split.
  - intros (c & <- & Hc). cbn [a_COUNTRY]. auto.
  - intros (Hc & E). exists (a_COUNTRY row). auto.
Qed.

Lemma in_per_competition (df : list (Row cell)) (row : AggRow unit) :
  In row (per_competition df) <->
  let k := (a_Competition row, a_COUNTRY row) in
  In k (keys_by_competition_country df) /\
  row = mkAgg (fst k) (snd k)
          (nunique str_eq_dec (map (@TEAM_NAME cell) (group_by_competition_country k df)))
          (count (map (@TEAM_MEMBER cell) (group_by_competition_country k df)))
          (nunique str_eq_dec (map (@ORGANIZATION cell) (group_by_competition_country k df)))
          tt.
Proof.
  unfold per_competition. rewrite in_map_iff. split.
  - intros ([kc kk] & <- & Hc). cbn [a_COUNTRY a_Competition fst snd]. auto.
  - intros (Hc & E). exists (a_Competition row, a_COUNTRY row). auto.
Qed.

(** C1.  Every [All Competitions] row is computed from the records of its
    country in all competitions together: its team, organisation and
    competition counts are the sizes of the sets of team names,
    organisations and competition identifiers of those records, and its
    participant count is the number of those records.  There is one such
    row per country.  The rows are not sums of the per-competition rows: a
    team entered in two competitions is one team in the combined row. *)
Theorem all_combined_is_a_separate_pass (df : list (Row cell)) :
  (forall row, In row (all_combined df) ->
     let here := fun r : Row cell => COUNTRY r = Some (a_COUNTRY row) in
     a_Competition row = All_Competitions
     /\ (exists r, In r df /\ here r)
     /\ (forall teams, enumerates teams here (@TEAM_NAME cell) df ->
                       Teams row = Z.of_nat (length teams))
     /\ Participants row
        = count (map (@TEAM_MEMBER cell) (filter (country_is (a_COUNTRY row)) df))
     /\ (Forall (fun r : Row cell => TEAM_MEMBER r <> None) df ->
         Participants row
         = Z.of_nat (length (filter (country_is (a_COUNTRY row)) df)))
     /\ (forall orgs, enumerates orgs here (@ORGANIZATION cell) df ->
                      Organizations row = Z.of_nat (length orgs))
     /\ (forall comps,
           enumerates comps here (fun r => Some (Competition r)) df ->
           Participation row = Z.of_nat (length comps)))
  /\ (forall c, (exists r, In r df /\ COUNTRY r = Some c) ->
                exists row, In row (all_combined df) /\ a_COUNTRY row = c)
  /\ NoDup (map (@a_COUNTRY Z) (all_combined df))
  /\ (let both := [entry "T1" "m1" "O" "India" "IROS 2024";
                   entry "T1" "m1" "O" "India" "CDC 2024"] in
      map (@Teams unit) (per_competition both) = [1%Z; 1%Z]
      /\ map (@Teams Z) (all_combined both) = [1%Z]
      /\ map (@Participation Z) (all_combined both) = [2%Z]).
Proof.
  split; [|split; [|split]].
  - intros row Hrow here. apply in_all_combined in Hrow.
    destruct Hrow as [Hkey Erow]. apply in_keys_by_country in Hkey.
    split; [rewrite Erow; reflexivity|]. split; [exact Hkey|].
    assert (Hsel : forall r, country_is (a_COUNTRY row) r = true <-> here r)
      by (intros r; apply country_is_spec).
    split; [|split; [|split; [|split]]].
    + intros teams Ht. rewrite Erow. cbn [Teams].
      apply nunique_enumerates with (sel := here); assumption.
    + rewrite Erow at 1. reflexivity.
    + intros Hall. rewrite Erow at 1. cbn [Participants].
      apply count_all_present. unfold group_by_country.
      rewrite Forall_forall in *. intros r Hr. apply filter_In in Hr.
      apply Hall. tauto.
    + intros orgs Ho. rewrite Erow. cbn [Organizations].
      apply nunique_enumerates with (sel := here); assumption.
    + intros comps Hc. rewrite Erow. cbn [Participation].
      apply nunique_enumerates with (sel := here); assumption.
  - intros c Hc. apply in_keys_by_country in Hc.
    unfold all_combined. eexists. split; [apply in_map; exact Hc|reflexivity].
  - unfold all_combined. rewrite map_map. cbn [a_COUNTRY]. rewrite map_id.
    unfold keys_by_country. apply NoDup_sort, NoDup_nodup.
  - vm_compute. repeat split.
Qed.

Lemma all_combined_is_a_separate_pass_witness :
  Participation (mkAgg All_Competitions (lit "India") 1%Z 2%Z 1%Z 2%Z)
  = Z.of_nat (length [lit "IROS 2024"; lit "CDC 2024"]).
Proof.
  refine (proj2 (proj2 (proj2 (proj2 (proj2 (proj2
            (proj1 (all_combined_is_a_separate_pass
                      [entry "T1" "m1" "O" "India" "IROS 2024";
                       entry "T1" "m1" "O" "India" "CDC 2024"])
                   (mkAgg All_Competitions (lit "India") 1%Z 2%Z 1%Z 2%Z) _))))))
            [lit "IROS 2024"; lit "CDC 2024"] _).
  - vm_compute. left. reflexivity.
  - split.
    + repeat constructor; simpl; intros H;
        repeat (destruct H as [H|H]; [discriminate H|]); exact H.
    + intros x. split.
      * intros [<-|[<-|[]]];
          [exists (entry "T1" "m1" "O" "India" "IROS 2024")
          |exists (entry "T1" "m1" "O" "India" "CDC 2024")];
          vm_compute; tauto.
      * intros (r & [<-|[<-|[]]] & _ & E); injection E as <-; vm_compute; tauto.
Defined.

(** C8.  Every count of both aggregate tables is a non-negative integer.
    The distinct counts are sizes of sets: the team (organisation,
    competition) count of a row equals the length of any duplicate-free
    list of the team names (organisations, competitions) of the group's
    records.  Two records with one team name, country and competition are
    one team. *)
Theorem counts_are_nonnegative_set_sizes (df : list (Row cell)) :
  (forall row, In row (per_competition df) ->
     let here := fun r : Row cell =>
       Competition r = a_Competition row /\ COUNTRY r = Some (a_COUNTRY row) in
     (0 <= Teams row /\ 0 <= Participants row /\ 0 <= Organizations row)%Z
     /\ (forall teams, enumerates teams here (@TEAM_NAME cell) df ->
                       Teams row = Z.of_nat (length teams))
     /\ (forall orgs, enumerates orgs here (@ORGANIZATION cell) df ->
                      Organizations row = Z.of_nat (length orgs)))
  /\ (forall row, In row (all_combined df) ->
     let here := fun r : Row cell => COUNTRY r = Some (a_COUNTRY row) in
     (0 <= Teams row /\ 0 <= Participants row /\ 0 <= Organizations row
      /\ 0 <= Participation row)%Z
     /\ (forall teams, enumerates teams here (@TEAM_NAME cell) df ->
                       Teams row = Z.of_nat (length teams))
     /\ (forall orgs, enumerates orgs here (@ORGANIZATION cell) df ->
                      Organizations row = Z.of_nat (length orgs))
     /\ (forall comps,
           enumerates comps here (fun r => Some (Competition r)) df ->
           Participation row = Z.of_nat (length comps)))
  /\ (forall sr1 sr2 team m1 m2 o1 o2 c comp,
        map (@Teams unit)
            (per_competition [mkRow sr1 (Some team) m1 o1 (Some c) comp;
                              mkRow sr2 (Some team) m2 o2 (Some c) comp])
        = [1%Z]).
Proof.
  split; [|split].
  - intros row Hrow here. apply in_per_competition in Hrow. cbv zeta in Hrow.
    destruct Hrow as [Hkey Erow]. cbn [fst snd] in Erow.
    assert (Hsel : forall r,
               str_eqb (Competition r) (fst (a_Competition row, a_COUNTRY row))
               && country_is (snd (a_Competition row, a_COUNTRY row)) r = true
               <-> here r) by (intros r; apply in_group_spec).
    split; [|split].
    + rewrite Erow. cbn [Teams Participants Organizations].
      repeat split; (apply nunique_nonneg || apply count_nonneg).
    + intros teams Ht. rewrite Erow. cbn [Teams].
      apply nunique_enumerates with (sel := here); assumption.
    + intros orgs Ho. rewrite Erow. cbn [Organizations].
      apply nunique_enumerates with (sel := here); assumption.
  - intros row Hrow here. apply in_all_combined in Hrow.
    destruct Hrow as [Hkey Erow].
    assert (Hsel : forall r, country_is (a_COUNTRY row) r = true <-> here r)
      by (intros r; apply country_is_spec).
    split; [|split; [|split]].
    + rewrite Erow. cbn [Teams Participants Organizations Participation].
      repeat split; (apply nunique_nonneg || apply count_nonneg).
    + intros teams Ht. rewrite Erow. cbn [Teams].
      apply nunique_enumerates with (sel := here); assumption.
    + intros orgs Ho. rewrite Erow. cbn [Organizations].
      apply nunique_enumerates with (sel := here); assumption.
    + intros comps Hc. rewrite Erow. cbn [Participation].
      apply nunique_enumerates with (sel := here); assumption.
  - intros.
    assert (K : keys_by_competition_country
                  [mkRow sr1 (Some team) m1 o1 (Some c) comp;
                   mkRow sr2 (Some team) m2 o2 (Some c) comp] = [(comp, c)]).
    { unfold keys_by_competition_country.
      cbn [flat_map COUNTRY Competition app]. unfold nodup.
      destruct (in_dec key2_eq_dec (comp, c) [(comp, c)]) as [_|Hn];
        [|elim Hn; now left].
      destruct (in_dec key2_eq_dec (comp, c) []) as [[]|_]. reflexivity. }
    unfold per_competition. rewrite K. cbn [map Teams fst snd].
    unfold group_by_competition_country, country_is.
    cbn [filter Competition COUNTRY fst snd].
    rewrite !str_eqb_refl. cbn [andb map TEAM_NAME].
    f_equal. apply nunique_set with (l := [team]).
    + constructor; [intros []|constructor].
    + intros x. simpl. split.
      * intros [<-|[]]. now left.
      * intros [E|[E|[]]]; injection E as <-; now left.
Qed.

Lemma counts_are_nonnegative_set_sizes_witness :
  (0 <= Teams (mkAgg (lit "CDC 2024") (lit "India") 1%Z 2%Z 1%Z tt))%Z.
Proof.
  refine (proj1 (proj1 (proj1 (counts_are_nonnegative_set_sizes
            [entry "T1" "m1" "O" "India" "CDC 2024";
             entry "T1" "m2" "O" "India" "CDC 2024"])
          (mkAgg (lit "CDC 2024") (lit "India") 1%Z 2%Z 1%Z tt) _))).
  vm_compute. left. reflexivity.
Defined.

End AggregatorFacts.

(** ** Presentation layer *)

Section PresentationFacts.
Import Presentation Notions.

Lemma bind_step {A B : Type} (m : M A) (f : A -> M B) (st st' : Store) (a : A) :
  m st = (inr a, st') -> bind m f st = f a st'.
Proof. intros H. unfold bind. now rewrite H. Qed.

Lemma bind_raise {A B : Type} (m : M A) (f : A -> M B) (st st' : Store) (e : exn) :
  m st = (inl e, st') -> bind m f st = (inl e, st').
Proof. intros H. unfold bind. now rewrite H. Qed.

Lemma read_at (st : Store) (l : ref) (f : Frame) :
  nth_error st l = Some f -> read l st = (inr f, st).
Proof. intros H. unfold read. now rewrite H. Qed.

Lemma read_last (st : Store) (f : Frame) :
  read (length st) (st ++ [f]) = (inr f, st ++ [f]).
Proof.
  apply read_at. rewrite nth_error_app2, Nat.sub_diag by lia. reflexivity.
Qed.

Lemma update_last {A : Type} (xs : list A) (x y : A) :
  update (length xs) y (xs ++ [x]) = xs ++ [y].
Proof. induction xs as [|z t IH]; cbn; [reflexivity|now rewrite IH]. Qed.

Lemma write_last (st : Store) (f g : Frame) :
  write (length st) g (st ++ [f]) = (inr tt, st ++ [g]).
Proof.
  unfold write. rewrite length_app, update_last. cbn [length].
  destruct (Nat.ltb_spec (length st) (length st + 1)); [reflexivity|lia].
Qed.

Lemma select_mask {A : Type} (p : A -> bool) (xs : list A) :
  select (map p xs) xs = filter p xs.
Proof.
  unfold select. induction xs as [|x t IH]; [reflexivity|].
  cbn [map combine filter fst]. destruct (p x); cbn [map snd]; now rewrite IH.
Qed.

Lemma body_masked_frame (fr : Frame) (comp : pystr) :
  body (masked_frame fr comp) = rows_of comp (body fr).
Proof. unfold masked_frame, getitem_mask. cbn [body]. apply select_mask. Qed.

(** lines 128-131: the loop fills the blanks of [Participation] and
    leaves the rest of the copy as it is. *)
Lemma fillna_loop (st : Store) (f : Frame) :
  for_each numeric_cols
    (fun col =>
       f <- read (length st) ;;
       if existsb (str_eqb col) (columns f)
       then write (length st) (fillna_astype_int col f)
       else ret tt) (st ++ [f])
  = (inr tt,
     st ++ [mkFrame (map (with_Participation fillna_int) (body f)) (hover_text f)]).
Proof.
  unfold numeric_cols. cbn [for_each].
  assert (Hcol : forall g col, In col numeric_cols ->
                               existsb (str_eqb col) (columns g) = true).
  { intros g col Hin. unfold numeric_cols in Hin.
    repeat (destruct Hin as [<-|Hin]; [reflexivity|]). destruct Hin. }
  assert (Hid : forall g : Frame, mkFrame (body g) (hover_text g) = g)
    by (intros []; reflexivity).
  do 4 (erewrite bind_step;
        [|erewrite bind_step by apply read_last;
          rewrite Hcol by (vm_compute; tauto); apply write_last]).
  reflexivity.
Qed.

Lemma valid_metrics_cases (comp : pystr) :
  (comp = All_Competitions /\
   valid_metrics_for comp =
     [lit "Teams"; lit "Participants"; lit "Organizations"; lit "Participation"])
  \/ (comp <> All_Competitions /\
      valid_metrics_for comp = [lit "Teams"; lit "Participants"; lit "Organizations"]).
Proof.
  unfold valid_metrics_for. destruct (str_eqb comp All_Competitions) eqn:E.
  - left. apply str_eqb_eq in E. split; [exact E|reflexivity].
  - right. apply str_eqb_neq in E. split; [exact E|reflexivity].
Qed.

Lemma existsb_str_eqb (x : pystr) (l : list pystr) :
  existsb (str_eqb x) l = true <-> In x l.
Proof.
  rewrite existsb_exists. split.
  - intros (y & Hy & E). apply str_eqb_eq in E. now subst.
  - intros H. exists x. split; [exact H|apply str_eqb_refl].
Qed.

Lemma resolve_metric_valid (comp metric : pystr) :
  In (resolve_metric comp metric) (valid_metrics_for comp).
Proof.
  unfold resolve_metric.
  destruct (existsb (str_eqb metric) (valid_metrics_for comp)) eqn:E.
  - now apply existsb_str_eqb.
  - destruct (valid_metrics_cases comp) as [[_ ->]|[_ ->]]; now left.
Qed.

Lemma valid_metric_is_numeric (comp m : pystr) :
  In m (valid_metrics_for comp) -> In m numeric_cols.
Proof.
  destruct (valid_metrics_cases comp) as [[_ ->]|[_ ->]]; unfold numeric_cols;
    simpl; tauto.
Qed.

(** lines 141-142 neither read nor write a frame. *)
Lemma resolve_step (comp metric : pystr) (st : Store) :
  (if negb (existsb (str_eqb metric) (valid_metrics_for comp))
   then match valid_metrics_for comp with
        | m :: _ => ret m
        | [] => raise IndexError
        end
   else ret metric) st
  = (inr (resolve_metric comp metric), st).
Proof.
  unfold resolve_metric.
  destruct (existsb (str_eqb metric) (valid_metrics_for comp)); cbn [negb];
    [reflexivity|].
  destruct (valid_metrics_cases comp) as [[_ ->]|[_ ->]]; reflexivity.
Qed.

(** line 145 *)
Lemma options_step (comp : pystr) (st : Store) :
  mapM (fun m => l <- dict_getitem metric_labels m ;; ret (mkOption l m))
       (valid_metrics_for comp) st
  = (inr (options_for comp), st).
Proof.
  unfold options_for.
  destruct (valid_metrics_cases comp) as [[_ ->]|[_ ->]]; reflexivity.
Qed.

Lemma label_step (m : pystr) (st : Store) :
  In m numeric_cols ->
  dict_getitem metric_labels m st = (inr (label_of m), st).
Proof.
  unfold numeric_cols. intros H.
  repeat (destruct H as [<-|H]; [reflexivity|]). destruct H.
Qed.

(** line 171: the column of the selected metric in the filled copy. *)
Lemma column_step (m : pystr) (rows : list (AggRow (option Z)))
    (h : option (list pystr)) (st : Store) :
  In m numeric_cols ->
  getitem_num m (mkFrame (map (with_Participation fillna_int) rows) h) st
  = (inr (map (metric_value m) rows), st).
Proof.
  intros H. unfold getitem_num. cbn [body]. rewrite !map_map.
  destruct (str_eqb m (lit "Teams")) eqn:E1;
    [|destruct (str_eqb m (lit "Participants")) eqn:E2;
      [|destruct (str_eqb m (lit "Organizations")) eqn:E3;
        [|destruct (str_eqb m (lit "Participation")) eqn:E4]]].
  1-4: unfold ret; f_equal; f_equal; apply map_ext; intros [c k t p o [z|]];
    unfold metric_value; rewrite ?E1, ?E2, ?E3, ?E4; reflexivity.
  apply str_eqb_neq in E1, E2, E3, E4. unfold numeric_cols in H. simpl in H.
  intuition congruence.
Qed.

(** The callback on a store whose object [map_data] is [fr]: it creates
    two frames, changes no other, and returns or raises [outcome]. *)
Lemma update_map_run (st : Store) (map_data : ref) (fr : Frame)
    (comp metric : pystr) :
  nth_error st map_data = Some fr ->
  update_map map_data comp metric st
  = (outcome (body fr) comp metric,
     (st ++ [masked_frame fr comp]) ++ [subset_frame fr comp]).
Proof.
  intros Hfr. unfold update_map.
  erewrite bind_step by (apply read_at; exact Hfr). cbv zeta.
  erewrite bind_step by reflexivity.
  erewrite bind_step by apply read_last.
  erewrite bind_step by reflexivity.
  fold (masked_frame fr comp).
  erewrite bind_step by apply fillna_loop.
  erewrite bind_step by apply resolve_step.
  erewrite bind_step by apply options_step.
  erewrite bind_step by apply read_last.
  cbn [body]. rewrite body_masked_frame.
  erewrite bind_step by apply write_last.
  fold (subset_frame fr comp).
  erewrite bind_step by apply read_last.
  pose proof (valid_metric_is_numeric comp _ (resolve_metric_valid comp metric)) as Hnum.
  unfold subset_frame at 1.
  erewrite bind_step by (apply column_step; exact Hnum).
  unfold outcome. cbv zeta.
  destruct (max_skipna (map (metric_value (resolve_metric comp metric))
                            (rows_of comp (body fr)))) as [mx|] eqn:Emax.
  - erewrite bind_step by reflexivity.
    unfold subset_frame at 1. cbn [hover_text].
    erewrite bind_step by reflexivity.
    erewrite bind_step by (apply label_step; exact Hnum).
    reflexivity.
  - erewrite bind_raise by reflexivity. reflexivity.
Qed.

(** A dangling [map_data] raises before anything is created. *)
Lemma update_map_dangling (st : Store) (map_data : ref) (comp metric : pystr) :
  nth_error st map_data = None ->
  update_map map_data comp metric st = (inl NameError, st).
Proof.
  intros H. unfold update_map. apply bind_raise. unfold read. now rewrite H.
Qed.

Lemma fold_max_spec (l : list Z) (x : Z) :
  let mx := fold_left Z.max l x in
  (mx = x \/ In mx l) /\ (x <= mx)%Z /\ (forall v, In v l -> (v <= mx)%Z).
Proof.
  revert x. induction l as [|y t IH]; intros x; cbn [fold_left].
  - cbv zeta. split; [now left|]. split; [lia|intros v []].
  - specialize (IH (Z.max x y)). cbv zeta in *.
    destruct IH as (Hin & Hle & Hall). split; [|split].
    + destruct Hin as [E|Hin]; [|right; now right].
      destruct (Z.max_spec x y) as [[_ E']|[_ E']]; rewrite E' in *;
        [right; left; now symmetry|now left].
    + lia.
    + intros v [<-|Hv]; [lia|now apply Hall].
Qed.

(** [max()] of a column is its largest non-blank value. *)
Lemma max_skipna_spec (col : list (option Z)) (mx : Z) :
  max_skipna col = Some mx <->
  In (Some mx) col /\ (forall v, In (Some v) col -> (v <= mx)%Z).
Proof.
  unfold max_skipna, series_max. setoid_rewrite <- in_dropna.
  destruct (dropna col) as [|x t].
  - split; [discriminate|intros [[] _]].
  - pose proof (fold_max_spec t x) as H. cbv zeta in H.
    destruct H as (Hin & Hle & Hall). split.
    + intros E. injection E as <-. split.
      * destruct Hin as [->|Hin]; [now left|now right].
      * intros v [<-|Hv]; [exact Hle|now apply Hall].
    + intros [Hmx Hub]. f_equal. apply Z.le_antisymm.
      * destruct Hin as [->|Hin]; apply Hub; [now left|now right].
      * destruct Hmx as [<-|Hmx]; [exact Hle|now apply Hall].
Qed.

Lemma max_skipna_none (col : list (option Z)) :
  max_skipna col = None <-> forall v, ~ In (Some v) col.
Proof.
  unfold max_skipna, series_max. setoid_rewrite <- in_dropna.
  destruct (dropna col) as [|x t].
  - split; [intros _ v []|reflexivity].
  - split; [discriminate|]. intros H. elim (H x). now left.
Qed.

Lemma metric_value_numeric (m : pystr) (row : AggRow (option Z)) :
  In m numeric_cols -> exists v, metric_value m row = Some v.
Proof.
  unfold numeric_cols. intros H.
  repeat (destruct H as [<-|H]; [eexists; reflexivity|]). destruct H.
Qed.

Lemma map_value_options (comp : pystr) :
  map value (options_for comp) = valid_metrics_for comp.
Proof.
  unfold options_for. rewrite map_map. cbn [value]. apply map_id.
Qed.

(** What a returned triple is. *)
Lemma outcome_returns (table : list (AggRow (option Z))) (comp metric : pystr)
    (opts : list MetricOption) (m : pystr) (fig : Figure) :
  outcome table comp metric = inr (opts, m, fig) ->
  opts = options_for comp /\ m = resolve_metric comp metric /\
  fig_color fig = m /\ fig_colorbar_title fig = label_of m /\
  fig_color_values fig = map (metric_value m) (rows_of comp table) /\
  exists mx,
    max_skipna (map (metric_value m) (rows_of comp table)) = Some mx /\
    fig_dtick fig = if (mx <=? 20)%Z then 1%Z else Z.max 1 (round_div mx 6).
Proof.
  unfold outcome. cbv zeta.
  destruct (max_skipna _) as [mx|] eqn:E; [|discriminate].
  intros H. injection H as <- <- <-. cbn [fig_color fig_colorbar_title
    fig_color_values fig_dtick]. repeat split. exists mx. split; [exact E|reflexivity].
Qed.

(** The callback returns whenever the selected competition has rows. *)
Lemma outcome_total (table : list (AggRow (option Z))) (comp metric : pystr) :
  rows_of comp table <> [] ->
  exists fig, outcome table comp metric
              = inr (options_for comp, resolve_metric comp metric, fig).
Proof.
  intros Hrows. unfold outcome. cbv zeta.
  destruct (max_skipna _) as [mx|] eqn:E; [eexists; reflexivity|].
  exfalso. destruct (rows_of comp table) as [|r t]; [now apply Hrows|].
  destruct (metric_value_numeric r
              (valid_metric_is_numeric comp _ (resolve_metric_valid comp metric)))
    as [v Hv].
  rewrite max_skipna_none in E. apply (E v). cbn [map]. rewrite Hv. now left.
Qed.

Lemma outcome_empty (table : list (AggRow (option Z))) (comp metric : pystr) :
  rows_of comp table = [] -> outcome table comp metric = inl ValueError.
Proof. intros H. unfold outcome. rewrite H. reflexivity. Qed.

(** Without a row of the selected competition line 172 raises. *)
Lemma update_map_raises_on_empty (st : Store) (map_data : ref) (fr : Frame)
    (comp metric : pystr) :
  nth_error st map_data = Some fr ->
  rows_of comp (body fr) = [] ->
  fst (update_map map_data comp metric st) = inl ValueError.
Proof.
  intros Hfr Hrows. rewrite (update_map_run st map_data comp metric Hfr).
  cbn [fst]. now apply outcome_empty.
Qed.

Lemma round_div_nearest (n : Z) :
  (Z.abs (6 * round_div n 6 - n) <= 3)%Z /\
  (Z.abs (6 * round_div n 6 - n) = 3 -> Z.even (round_div n 6) = true)%Z.
Proof.
  unfold round_div.
  pose proof (Z.div_mod n 6 ltac:(lia)) as Hdm.
  pose proof (Z.mod_pos_bound n 6 ltac:(lia)) as Hb.
  destruct (Z.ltb_spec (2 * (n mod 6)) 6); [split; lia|].
  destruct (Z.ltb_spec 6 (2 * (n mod 6))); [split; lia|].
  destruct (Z.even (n / 6)) eqn:Ev; split; try lia; intros _.
  - exact Ev.
  - rewrite Z.even_add, Ev. reflexivity.
Qed.

(** The store after a run: the old objects, then new ones. *)
Lemma update_map_extends (st : Store) (map_data : ref) (comp metric : pystr) :
  exists ext, snd (update_map map_data comp metric st) = st ++ ext.
Proof.
  destruct (nth_error st map_data) as [fr|] eqn:E.
  - rewrite (update_map_run st map_data comp metric E). cbn [snd].
    rewrite <- app_assoc. eexists. reflexivity.
  - rewrite (update_map_dangling st map_data comp metric E). cbn [snd].
    exists []. now rewrite app_nil_r.
Qed.

Lemma serve_extends (interactions : list (pystr * pystr)) :
  forall st, exists ext, serve interactions st = st ++ ext.
Proof.
  induction interactions as [|[comp metric] rest IH]; intros st; cbn [serve].
  - exists []. now rewrite app_nil_r.
  - destruct (update_map_extends st map_data_ref comp metric) as [ext1 ->].
    destruct (IH (st ++ ext1)) as [ext2 ->].
    exists (ext1 ++ ext2). now rewrite app_assoc.
Qed.

Lemma firstn_extension {A : Type} (xs ext : list A) :
  firstn (length xs) (xs ++ ext) = xs.
Proof.
  rewrite firstn_app, Nat.sub_diag, firstn_all. cbn [firstn]. apply app_nil_r.
Qed.

(** C2.  The valid metric set of a competition selection holds the
    competition count exactly when the selection is [All Competitions];
    team, participant and organisation counts are always valid and the
    team count comes first.  When the competition has rows the callback
    returns: its options are the valid set, the selected metric is kept
    when it is valid and is otherwise reset to the team count. *)
Theorem invalid_metric_resets_to_teams (comp metric : pystr) :
  ((In (lit "Participation") (valid_metrics_for comp) <-> comp = All_Competitions)
   /\ (forall m, In m [lit "Teams"; lit "Participants"; lit "Organizations"] ->
                 In m (valid_metrics_for comp))
   /\ (forall m, In m (valid_metrics_for comp) -> In m (keys metric_labels))
   /\ hd_error (valid_metrics_for comp) = Some (lit "Teams"))
  /\ (forall st map_data fr,
        nth_error st map_data = Some fr ->
        rows_of comp (body fr) <> [] ->
        exists opts m fig,
          fst (update_map map_data comp metric st) = inr (opts, m, fig)
          /\ map value opts = valid_metrics_for comp
          /\ (In metric (valid_metrics_for comp) -> m = metric)
          /\ (~ In metric (valid_metrics_for comp) -> m = lit "Teams"))
  /\ (forall st map_data opts m fig,
        fst (update_map map_data comp metric st) = inr (opts, m, fig) ->
        map value opts = valid_metrics_for comp
        /\ (In metric (valid_metrics_for comp) -> m = metric)
        /\ (~ In metric (valid_metrics_for comp) -> m = lit "Teams")).
Proof.
  assert (Hres : (In metric (valid_metrics_for comp) ->
                  resolve_metric comp metric = metric)
                 /\ (~ In metric (valid_metrics_for comp) ->
                     resolve_metric comp metric = lit "Teams")).
  { unfold resolve_metric.
    destruct (existsb (str_eqb metric) (valid_metrics_for comp)) eqn:E.
    - apply existsb_str_eqb in E. split; [reflexivity|contradiction].
    - split.
      + intros H. apply existsb_str_eqb in H. congruence.
      + intros _. destruct (valid_metrics_cases comp) as [[_ ->]|[_ ->]]; reflexivity. }
  split; [|split].
  - destruct (valid_metrics_cases comp) as [[Hc ->]|[Hc ->]].
    + split; [split; [intros _; exact Hc|intros _; simpl; tauto]|].
      split; [intros m Hm; simpl in *; tauto|].
      split; [intros m Hm; exact Hm|reflexivity].
    + split.
      { split; [|intros H; contradiction].
        intros H. exfalso. simpl in H.
        repeat (destruct H as [H|H]; [vm_compute in H; discriminate H|]).
        exact H. }
      split; [intros m Hm; exact Hm|].
      split; [intros m Hm; unfold keys, metric_labels; simpl in *; tauto|reflexivity].
  - intros st md fr Hfr Hrows.
    destruct (outcome_total (body fr) comp metric Hrows) as [fig Hout].
    exists (options_for comp), (resolve_metric comp metric), fig.
    rewrite (update_map_run st md comp metric Hfr). cbn [fst].
    split; [exact Hout|]. split; [apply map_value_options|exact Hres].
  - intros st md opts m fig Hret.
    destruct (nth_error st md) as [fr|] eqn:Hfr.
    + rewrite (update_map_run st md comp metric Hfr) in Hret. cbn [fst] in Hret.
      apply outcome_returns in Hret. destruct Hret as (-> & -> & _).
      split; [apply map_value_options|exact Hres].
    + rewrite (update_map_dangling st md comp metric Hfr) in Hret. discriminate Hret.
Qed.

(** C3.  With [mx] the largest value of the metric the callback goes on
    with over the rows of the selected competition, the callback returns a
    figure whose tick interval is 1 when [mx <= 20] and otherwise [mx / 6]
    rounded to the nearest integer, and at least 1.  A largest value of 15
    gives 1, of 42 gives 7, of 3 gives 1. *)
Theorem tick_interval_rule (st : Store) (map_data : ref) (fr : Frame)
    (comp metric : pystr) (mx : Z)
    (Hfr : nth_error st map_data = Some fr)
    (Hmax : is_max (resolve_metric comp metric) (rows_of comp (body fr)) mx) :
  (exists opts fig,
      fst (update_map map_data comp metric st)
      = inr (opts, resolve_metric comp metric, fig)
      /\ fig_dtick fig = (if (mx <=? 20)%Z then 1 else Z.max 1 (round_div mx 6))%Z)
  /\ (forall n, (Z.abs (6 * round_div n 6 - n) <= 3)%Z)
  /\ ((if (15 <=? 20)%Z then 1 else Z.max 1 (round_div 15 6)) = 1
      /\ (if (42 <=? 20)%Z then 1 else Z.max 1 (round_div 42 6)) = 7
      /\ (if (3 <=? 20)%Z then 1 else Z.max 1 (round_div 3 6)) = 1)%Z.
Proof.
  split; [|split; [intros n; apply round_div_nearest|repeat split]].
  rewrite (update_map_run st map_data comp metric Hfr). cbn [fst].
  destruct Hmax as [(row & Hrow & Hval) Hub].
  assert (Hrows : rows_of comp (body fr) <> []).
  { intros E. rewrite E in Hrow. exact Hrow. }
  destruct (outcome_total (body fr) comp metric Hrows) as [fig Hout].
  exists (options_for comp), fig. split; [exact Hout|].
  apply outcome_returns in Hout.
  destruct Hout as (_ & _ & _ & _ & _ & mx' & Hmx' & Hd).
  rewrite Hd. apply max_skipna_spec in Hmx'. destruct Hmx' as [Hin Hle].
  assert (mx' = mx) as ->; [|reflexivity].
  apply Z.le_antisymm.
  - apply in_map_iff in Hin. destruct Hin as (r & Hr & Hin). eapply Hub; eassumption.
  - apply Hle. rewrite <- Hval. now apply in_map.
Qed.

(** C9.  A run of the callback changes no object that existed before it:
    afterwards the store is the old store followed by the two frames the
    run created, the masked view of the table and its copy.  So after any
    sequence of interactions the table built at start-up is what it was. *)
Theorem callback_leaves_table_unchanged (interactions : list (pystr * pystr)) :
  (forall st map_data comp metric,
      firstn (length st) (snd (update_map map_data comp metric st)) = st)
  /\ (forall st map_data fr comp metric,
        nth_error st map_data = Some fr ->
        exists view subset,
          snd (update_map map_data comp metric st) = st ++ [view; subset]
          /\ body view = rows_of comp (body fr)
          /\ nth_error (snd (update_map map_data comp metric st)) map_data = Some fr)
  /\ (forall st, firstn (length st) (serve interactions st) = st)
  /\ (forall book st0,
        startup book = Some st0 ->
        exists all_data,
          Loader.all_data book = Some all_data
          /\ nth_error (serve interactions st0) map_data_ref
             = Some (mkFrame (map_data (Normalizer.df_split all_data)) None)).
Proof.
  split; [|split; [|split]].
  - intros st md comp metric.
    destruct (update_map_extends st md comp metric) as [ext ->].
    apply firstn_extension.
  - intros st md fr comp metric Hfr.
    rewrite (update_map_run st md comp metric Hfr). cbn [snd].
    exists (masked_frame fr comp), (subset_frame fr comp).
    split; [now rewrite <- app_assoc|]. split; [apply body_masked_frame|].
    rewrite <- app_assoc, nth_error_app1; [exact Hfr|].
    apply nth_error_Some. congruence.
  - intros st. destruct (serve_extends interactions st) as [ext ->].
    apply firstn_extension.
  - intros book st0 Hst. unfold startup in Hst.
    destruct (Loader.all_data book) as [all_data|]; [|discriminate].
    injection Hst as <-. exists all_data. split; [reflexivity|].
    destruct (serve_extends interactions
                [mkFrame (map_data (Normalizer.df_split all_data)) None]) as [ext ->].
    reflexivity.
Qed.

(** C10.  Whatever the two selections, a returned selected metric is the
    value of one of the returned options, the figure is coloured by that
    metric and its colour bar carries that option's label; and the callback
    does return whenever the selected competition has rows. *)
Theorem returned_metric_is_among_options (st : Store) (map_data : ref)
    (comp metric : pystr) :
  match fst (update_map map_data comp metric st) with
  | inr (opts, m, fig) =>
      In m (map value opts)
      /\ fig_color fig = m
      /\ In (mkOption (fig_colorbar_title fig) m) opts
  | inl _ => True
  end
  /\ (forall fr, nth_error st map_data = Some fr ->
                 rows_of comp (body fr) <> [] ->
                 exists res, fst (update_map map_data comp metric st) = inr res).
Proof.
  split.
  - destruct (fst (update_map map_data comp metric st)) as [e|[[opts m] fig]] eqn:Hret;
      [exact I|].
    destruct (nth_error st map_data) as [fr|] eqn:Hfr.
    + rewrite (update_map_run st map_data comp metric Hfr) in Hret. cbn [fst] in Hret.
      apply outcome_returns in Hret.
      destruct Hret as (-> & -> & Hc & Ht & _).
      pose proof (resolve_metric_valid comp metric) as Hv.
      split; [now rewrite map_value_options|]. split; [exact Hc|].
      rewrite Ht. unfold options_for.
      apply (in_map (fun m => mkOption (label_of m) m)). exact Hv.
    + rewrite (update_map_dangling st map_data comp metric Hfr) in Hret.
      discriminate Hret.
  - intros fr Hfr Hrows.
    rewrite (update_map_run st map_data comp metric Hfr). cbn [fst].
    destruct (outcome_total (body fr) comp metric Hrows) as [fig Hout].
    eexists. exact Hout.
Qed.

Lemma invalid_metric_resets_to_teams_witness :
  exists opts m fig,
    fst (update_map 0 (lit "CDC 2024") (lit "Participation")
           [mkFrame example_table None]) = inr (opts, m, fig)
    /\ map value opts = valid_metrics_for (lit "CDC 2024")
    /\ (In (lit "Participation") (valid_metrics_for (lit "CDC 2024")) ->
        m = lit "Participation")
    /\ (~ In (lit "Participation") (valid_metrics_for (lit "CDC 2024")) ->
        m = lit "Teams").
Proof.
  refine (proj1 (proj2 (invalid_metric_resets_to_teams
                          (lit "CDC 2024") (lit "Participation")))
                [mkFrame example_table None] 0%nat (mkFrame example_table None)
                eq_refl _).
  vm_compute. discriminate.
Defined.

Lemma tick_interval_rule_witness :
  exists opts fig,
    fst (update_map 0 All_Competitions (lit "Teams") [mkFrame example_table None])
    = inr (opts, resolve_metric All_Competitions (lit "Teams"), fig)
    /\ fig_dtick fig = 7%Z.
Proof.
  refine (proj1 (tick_interval_rule [mkFrame example_table None] 0
                   All_Competitions (lit "Teams") (mx := 42%Z) eq_refl _)).
  split.
  - exists (mkAgg All_Competitions (lit "India") 42%Z 90%Z 30%Z (Some 4%Z)).
    split; [vm_compute; tauto|reflexivity].
  - intros row v Hin Hv. vm_compute in Hin.
    destruct Hin as [<-|[<-|[]]]; vm_compute in Hv; injection Hv as <-; lia.
Defined.

Lemma callback_leaves_table_unchanged_witness :
  exists all_data,
    Loader.all_data example_book = Some all_data
    /\ nth_error
         (serve [(All_Competitions, lit "Teams"); (lit "CDC 2024", lit "Participation")]
                example_store)
         map_data_ref
       = Some (mkFrame (map_data (Normalizer.df_split all_data)) None).
Proof.
  refine (proj2 (proj2 (proj2 (callback_leaves_table_unchanged
            [(All_Competitions, lit "Teams"); (lit "CDC 2024", lit "Participation")])))
          example_book example_store _).
  reflexivity.
Defined.

Lemma returned_metric_is_among_options_witness :
  exists res,
    fst (update_map 0 (lit "CDC 2024") (lit "Participation")
           [mkFrame example_table None]) = inr res.
Proof.
  refine (proj2 (returned_metric_is_among_options
                   [mkFrame example_table None] 0
                   (lit "CDC 2024") (lit "Participation"))
                (mkFrame example_table None) eq_refl _).
  vm_compute. discriminate.
Defined.

End PresentationFacts.

(* ================================================================== *)
(** * Further properties *)
(* ================================================================== *)

(** ** Record loader *)

Section LoaderMore.
Import Loader Notions Further.

Lemma load_all_none (book : Workbook) (names : list pystr) :
  load_all book names = None <->
  exists c, In c names /\ load_competition book c = None.
Proof.
  induction names as [|c rest IH]; cbn [load_all].
  - split; [discriminate|intros (c & [] & _)].
  - destruct (load_competition book c) as [sheet|] eqn:E.
    + destruct (load_all book rest) as [dfs|].
      * split; [discriminate|]. intros (c' & [<-|Hin] & Hc'); [congruence|].
        assert (H : @None (list (Row cell)) = None) by reflexivity.
        destruct IH as [_ IH]. discriminate IH. now exists c'.
      * split; [|reflexivity]. intros _.
        destruct IH as [IH _]. destruct (IH eq_refl) as (c' & Hin & Hc').
        exists c'. split; [now right|exact Hc'].
    + split; [|reflexivity]. intros _. exists c. split; [now left|exact E].
Qed.

(** X1.  Loading fails exactly when one of the four competitions has no
    sheet in the workbook or a sheet that does not read as five columns
    (line 15 raises [ValueError] then); a sheet that reads as a frame
    without columns, as an empty sheet does, is such a sheet.  When loading
    succeeds every sheet has five columns and the loaded table is the cleaned
    sheets one after the other, in the order of [competition_order]. *)
Theorem all_data_needs_every_sheet (book : Workbook) :
  (all_data book = None <->
   exists c, In c competition_order
             /\ (read_excel book c = None
                 \/ exists f, read_excel book c = Some f /\ sf_width f <> 5%nat))
  /\ (forall c, In c competition_order ->
                read_excel book c = Some (mkSheetFrame 0 []) ->
                all_data book = None)
  /\ (forall df, all_data book = Some df ->
        exists f1 f2 f3 f4,
          read_excel book (lit "IROS 2024") = Some f1
          /\ read_excel book (lit "CDC 2024") = Some f2
          /\ read_excel book (lit "ICRA 2025") = Some f3
          /\ read_excel book (lit "CDC-TF 2025") = Some f4
          /\ (sf_width f1 = 5 /\ sf_width f2 = 5
              /\ sf_width f3 = 5 /\ sf_width f4 = 5)%nat
          /\ df = clean (lit "IROS 2024") (sf_rows f1)
                  ++ clean (lit "CDC 2024") (sf_rows f2)
                  ++ clean (lit "ICRA 2025") (sf_rows f3)
                  ++ clean (lit "CDC-TF 2025") (sf_rows f4)).
Proof.
  assert (Hnone : all_data book = None <->
            exists c, In c competition_order
              /\ (read_excel book c = None
                  \/ exists f, read_excel book c = Some f /\ sf_width f <> 5%nat)).
  { unfold all_data. rewrite load_all_none.
    split; intros (c & Hin & Hc); exists c; (split; [exact Hin|]);
      now apply load_competition_none. }
  split; [exact Hnone|]. split.
  { intros c Hin Hc. apply Hnone. exists c. split; [exact Hin|].
    right. eexists. split; [exact Hc|]. discriminate. }
  intros df. unfold all_data, competition_order. cbn [load_all].
  destruct (load_competition book (lit "IROS 2024")) as [d1|] eqn:E1; [|discriminate].
  destruct (load_competition book (lit "CDC 2024")) as [d2|] eqn:E2; [|discriminate].
  destruct (load_competition book (lit "ICRA 2025")) as [d3|] eqn:E3; [|discriminate].
  destruct (load_competition book (lit "CDC-TF 2025")) as [d4|] eqn:E4; [|discriminate].
  apply load_competition_some in E1, E2, E3, E4.
  destruct E1 as (f1 & R1 & W1 & ->). destruct E2 as (f2 & R2 & W2 & ->).
  destruct E3 as (f3 & R3 & W3 & ->). destruct E4 as (f4 & R4 & W4 & ->).
  intros H. injection H as <-. exists f1, f2, f3, f4.
  rewrite app_nil_r. repeat split; assumption.
Qed.

Lemma all_data_needs_every_sheet_witness :
  all_data
    [(lit "IROS 2024",
      sheet_of [sheet_row (Some 1%Z) (Some "Alpha"%string) (Some "Ann"%string)
                          (Some "MIT"%string) (Some "USA"%string)]);
     (lit "CDC 2024",
      sheet_of [sheet_row (Some 1%Z) (Some "Beta"%string) (Some "Bob"%string)
                          (Some "IIT"%string) (Some "India"%string)]);
     (lit "ICRA 2025", sheet_of []);
     (lit "CDC-TF 2025",
      sheet_of [sheet_row (Some 1%Z) (Some "Gamma"%string) (Some "Gus"%string)
                          (Some "Aalto"%string) (Some "Finland"%string)])]
  = None.
Proof.
  refine (proj1 (proj2 (all_data_needs_every_sheet _)) (lit "ICRA 2025") _ _).
  - right; right; left; reflexivity.
  - reflexivity.
Defined.

Lemma ffill_from_cons (l1 : option Z) (l2 l3 l4 : cell) (r : SheetRow)
    (t : list SheetRow) :
  ffill_from l1 l2 l3 l4 (r :: t)
  = mkSheetRow (carry sh_SR_NO l1 r) (carry sh_TEAM_NAME l2 r) (sh_TEAM_MEMBER r)
               (carry sh_ORGANIZATION l3 r) (carry sh_COUNTRY l4 r)
    :: ffill_from (carry sh_SR_NO l1 r) (carry sh_TEAM_NAME l2 r)
                  (carry sh_ORGANIZATION l3 r) (carry sh_COUNTRY l4 r) t.
Proof. reflexivity. Qed.

Lemma carry_again {A : Type} (get : SheetRow -> option A) (last : option A)
    (r r' : SheetRow) :
  get r' = carry get last r -> carry get last r' = carry get last r.
Proof.
  intros H. unfold carry at 1. rewrite H. unfold carry.
  destruct (get r); [reflexivity|now destruct last].
Qed.

Lemma ffill_from_idempotent (sheet : list SheetRow) :
  forall l1 l2 l3 l4,
    ffill_from l1 l2 l3 l4 (ffill_from l1 l2 l3 l4 sheet)
    = ffill_from l1 l2 l3 l4 sheet.
Proof.
  induction sheet as [|r t IH]; intros l1 l2 l3 l4; [reflexivity|].
  rewrite (ffill_from_cons l1 l2 l3 l4 r t), ffill_from_cons.
  cbn [sh_TEAM_MEMBER].
  rewrite !(@carry_again _ sh_SR_NO _ r) by reflexivity.
  rewrite !(@carry_again _ sh_TEAM_NAME _ r) by reflexivity.
  rewrite !(@carry_again _ sh_ORGANIZATION _ r) by reflexivity.
  rewrite !(@carry_again _ sh_COUNTRY _ r) by reflexivity.
  rewrite IH. reflexivity.
Qed.

Lemma ffill_from_members (sheet : list SheetRow) :
  forall l1 l2 l3 l4,
    map sh_TEAM_MEMBER (ffill_from l1 l2 l3 l4 sheet) = map sh_TEAM_MEMBER sheet.
Proof.
  induction sheet as [|r t IH]; intros l1 l2 l3 l4; [reflexivity|].
  rewrite ffill_from_cons. cbn [map sh_TEAM_MEMBER]. now rewrite IH.
Qed.

Lemma firstn_snoc {A : Type} (l : list A) :
  forall i x, nth_error l i = Some x -> firstn (S i) l = firstn i l ++ [x].
Proof.
  induction l as [|y t IH]; intros [|i] x H; try discriminate.
  - injection H as <-. reflexivity.
  - cbn [nth_error] in H. rewrite firstn_cons, (IH _ _ H). reflexivity.
Qed.

Lemma last_seen_present {A : Type} (get : SheetRow -> option A)
    (sheet : list SheetRow) (i : nat) (r : SheetRow) :
  nth_error sheet i = Some r -> get r <> None ->
  last_seen get (firstn (S i) sheet) = get r.
Proof.
  intros Hr Hg. unfold last_seen. rewrite (firstn_snoc _ _ Hr), fold_left_app.
  cbn [fold_left]. unfold carry. destruct (get r); [reflexivity|contradiction].
Qed.

Lemma carry_stays {A : Type} (get : SheetRow -> option A) (rows : list SheetRow) :
  forall acc, acc <> None -> fold_left (carry get) rows acc <> None.
Proof.
  induction rows as [|r t IH]; intros acc Hacc; [exact Hacc|].
  cbn [fold_left]. apply IH. unfold carry. destruct (get r); [discriminate|exact Hacc].
Qed.

Lemma firstn_le_app {A : Type} (l : list A) :
  forall i j, (i <= j)%nat -> exists ext, firstn j l = firstn i l ++ ext.
Proof.
  induction l as [|x t IH]; intros i j Hij.
  - exists []. now rewrite !firstn_nil.
  - destruct i as [|i].
    + exists (firstn j (x :: t)). reflexivity.
    + destruct j as [|j]; [lia|].
      destruct (IH i j ltac:(lia)) as [ext E].
      exists ext. cbn [firstn app]. now rewrite E.
Qed.

Lemma last_seen_stays {A : Type} (get : SheetRow -> option A)
    (sheet : list SheetRow) (i j : nat) :
  (i <= j)%nat ->
  last_seen get (firstn (S i) sheet) <> None ->
  last_seen get (firstn (S j) sheet) <> None.
Proof.
  intros Hij H. unfold last_seen in *.
  destruct (@firstn_le_app _ sheet (S i) (S j) ltac:(lia)) as [ext ->].
  rewrite fold_left_app. now apply carry_stays.
Qed.

(** X2.  Line 16 changes no cell that holds a value and no member name;
    below a cell that holds a value after filling, no cell of that column is
    blank; and filling a filled sheet again changes nothing. *)
Theorem ffill_only_fills_blanks (sheet : list SheetRow) :
  (forall i r r',
      nth_error sheet i = Some r ->
      nth_error (ffill_team_columns sheet) i = Some r' ->
      sh_TEAM_MEMBER r' = sh_TEAM_MEMBER r
      /\ (sh_SR_NO r <> None -> sh_SR_NO r' = sh_SR_NO r)
      /\ (sh_TEAM_NAME r <> None -> sh_TEAM_NAME r' = sh_TEAM_NAME r)
      /\ (sh_ORGANIZATION r <> None -> sh_ORGANIZATION r' = sh_ORGANIZATION r)
      /\ (sh_COUNTRY r <> None -> sh_COUNTRY r' = sh_COUNTRY r))
  /\ (forall i j r r',
        (i <= j)%nat ->
        nth_error (ffill_team_columns sheet) i = Some r ->
        nth_error (ffill_team_columns sheet) j = Some r' ->
        (sh_SR_NO r <> None -> sh_SR_NO r' <> None)
        /\ (sh_TEAM_NAME r <> None -> sh_TEAM_NAME r' <> None)
        /\ (sh_ORGANIZATION r <> None -> sh_ORGANIZATION r' <> None)
        /\ (sh_COUNTRY r <> None -> sh_COUNTRY r' <> None))
  /\ ffill_team_columns (ffill_team_columns sheet) = ffill_team_columns sheet
  /\ length (ffill_team_columns sheet) = length sheet.
Proof.
  split; [|split; [|split]].
  - intros i r r' Hr Hr'.
    rewrite (ffill_team_columns_nth sheet i Hr) in Hr'. injection Hr' as <-.
    cbn [sh_TEAM_MEMBER sh_SR_NO sh_TEAM_NAME sh_ORGANIZATION sh_COUNTRY].
    split; [reflexivity|].
    repeat split; intros Hg; now apply last_seen_present.
  - intros i j r r' Hij Hr Hr'.
    assert (Hsome : forall k x, nth_error (ffill_team_columns sheet) k = Some x ->
                                exists y, nth_error sheet k = Some y).
    { intros k x Hk. destruct (nth_error sheet k) as [y|] eqn:E; [now exists y|].
      apply nth_error_None in E.
      assert (nth_error (ffill_team_columns sheet) k = None) as Hn
        by (apply nth_error_None; now rewrite ffill_team_columns_length).
      congruence. }
    destruct (Hsome _ _ Hr) as [y Hy]. destruct (Hsome _ _ Hr') as [y' Hy'].
    rewrite (ffill_team_columns_nth sheet i Hy) in Hr. injection Hr as <-.
    rewrite (ffill_team_columns_nth sheet j Hy') in Hr'. injection Hr' as <-.
    cbn [sh_SR_NO sh_TEAM_NAME sh_ORGANIZATION sh_COUNTRY].
    repeat split; apply last_seen_stays; exact Hij.
  - apply (ffill_from_idempotent sheet None None None None).
  - apply ffill_team_columns_length.
Qed.

Lemma ffill_only_fills_blanks_witness :
  sh_TEAM_MEMBER (sheet_row (Some 1%Z) (Some "Alpha"%string) (Some "Ann"%string)
                            (Some "MIT"%string) (Some "USA"%string))
  = sh_TEAM_MEMBER (sheet_row (Some 1%Z) (Some "Alpha"%string) (Some "Ann"%string)
                              (Some "MIT"%string) None).
Proof.
  refine (proj1 (proj1 (ffill_only_fills_blanks
            [sheet_row (Some 1%Z) (Some "Alpha"%string) (Some "Al"%string)
                       (Some "MIT"%string) (Some "USA"%string);
             sheet_row (Some 1%Z) (Some "Alpha"%string) (Some "Ann"%string)
                       (Some "MIT"%string) None])
          1%nat _ _ eq_refl eq_refl)).
Defined.

Lemma map_filter_comm {A B : Type} (f : A -> B) (p : B -> bool) (l : list A) :
  map f (filter (fun x => p (f x)) l) = filter p (map f l).
Proof.
  induction l as [|x t IH]; [reflexivity|].
  cbn [filter map]. destruct (p (f x)); cbn [map]; now rewrite IH.
Qed.

(** X3.  The loaded rows of a sheet are its rows with a member name, in
    the sheet's order and with the member names as they were: the member
    column of the loaded table is the sheet's member column without its
    blanks, and every loaded row carries the sheet's name. *)
Theorem clean_keeps_member_rows (name : pystr) (sheet : list SheetRow) :
  map (@TEAM_MEMBER cell) (clean name sheet)
  = filter notna (map sh_TEAM_MEMBER sheet)
  /\ length (clean name sheet)
     = length (filter (fun r => notna (sh_TEAM_MEMBER r)) sheet)
  /\ Forall (fun r : Row cell => Competition r = name) (clean name sheet).
Proof.
  assert (E : map (@TEAM_MEMBER cell) (clean name sheet)
              = filter notna (map sh_TEAM_MEMBER sheet)).
  { unfold clean, dropna_subset. rewrite map_map. cbn [tag TEAM_MEMBER].
    rewrite (map_filter_comm sh_TEAM_MEMBER notna).
    change (ffill_team_columns sheet) with (ffill_from None None None None sheet).
    now rewrite (ffill_from_members sheet None None None None). }
  split; [exact E|]. split.
  - rewrite <- (length_map (@TEAM_MEMBER cell)), E.
    rewrite <- (map_filter_comm sh_TEAM_MEMBER notna). now rewrite length_map.
  - unfold clean. rewrite Forall_forall. intros r Hr.
    apply in_map_iff in Hr. destruct Hr as (x & <- & _). reflexivity.
Qed.

End LoaderMore.

(** ** Country normaliser *)

Section NormalizerMore.
Import Re Normalizer Notions Further.

Lemma star_total (a : atom) (rest : pystr -> option pystr) :
  (forall t, rest t <> None) -> forall s, star a rest s <> None.
Proof.
  intros Hrest. induction s as [|c s IH]; cbn [star]; [apply Hrest|].
  destruct (atom_ok a c); [|apply Hrest].
  destruct (star a rest s); [discriminate|apply Hrest].
Qed.

(** [&] and [/] are separators wherever they stand. *)
Lemma amp_is_matched (t : pystr) : match_alt separator (chr "&" :: t) <> None.
Proof.
  unfold separator. cbn [match_alt match_items].
  change (star WS (one (Chr (chr "&")) (star WS (fun s => Some s))) (chr "&" :: t))
    with (star WS (fun s : pystr => Some s) t).
  destruct (star WS (fun s : pystr => Some s) t) eqn:E; [discriminate|].
  exfalso. revert E. apply star_total. discriminate.
Qed.

Lemma slash_is_matched (t : pystr) : match_alt separator (chr "/" :: t) <> None.
Proof.
  unfold separator. cbn [match_alt match_items].
  change (star WS (one (Chr (chr "&")) (star WS (fun s => Some s))) (chr "/" :: t))
    with (@None pystr).
  change (star WS (one (Chr (chr "/")) (star WS (fun s => Some s))) (chr "/" :: t))
    with (star WS (fun s : pystr => Some s) t).
  destruct (star WS (fun s : pystr => Some s) t) eqn:E; [discriminate|].
  exfalso. revert E. apply star_total. discriminate.
Qed.

(** What line 40 lets through: the replacement, and characters of the
    text that are neither [&] nor [/]. *)
Lemma sub_from_chars (repl : pystr) (s : pystr) :
  forall skip x,
    In x (sub_from separator repl skip s) ->
    In x repl \/ (In x s /\ x <> chr "&" /\ x <> chr "/").
Proof.
  induction s as [|c t IH]; intros skip x Hx; cbn [sub_from] in Hx; [destruct Hx|].
  assert (Hrec : forall k, In x (sub_from separator repl k t) ->
                           In x repl \/ (In x (c :: t) /\ x <> chr "&" /\ x <> chr "/")).
  { intros k Hk. destruct (IH k x Hk) as [H|(H1 & H2)]; [now left|].
    right. split; [now right|exact H2]. }
  destruct skip as [|k]; [|now apply (Hrec k)].
  destruct (match_alt separator (c :: t)) as [r|] eqn:E.
  - pose proof E as Hlt. apply separator_consumes in Hlt.
    destruct (Nat.ltb_spec (length r) (length (c :: t))) as [_|Hge]; [|lia].
    apply in_app_or in Hx. destruct Hx as [Hx|Hx]; [now left|eapply Hrec; exact Hx].
  - destruct Hx as [<-|Hx]; [|eapply Hrec; exact Hx].
    right. split; [now left|]. split; intros ->.
    + now apply (amp_is_matched t).
    + now apply (slash_is_matched t).
Qed.

Lemma split_tokens (sep : N) (s : pystr) :
  forall tok, In tok (split sep s) ->
              ~ In sep tok /\ (forall x, In x tok -> In x s).
Proof.
  induction s as [|c t IH]; intros tok Htok; cbn [split] in Htok.
  - destruct Htok as [<-|[]]. split; [intros []|intros x []].
  - destruct (N.eqb_spec c sep) as [->|Hne].
    + destruct Htok as [<-|Htok]; [split; [intros []|intros x []]|].
      destruct (IH tok Htok) as [H1 H2]. split; [exact H1|].
      intros x Hx. right. now apply H2.
    + destruct (split sep t) as [|h r] eqn:E.
      * destruct Htok as [<-|[]]. split.
        -- intros [H|[]]. now apply Hne.
        -- intros x [<-|[]]. now left.
      * destruct Htok as [<-|Htok].
        -- destruct (IH h (or_introl eq_refl)) as [H1 H2]. split.
           ++ intros [H|H]; [now apply Hne|now apply H1].
           ++ intros x [<-|Hx]; [now left|right; now apply H2].
        -- destruct (IH tok (or_intror Htok)) as [H1 H2]. split; [exact H1|].
           intros x Hx. right. now apply H2.
Qed.

Lemma lstrip_incl (s : pystr) : forall x, In x (lstrip s) -> In x s.
Proof.
  induction s as [|c t IH]; intros x Hx; cbn [lstrip] in Hx; [exact Hx|].
  destruct (isspace c); [right; now apply IH|exact Hx].
Qed.

Lemma strip_incl (s : pystr) : forall x, In x (strip s) -> In x s.
Proof.
  intros x Hx. unfold strip, rstrip in Hx.
  apply in_rev, lstrip_incl, in_rev in Hx. now apply lstrip_incl.
Qed.

Lemma lstrip_again (s : pystr) : lstrip (lstrip s) = lstrip s.
Proof.
  induction s as [|c t IH]; [reflexivity|]. cbn [lstrip].
  destruct (isspace c) eqn:E; [exact IH|]. cbn [lstrip]. now rewrite E.
Qed.

Lemma lstrip_snoc (w : pystr) (c : N) :
  isspace c = false -> lstrip (w ++ [c]) = lstrip w ++ [c].
Proof.
  intros Hc. induction w as [|x w IH]; cbn [app lstrip].
  - now rewrite Hc.
  - destruct (isspace x); [exact IH|reflexivity].
Qed.

(** Trimming the right end keeps the left end trimmed. *)
Lemma lstrip_rstrip (u : pystr) : lstrip u = u -> lstrip (rstrip u) = rstrip u.
Proof.
  intros Hu. destruct u as [|c t]; [reflexivity|].
  destruct (isspace c) eqn:E.
  - exfalso. cbn [lstrip] in Hu. rewrite E in Hu.
    assert (Hlen : forall v, (length (lstrip v) <= length v)%nat).
    { induction v as [|y v IHv]; cbn [lstrip]; [lia|].
      destruct (isspace y); cbn [length]; lia. }
    pose proof (Hlen t) as H. rewrite Hu in H. cbn [length] in H. lia.
  - unfold rstrip. cbn [rev]. rewrite (@lstrip_snoc (rev t) c E), rev_app_distr.
    cbn [rev app lstrip]. now rewrite E.
Qed.

Lemma strip_again (s : pystr) : strip (strip s) = strip s.
Proof.
  unfold strip.
  rewrite (@lstrip_rstrip (lstrip s) (lstrip_again s)).
  unfold rstrip. now rewrite rev_involutive, lstrip_again.
Qed.

Lemma tidyb_tidy (c : pystr) : tidyb c = true -> tidy c.
Proof.
  unfold tidyb, tidy. rewrite !andb_true_iff, !negb_true_iff, str_eqb_eq.
  intros [[[H1 H2] H3] H4].
  assert (Hin : forall ch, existsb (N.eqb ch) c = false -> ~ In ch c).
  { intros ch Hf Hc. assert (existsb (N.eqb ch) c = true) as Ht; [|congruence].
    apply existsb_exists. exists ch. split; [exact Hc|apply N.eqb_refl]. }
  repeat split; auto.
Qed.

Lemma dict_get_in {V : Type} (d : dict V) (k : pystr) (v : V) :
  dict_get d k = Some v -> In (k, v) d.
Proof.
  induction d as [|[k' v'] d IH]; cbn [dict_get]; [discriminate|].
  destruct (str_eqb k k') eqn:E.
  - apply str_eqb_eq in E. intros H; injection H as <-. subst. now left.
  - intros H. right. now apply IH.
Qed.

(** The canonical names of the alias table are tidy. *)
Lemma alias_values_tidy (k v : pystr) : In (k, v) country_alias_map -> tidy v.
Proof.
  intros H. apply tidyb_tidy. unfold country_alias_map in H.
  repeat (destruct H as [H|H]; [injection H as <- <-; vm_compute; reflexivity|]).
  destruct H.
Qed.

(** Where an output record comes from. *)
Lemma df_split_origin (all_data : list (Row cell)) (r' : Row cell) :
  In r' (df_split all_data) <->
  exists r, In r all_data /\ In r' (normalized r).
Proof. rewrite df_split_flat_map. apply in_flat_map. Qed.

Lemma explode_cell_not_nil (c : option (list pystr)) : explode_cell c <> [].
Proof. destruct c as [[|x l]|]; discriminate. Qed.

Lemma normalized_not_nil (r : Row cell) : normalized r <> [].
Proof.
  unfold normalized. intros H. apply map_eq_nil in H.
  now apply explode_cell_not_nil in H.
Qed.

Lemma normalized_other_fields (r r' : Row cell) :
  In r' (normalized r) -> other_fields r' = other_fields r.
Proof.
  unfold normalized. intros H. apply in_map_iff in H.
  destruct H as (tok & <- & _). reflexivity.
Qed.

Lemma flat_map_length_ge {A B : Type} (f : A -> list B) (l : list A) :
  (forall x, f x <> []) -> (length l <= length (flat_map f l))%nat.
Proof.
  intros Hf. induction l as [|x t IH]; [reflexivity|].
  cbn [flat_map]. rewrite length_app. specialize (Hf x).
  destruct (f x); [contradiction|]. cbn [length]. lia.
Qed.

(** X4.  The normaliser loses no record and invents none: every input
    record gives at least one output record, every output record is an input
    record with another country, and a record with a blank country comes
    out as it is. *)
Theorem df_split_keeps_every_record (all_data : list (Row cell)) :
  (length all_data <= length (df_split all_data))%nat
  /\ (forall r, In r all_data ->
        exists r', In r' (df_split all_data) /\ other_fields r' = other_fields r)
  /\ (forall r', In r' (df_split all_data) ->
        exists r, In r all_data /\ other_fields r' = other_fields r)
  /\ (forall r, In r all_data -> COUNTRY r = None -> In r (df_split all_data))
  /\ map (@other_fields cell) (df_split all_data)
     = flat_map (fun r => repeat (other_fields r) (length (normalized r))) all_data.
Proof.
  split; [|split; [|split; [|split]]].
  - rewrite df_split_flat_map. apply flat_map_length_ge, normalized_not_nil.
  - intros r Hr. pose proof (normalized_not_nil r) as Hne.
    destruct (normalized r) as [|r' rest] eqn:E; [contradiction|].
    exists r'. split.
    + apply df_split_origin. exists r. split; [exact Hr|]. rewrite E. now left.
    + apply normalized_other_fields. rewrite E. now left.
  - intros r' Hr'. apply df_split_origin in Hr'. destruct Hr' as (r & Hr & Hin).
    exists r. split; [exact Hr|now apply normalized_other_fields].
  - intros r Hr Hc. apply df_split_origin. exists r. split; [exact Hr|].
    unfold normalized. rewrite Hc. cbn. left.
    destruct r as [sr tn tm org c comp]. cbn in Hc. subst c. reflexivity.
  - rewrite df_split_flat_map. induction all_data as [|r t IH]; [reflexivity|].
    cbn [flat_map]. rewrite map_app, IH. f_equal.
    unfold normalized. rewrite map_map, length_map.
    induction (explode_cell _) as [|tok toks IHt]; [reflexivity|].
    cbn [map length repeat]. now rewrite IHt.
Qed.

Lemma df_split_keeps_every_record_witness :
  exists r', In r' (df_split [entry "T" "m" "O" "USA & Canada" "CDC 2024"])
             /\ other_fields r' = other_fields (entry "T" "m" "O" "USA & Canada" "CDC 2024").
Proof.
  refine (proj1 (proj2 (df_split_keeps_every_record
                          [entry "T" "m" "O" "USA & Canada" "CDC 2024"])) _ _).
  left. reflexivity.
Defined.

(** X5.  A country that comes out of the normaliser holds no comma, no
    [&] and no [/], and has no whitespace at either end. *)
Theorem normalized_country_is_tidy (all_data : list (Row cell)) (r : Row cell)
    (c : pystr)
    (Hr : In r (df_split all_data)) (Hc : COUNTRY r = Some c) :
  tidy c.
Proof.
  apply df_split_origin in Hr. destruct Hr as (r0 & _ & Hr).
  unfold normalized in Hr. apply in_map_iff in Hr.
  destruct Hr as (tok & <- & Htok). cbn [with_COUNTRY COUNTRY] in Hc.
  destruct (COUNTRY r0) as [s|]; cbn [str_accessor option_map explode_cell] in Htok.
  2:{ destruct Htok as [<-|[]]. discriminate Hc. }
  pose proof (split_not_nil (chr ",") (Re.sub separator (lit ",") s)) as Hne.
  destruct (split (chr ",") (Re.sub separator (lit ",") s)) as [|t0 ts] eqn:E;
    [contradiction|].
  rewrite <- E in Htok.
  assert (Htok' : exists t, tok = Some t /\
                            In t (split (chr ",") (Re.sub separator (lit ",") s))).
  { rewrite E in Htok |- *. cbn [explode_cell] in Htok.
    apply in_map_iff in Htok. destruct Htok as (t & <- & Ht). now exists t. }
  destruct Htok' as (t & -> & Ht). cbn [str_accessor option_map replace] in Hc.
  destruct (dict_get country_alias_map (strip t)) as [v|] eqn:Ev.
  - injection Hc as <-. apply dict_get_in in Ev. eapply alias_values_tidy; exact Ev.
  - injection Hc as <-. apply split_tokens in Ht. destruct Ht as [Hcomma Hchars].
    assert (Hsub : forall x, In x (strip t) ->
                             x = chr "," \/ (x <> chr "&" /\ x <> chr "/")).
    { intros x Hx. apply strip_incl, Hchars in Hx. unfold Re.sub in Hx.
      apply sub_from_chars in Hx. destruct Hx as [[<-|[]]|(_ & H)]; [now left|now right]. }
    unfold tidy. split; [|split; [|split]].
    + intros H. apply Hcomma. now apply strip_incl.
    + intros H. destruct (Hsub _ H) as [H'|[H' _]]; [discriminate H'|now apply H'].
    + intros H. destruct (Hsub _ H) as [H'|[_ H']]; [discriminate H'|now apply H'].
    + apply strip_again.
Qed.

Lemma normalized_country_is_tidy_witness : tidy (lit "Canada").
Proof.
  refine (normalized_country_is_tidy
            [entry "T" "m" "O" "USA  /  Canada " "CDC 2024"]
            (entry "T" "m" "O" "Canada" "CDC 2024") _ eq_refl).
  vm_compute. right. left. reflexivity.
Defined.

End NormalizerMore.

(** ** Aggregator *)

Section AggregatorMore.
Import Loader Normalizer Notions Further.

Lemma str_ltb_asym (a : pystr) : forall b, str_ltb a b = true -> str_ltb b a = false.
Proof.
  induction a as [|x a IH]; intros [|y b] H; cbn [str_ltb] in *; try reflexivity;
    try discriminate.
  destruct (N.ltb_spec x y) as [Hxy|Hxy].
  - destruct (N.ltb_spec y x); [lia|reflexivity].
  - destruct (N.ltb_spec y x) as [Hyx|Hyx]; [discriminate|].
    now apply IH.
Qed.

Lemma str_leb_total (a b : pystr) : str_leb a b = true \/ str_leb b a = true.
Proof.
  unfold str_leb. destruct (str_ltb a b) eqn:E.
  - left. now rewrite (str_ltb_asym _ _ E).
  - now right.
Qed.

Lemma key2_leb_total (a b : key2) : key2_leb a b = true \/ key2_leb b a = true.
Proof.
  unfold key2_leb. destruct (str_ltb (fst a) (fst b)) eqn:E1; [now left|].
  destruct (str_ltb (fst b) (fst a)) eqn:E2; [now right|].
  apply str_leb_total.
Qed.

Lemma insert_sorted {K : Type} (leb : K -> K -> bool) :
  (forall a b, leb a b = true \/ leb b a = true) ->
  forall k l, Sorted (fun a b => leb a b = true) l ->
              Sorted (fun a b => leb a b = true) (insert leb k l).
Proof.
  intros Htot k l Hl. induction Hl as [|x t Ht IH Hhd]; cbn [insert].
  - repeat constructor.
  - destruct (leb k x) eqn:E.
    + constructor; [now constructor|now constructor].
    + constructor; [exact IH|].
      assert (Hxk : leb x k = true) by (destruct (Htot k x); congruence).
      destruct t as [|y t]; cbn [insert]; [now constructor|].
      destruct (leb k y); constructor; [exact Hxk|now inversion Hhd].
Qed.

Lemma sort_sorted {K : Type} (leb : K -> K -> bool) :
  (forall a b, leb a b = true \/ leb b a = true) ->
  forall l, Sorted (fun a b => leb a b = true) (sort leb l).
Proof.
  intros Htot. induction l as [|x t IH]; cbn [sort]; [constructor|].
  now apply insert_sorted.
Qed.

Lemma per_competition_keys (df : list (Row cell)) :
  map (@agg_key unit) (per_competition df) = keys_by_competition_country df.
Proof.
  unfold per_competition. rewrite map_map. unfold agg_key.
  cbn [a_Competition a_COUNTRY]. rewrite <- (map_id (keys_by_competition_country df)) at 2.
  apply map_ext. now intros [a b].
Qed.

Lemma all_combined_countries (df : list (Row cell)) :
  map (@a_COUNTRY Z) (all_combined df) = keys_by_country df.
Proof.
  unfold all_combined. rewrite map_map. cbn [a_COUNTRY]. apply map_id.
Qed.

(** X6.  Each aggregate table has one row per group and lists its groups
    in ascending order: no two per-competition rows share competition and
    country, no two combined rows share a country, and the rows are sorted by
    (competition, country), respectively by country, in code-point order. *)
Theorem aggregate_rows_unique_and_sorted (df : list (Row cell)) :
  NoDup (map (@agg_key unit) (per_competition df))
  /\ Sorted (fun a b => key2_leb a b = true) (map (@agg_key unit) (per_competition df))
  /\ NoDup (map (@a_COUNTRY Z) (all_combined df))
  /\ Sorted (fun a b => str_leb a b = true) (map (@a_COUNTRY Z) (all_combined df))
  /\ (forall r c, In r df -> COUNTRY r = Some c ->
        In (Competition r, c) (map (@agg_key unit) (per_competition df))
        /\ In c (map (@a_COUNTRY Z) (all_combined df))).
Proof.
  rewrite per_competition_keys, all_combined_countries.
  unfold keys_by_competition_country, keys_by_country.
  split; [apply NoDup_sort, NoDup_nodup|].
  split; [apply sort_sorted, key2_leb_total|].
  split; [apply NoDup_sort, NoDup_nodup|].
  split; [apply sort_sorted, str_leb_total|].
  intros r c Hr Hc. split.
  - apply (in_keys_by_competition_country df (Competition r, c)).
    exists r. auto.
  - apply in_keys_by_country. exists r. auto.
Qed.

Lemma aggregate_rows_unique_and_sorted_witness :
  In (lit "CDC 2024", lit "India")
     (map (@agg_key unit) (per_competition [entry "T" "m" "O" "India" "CDC 2024"]))
  /\ In (lit "India")
        (map (@a_COUNTRY Z) (all_combined [entry "T" "m" "O" "India" "CDC 2024"])).
Proof.
  refine (proj2 (proj2 (proj2 (proj2 (aggregate_rows_unique_and_sorted
            [entry "T" "m" "O" "India" "CDC 2024"]))))
          (entry "T" "m" "O" "India" "CDC 2024") (lit "India") _ eq_refl).
  left. reflexivity.
Defined.

Lemma rows_of_app (comp : pystr) (a b : list (AggRow (option Z))) :
  rows_of comp (a ++ b) = rows_of comp a ++ rows_of comp b.
Proof. unfold rows_of. apply filter_app. Qed.

Lemma filter_all {A : Type} (p : A -> bool) (l : list A) :
  (forall x, In x l -> p x = true) -> filter p l = l.
Proof.
  induction l as [|x t IH]; intros H; [reflexivity|]. cbn [filter].
  rewrite (H x (or_introl eq_refl)), IH; [reflexivity|].
  intros y Hy. apply H. now right.
Qed.

Lemma filter_none {A : Type} (p : A -> bool) (l : list A) :
  (forall x, In x l -> p x = false) -> filter p l = [].
Proof.
  induction l as [|x t IH]; intros H; [reflexivity|]. cbn [filter].
  rewrite (H x (or_introl eq_refl)), IH; [reflexivity|].
  intros y Hy. apply H. now right.
Qed.

Lemma per_competition_real (df : list (Row cell)) (row : AggRow unit) :
  In row (per_competition df) ->
  exists r c, In r df /\ Competition r = a_Competition row /\ COUNTRY r = Some c
              /\ a_COUNTRY row = c.
Proof.
  intros H. apply in_per_competition in H. cbv zeta in H. destruct H as [Hk _].
  apply in_keys_by_competition_country in Hk. destruct Hk as (r & Hr & Hc & Hk).
  exists r, (a_COUNTRY row). cbn [fst snd] in *. auto.
Qed.

(** The view of [All Competitions], and the view of a competition. *)
Lemma rows_of_all (df : list (Row cell)) :
  Forall (fun r : Row cell => Competition r <> All_Competitions) df ->
  rows_of All_Competitions (map_data df)
  = map (with_Participation (@Some Z)) (all_combined df).
Proof.
  intros Hreal. unfold map_data. rewrite rows_of_app.
  unfold rows_of at 1. rewrite filter_none.
  - cbn [app]. unfold rows_of. apply filter_all.
    intros x Hx. apply in_map_iff in Hx. destruct Hx as (row & <- & Hrow).
    apply in_all_combined in Hrow. destruct Hrow as [_ ->]. apply str_eqb_refl.
  - intros x Hx. apply in_map_iff in Hx. destruct Hx as (row & <- & Hrow).
    apply per_competition_real in Hrow. destruct Hrow as (r & c & Hr & Hc & _).
    cbn [with_Participation a_Competition]. apply str_eqb_neq. rewrite <- Hc.
    rewrite Forall_forall in Hreal. now apply Hreal.
Qed.

Lemma rows_of_competition (df : list (Row cell)) (comp : pystr) :
  comp <> All_Competitions ->
  rows_of comp (map_data df)
  = map (with_Participation (fun _ => @None Z))
        (filter (fun row => str_eqb (a_Competition row) comp) (per_competition df)).
Proof.
  intros Hcomp. unfold map_data. rewrite rows_of_app.
  replace (rows_of comp (map (with_Participation (@Some Z)) (all_combined df)))
    with (@nil (AggRow (option Z))).
  - rewrite app_nil_r. unfold rows_of. rewrite filter_map_swap. reflexivity.
  - symmetry. apply filter_none.
    intros x Hx. apply in_map_iff in Hx. destruct Hx as (row & <- & Hrow).
    apply in_all_combined in Hrow. destruct Hrow as [_ ->].
    cbn [with_Participation a_Competition]. apply str_eqb_neq. congruence.
Qed.

Lemma NoDup_map_filter_snd (comp : pystr) (ks : list key2) :
  NoDup ks ->
  NoDup (map snd (filter (fun k => str_eqb (fst k) comp) ks)).
Proof.
  induction 1 as [|[a b] t Hx Ht IH]; cbn [filter fst]; [constructor|].
  destruct (str_eqb a comp) eqn:E; [|exact IH].
  cbn [map snd]. constructor; [|exact IH].
  intros Hb. apply in_map_iff in Hb. destruct Hb as ([a' b'] & Hb' & Hin).
  apply filter_In in Hin. destruct Hin as [Hin Ha']. cbn [fst snd] in *.
  apply str_eqb_eq in E, Ha'. subst. now apply Hx.
Qed.

(** In every view each country has one row. *)
Lemma view_countries_unique (df : list (Row cell)) (comp : pystr) :
  Forall (fun r : Row cell => Competition r <> All_Competitions) df ->
  NoDup (map (@a_COUNTRY _) (rows_of comp (map_data df))).
Proof.
  intros Hreal. destruct (str_eq_dec comp All_Competitions) as [->|Hne].
  - rewrite (rows_of_all Hreal), map_map. cbn [with_Participation a_COUNTRY].
    change (NoDup (map (@a_COUNTRY Z) (all_combined df))).
    rewrite all_combined_countries. apply NoDup_sort, NoDup_nodup.
  - rewrite (rows_of_competition df Hne), map_map.
    cbn [with_Participation a_COUNTRY].
    replace (map (fun x : AggRow unit => a_COUNTRY x)
                 (filter (fun row => str_eqb (a_Competition row) comp)
                         (per_competition df)))
      with (map snd (filter (fun k : key2 => str_eqb (fst k) comp)
                            (map (@agg_key unit) (per_competition df)))).
    + apply NoDup_map_filter_snd. rewrite per_competition_keys.
      apply NoDup_sort, NoDup_nodup.
    + rewrite filter_map_swap, map_map. reflexivity.
Qed.

(** X7.  When no competition is called [All Competitions], the view of
    [All Competitions] is exactly the combined rows and the view of a
    competition exactly its per-competition rows, with a blank
    [Participation]; in every view each country has one row. *)
Theorem views_do_not_mix (df : list (Row cell))
    (Hreal : Forall (fun r : Row cell => Competition r <> All_Competitions) df) :
  rows_of All_Competitions (map_data df)
  = map (with_Participation (@Some Z)) (all_combined df)
  /\ (forall comp, comp <> All_Competitions ->
        rows_of comp (map_data df)
        = map (with_Participation (fun _ => @None Z))
              (filter (fun row => str_eqb (a_Competition row) comp)
                      (per_competition df)))
  /\ (forall comp, NoDup (map (@a_COUNTRY _) (rows_of comp (map_data df)))).
Proof.
  split; [now apply rows_of_all|]. split; [intros comp; apply rows_of_competition|].
  intros comp. now apply view_countries_unique.
Qed.

Lemma views_do_not_mix_witness :
  NoDup (map (@a_COUNTRY _)
             (rows_of (lit "CDC 2024")
                      (map_data [entry "T" "m" "O" "India" "CDC 2024";
                                 entry "U" "n" "O" "India" "IROS 2024"]))).
Proof.
  refine (proj2 (proj2 (views_do_not_mix
            (df := [entry "T" "m" "O" "India" "CDC 2024";
                    entry "U" "n" "O" "India" "IROS 2024"]) _)) (lit "CDC 2024")).
  repeat constructor; vm_compute; discriminate.
Defined.

Lemma fold_add_shift (l : list Z) : forall a, fold_left Z.add l a = (a + sum l)%Z.
Proof.
  unfold sum. induction l as [|x t IH]; intros a; cbn [fold_left]; [lia|].
  rewrite (IH (a + x)%Z), (IH (0 + x)%Z). lia.
Qed.

Lemma sum_cons (x : Z) (l : list Z) : sum (x :: l) = (x + sum l)%Z.
Proof. unfold sum at 1. cbn [fold_left]. rewrite fold_add_shift. lia. Qed.

Lemma sum_map_add {A : Type} (f g : A -> Z) (l : list A) :
  sum (map (fun x => f x + g x)%Z l) = (sum (map f l) + sum (map g l))%Z.
Proof.
  induction l as [|x t IH]; [reflexivity|]. cbn [map]. rewrite !sum_cons, IH. lia.
Qed.

Lemma sum_map_zero {A : Type} (f : A -> Z) (l : list A) :
  (forall x, In x l -> f x = 0%Z) -> sum (map f l) = 0%Z.
Proof.
  induction l as [|x t IH]; intros H; [reflexivity|]. cbn [map].
  rewrite sum_cons, (H x (or_introl eq_refl)), IH; [reflexivity|].
  intros y Hy. apply H. now right.
Qed.

(** A sum over a duplicate-free list that is non-zero at one element. *)
Lemma sum_map_single {K : Type} (p : K -> bool) (v : Z) (k0 : K) (ks : list K) :
  NoDup ks -> In k0 ks ->
  (forall k, In k ks -> (p k = true <-> k = k0)) ->
  sum (map (fun k => if p k then v else 0%Z) ks) = v.
Proof.
  induction 1 as [|k t Hk Ht IH]; intros Hin Hp; [destruct Hin|].
  cbn [map]. rewrite sum_cons. destruct Hin as [->|Hin].
  - rewrite (proj2 (Hp k0 (or_introl eq_refl)) eq_refl).
    rewrite sum_map_zero; [lia|]. intros x Hx.
    destruct (p x) eqn:E; [|reflexivity].
    apply (Hp x (or_intror Hx)) in E. subst. contradiction.
  - destruct (p k) eqn:E.
    + apply (Hp k (or_introl eq_refl)) in E. subst. contradiction.
    + rewrite IH; [lia|exact Hin|]. intros x Hx. apply Hp. now right.
Qed.

(** Summing a weight group by group is summing it over the rows that
    belong to a group. *)
Lemma sum_by_groups {R K : Type} (key : R -> option K) (sel : K -> R -> bool)
    (w : R -> Z) (ks : list K) :
  NoDup ks ->
  (forall k r, In k ks -> (sel k r = true <-> key r = Some k)) ->
  forall l,
    (forall r k, In r l -> key r = Some k -> In k ks) ->
    sum (map (fun k => sum (map w (filter (sel k) l))) ks)
    = sum (map w (filter (fun r => notna (key r)) l)).
Proof.
  intros Hnd Hsel. induction l as [|r t IH]; intros Hcov.
  - cbn [filter map]. apply sum_map_zero. reflexivity.
  - assert (Hstep : forall k,
               sum (map w (filter (sel k) (r :: t)))
               = ((if sel k r then w r else 0) + sum (map w (filter (sel k) t)))%Z).
    { intros k. cbn [filter]. destruct (sel k r); [cbn [map]; apply sum_cons|lia]. }
    rewrite (map_ext _ _ Hstep), sum_map_add, IH
      by (intros x k Hx; apply Hcov; now right).
    cbn [filter]. destruct (key r) as [k0|] eqn:E; cbn [notna].
    + cbn [map]. rewrite sum_cons. f_equal.
      apply sum_map_single with (k0 := k0);
        [exact Hnd|eapply Hcov; [now left|exact E]|].
      intros k Hk. rewrite (Hsel k r Hk), E. split; congruence.
    + rewrite sum_map_zero; [lia|]. intros k Hk.
      destruct (sel k r) eqn:Es; [|reflexivity].
      apply (Hsel k r Hk) in Es. congruence.
Qed.

Lemma count_as_sum {R A : Type} (f : R -> option A) (g : list R) :
  count (map f g) = sum (map (fun r => if notna (f r) then 1 else 0)%Z g).
Proof.
  unfold count. induction g as [|r t IH]; [reflexivity|].
  cbn [map]. rewrite sum_cons, <- IH.
  change (dropna (f r :: map f t))
    with ((match f r with Some x => [x] | None => [] end) ++ dropna (map f t)).
  destruct (f r); cbn [notna app length]; lia.
Qed.

Lemma count_members (g : list (Row cell)) :
  count (map (@TEAM_MEMBER cell) g) = sum (map member_weight g).
Proof. apply count_as_sum. Qed.

(** The participant counts of the per-competition rows picked by [pick],
    a test on the key. *)
Lemma per_competition_participants (df : list (Row cell)) (pick : key2 -> bool) :
  sum (map (@Participants unit)
           (filter (fun row => pick (agg_key row)) (per_competition df)))
  = count (map (@TEAM_MEMBER cell)
               (filter (fun r => match COUNTRY r with
                                 | Some c => pick (Competition r, c)
                                 | None => false
                                 end) df)).
Proof.
  unfold per_competition. rewrite filter_map_swap, map_map.
  cbn [agg_key a_Competition a_COUNTRY Participants].
  rewrite (map_ext _ (fun k => sum (map member_weight
                                        (group_by_competition_country k df))))
    by (intros k; apply count_members).
  rewrite count_members. unfold group_by_competition_country.
  rewrite (filter_ext (fun a : key2 => pick (fst a, snd a)) pick)
    by (now intros [a b]).
  rewrite (sum_by_groups
             (fun r => match COUNTRY r with
                       | Some c => if pick (Competition r, c)
                                   then Some (Competition r, c) else None
                       | None => None
                       end)
             (fun k r => str_eqb (Competition r) (fst k) && country_is (snd k) r)
             member_weight).
  - f_equal. f_equal. apply filter_ext. intros r.
    destruct (COUNTRY r) as [c|]; [|reflexivity]. now destruct (pick (Competition r, c)).
  - apply NoDup_filter. unfold keys_by_competition_country.
    apply NoDup_sort, NoDup_nodup.
  - intros [k1 k2] r Hk. apply filter_In in Hk. destruct Hk as [_ Hk2].
    cbn [fst snd] in *. rewrite andb_true_iff, str_eqb_eq, country_is_spec.
    unfold cell in *. destruct (COUNTRY r) as [c|].
    + split.
      * intros [-> E]. injection E as ->. now rewrite Hk2.
      * destruct (pick (Competition r, c)); [|discriminate].
        intros E. injection E as <- <-. auto.
    + split; [intros [_ E]; discriminate|discriminate].
  - intros r [k1 k2] Hr Hk. destruct (COUNTRY r) as [c|] eqn:Ec; [|discriminate].
    destruct (pick (Competition r, c)) eqn:Ep; [|discriminate].
    injection Hk as <- <-. apply filter_In. split; [|exact Ep].
    apply in_keys_by_competition_country. exists r. cbn [fst snd]. auto.
Qed.

Lemma all_combined_participants (df : list (Row cell)) :
  sum (map (@Participants Z) (all_combined df))
  = count (map (@TEAM_MEMBER cell) (with_country df)).
Proof.
  unfold all_combined. rewrite map_map. cbn [Participants].
  rewrite (map_ext _ (fun c => sum (map member_weight (group_by_country c df))))
    by (intros c; apply count_members).
  rewrite count_members. unfold group_by_country, with_country.
  apply (sum_by_groups (@COUNTRY cell) country_is member_weight).
  - unfold keys_by_country. apply NoDup_sort, NoDup_nodup.
  - intros c r _. apply country_is_spec.
  - intros r c Hr Hc. apply in_keys_by_country. exists r. auto.
Qed.

(** X8.  Participant counts add up: for every country the participant
    counts of its per-competition rows sum to the participant count of its
    combined row, and the participant counts of all combined rows sum to the
    number of member names among the records that have a country. *)
Theorem participants_add_up (df : list (Row cell)) :
  (forall c,
      sum (map (@Participants unit)
               (filter (fun row => str_eqb (a_COUNTRY row) c) (per_competition df)))
      = count (map (@TEAM_MEMBER cell) (group_by_country c df)))
  /\ (forall row, In row (all_combined df) ->
        sum (map (@Participants unit)
                 (filter (fun r => str_eqb (a_COUNTRY r) (a_COUNTRY row))
                         (per_competition df)))
        = Participants row)
  /\ sum (map (@Participants Z) (all_combined df))
     = count (map (@TEAM_MEMBER cell) (with_country df)).
Proof.
  assert (Hper : forall c,
      sum (map (@Participants unit)
               (filter (fun row => str_eqb (a_COUNTRY row) c) (per_competition df)))
      = count (map (@TEAM_MEMBER cell) (group_by_country c df))).
  { intros c.
    etransitivity;
      [exact (per_competition_participants df (fun k => str_eqb (snd k) c))|].
    reflexivity. }
  split; [exact Hper|]. split.
  - intros row Hrow. rewrite Hper. apply in_all_combined in Hrow.
    destruct Hrow as [_ E]. rewrite E at 2. reflexivity.
  - apply all_combined_participants.
Qed.

Lemma participants_add_up_witness :
  sum (map (@Participants unit)
           (filter (fun r => str_eqb (a_COUNTRY r) (lit "India"))
                   (per_competition [entry "T" "m" "O" "India" "CDC 2024";
                                     entry "T" "m" "O" "India" "IROS 2024"])))
  = 2%Z.
Proof.
  refine (proj1 (proj2 (participants_add_up
            [entry "T" "m" "O" "India" "CDC 2024";
             entry "T" "m" "O" "India" "IROS 2024"]))
          (mkAgg All_Competitions (lit "India") 1%Z 2%Z 1%Z 2%Z) _).
  vm_compute. left. reflexivity.
Defined.

End AggregatorMore.

(** ** From the workbook to the table *)

Section PipelineMore.
Import Loader Normalizer Presentation Layout Notions Further.

Lemma load_all_competitions (book : Workbook) (names : list pystr) :
  forall df, load_all book names = Some df ->
             Forall (fun r : Row cell => In (Competition r) names) df.
Proof.
  induction names as [|c rest IH]; intros df H; cbn [load_all] in H.
  - injection H as <-. constructor.
  - destruct (load_competition book c) as [sheet|] eqn:E; [|discriminate].
    apply load_competition_some in E. destruct E as (f & _ & _ & ->).
    destruct (load_all book rest) as [dfs|]; [|discriminate].
    injection H as <-. apply Forall_app. split.
    + unfold clean. rewrite Forall_forall. intros r Hr.
      apply in_map_iff in Hr. destruct Hr as (x & <- & _). now left.
    + specialize (IH dfs eq_refl). rewrite Forall_forall in *.
      intros r Hr. right. now apply IH.
Qed.

Lemma df_split_competitions (P : pystr -> Prop) (all_data : list (Row cell)) :
  Forall (fun r : Row cell => P (Competition r)) all_data ->
  Forall (fun r : Row cell => P (Competition r)) (df_split all_data).
Proof.
  rewrite !Forall_forall. intros H r' Hr'. apply df_split_origin in Hr'.
  destruct Hr' as (r & Hr & Hin). apply normalized_other_fields in Hin.
  apply (f_equal (@Competition unit)) in Hin. cbn in Hin. rewrite Hin. now apply H.
Qed.

Lemma nunique_le_count {A : Type} (dec : forall a b : A, {a = b} + {a <> b})
    (col : list (option A)) : (nunique dec col <= count col)%Z.
Proof.
  unfold nunique, count. apply inj_le. apply NoDup_incl_length; [apply NoDup_nodup|].
  intros x Hx. now apply nodup_In in Hx.
Qed.

Lemma count_le_length {R A : Type} (f : R -> option A) (g : list R) :
  (count (map f g) <= Z.of_nat (length g))%Z.
Proof.
  unfold count. apply inj_le. induction g as [|r t IH]; [reflexivity|].
  change (dropna (map f (r :: t)))
    with ((match f r with Some x => [x] | None => [] end) ++ dropna (map f t)).
  destruct (f r); cbn [app length]; lia.
Qed.

Lemma nunique_positive {A : Type} (dec : forall a b : A, {a = b} + {a <> b})
    (col : list (option A)) (x : A) :
  In (Some x) col -> (1 <= nunique dec col)%Z.
Proof.
  intros H. unfold nunique. apply in_dropna, (nodup_In dec) in H.
  destruct (nodup dec (dropna col)); [destruct H|]. cbn [length]. lia.
Qed.

Lemma nunique_within {A : Type} (dec : forall a b : A, {a = b} + {a <> b})
    (col : list (option A)) (universe : list A) :
  (forall x, In (Some x) col -> In x universe) ->
  (nunique dec col <= Z.of_nat (length universe))%Z.
Proof.
  intros H. unfold nunique. apply inj_le.
  apply NoDup_incl_length; [apply NoDup_nodup|].
  intros x Hx. apply nodup_In, in_dropna in Hx. now apply H.
Qed.

(** X9.  In the table of a loaded workbook every combined row counts
    between one and four competitions and at least as many participants as
    competitions, teams or organisations; every per-competition row belongs
    to one of the four competitions and has at least one participant. *)
Theorem loaded_counts_are_bounded (book : Workbook) (all_data : list (Row cell))
    (Hload : Loader.all_data book = Some all_data) :
  (forall row, In row (all_combined (df_split all_data)) ->
     (1 <= Participation row <= 4)%Z
     /\ (Participation row <= Participants row)%Z
     /\ (Teams row <= Participants row)%Z
     /\ (Organizations row <= Participants row)%Z
     /\ Participants row
        = Z.of_nat (length (group_by_country (a_COUNTRY row) (df_split all_data))))
  /\ (forall row, In row (per_competition (df_split all_data)) ->
        In (a_Competition row) competition_order
        /\ (1 <= Participants row)%Z
        /\ (Teams row <= Participants row)%Z
        /\ (Organizations row <= Participants row)%Z).
Proof.
  unfold Loader.all_data in Hload.
  pose proof (df_split_members_present
                (load_all_members_present book competition_order Hload)) as Hmem.
  pose proof (df_split_competitions (fun c => In c competition_order)
                (load_all_competitions book competition_order Hload)) as Hcomp.
  set (df := df_split all_data) in *.
  assert (Hgroup : forall p : Row cell -> bool,
             count (map (@TEAM_MEMBER cell) (filter p df))
             = Z.of_nat (length (filter p df))).
  { intros p. apply count_all_present. rewrite Forall_forall in *.
    intros r Hr. apply filter_In in Hr. apply Hmem. tauto. }
  split.
  - intros row Hrow. apply in_all_combined in Hrow. destruct Hrow as [Hkey E].
    apply in_keys_by_country in Hkey. destruct Hkey as (r & Hr & Hc).
    assert (Hin : In r (group_by_country (a_COUNTRY row) df)).
    { apply filter_In. split; [exact Hr|now apply country_is_spec]. }
    rewrite E. cbn [Participation Participants Teams Organizations a_COUNTRY].
    unfold group_by_country in *. rewrite Hgroup.
    split; [split|split; [|split; [|split]]].
    + apply nunique_positive with (x := Competition r).
      apply in_map_iff. exists r. auto.
    + change 4%Z with (Z.of_nat (length competition_order)).
      apply nunique_within. intros x Hx. apply in_map_iff in Hx.
      destruct Hx as (r' & Hx & Hr'). injection Hx as <-.
      apply filter_In in Hr'. rewrite Forall_forall in Hcomp. apply Hcomp. tauto.
    + etransitivity; [apply nunique_le_count|apply count_le_length].
    + etransitivity; [apply nunique_le_count|apply count_le_length].
    + etransitivity; [apply nunique_le_count|apply count_le_length].
    + reflexivity.
  - intros row Hrow. pose proof Hrow as Hreal. apply per_competition_real in Hreal.
    destruct Hreal as (r & c & Hr & Hrc & Hc & Hrow_c).
    apply in_per_competition in Hrow. cbv zeta in Hrow. destruct Hrow as [_ E].
    assert (Hin : In r (group_by_competition_country
                          (a_Competition row, a_COUNTRY row) df)).
    { apply filter_In. split; [exact Hr|]. apply in_group_spec.
      cbn [fst snd]. split; congruence. }
    split; [rewrite <- Hrc; rewrite Forall_forall in Hcomp; now apply Hcomp|].
    rewrite E. cbn [Participants Teams Organizations].
    unfold group_by_competition_country in *. rewrite Hgroup.
    split; [|split].
    + destruct (filter _ df); [destruct Hin|]. cbn [length]. lia.
    + etransitivity; [apply nunique_le_count|apply count_le_length].
    + etransitivity; [apply nunique_le_count|apply count_le_length].
Qed.

Lemma loaded_counts_are_bounded_witness :
  In (lit "CDC 2024") competition_order.
Proof.
  refine (proj1 (proj2 (@loaded_counts_are_bounded example_book _ eq_refl)
                       (mkAgg (lit "CDC 2024") (lit "United States") 1%Z 1%Z 1%Z tt) _)).
  vm_compute. left. reflexivity.
Defined.

Lemma map_data_competitions (df : list (Row cell)) (row : AggRow (option Z)) :
  In row (map_data df) ->
  a_Competition row = All_Competitions
  \/ exists r, In r df /\ COUNTRY r <> None /\ Competition r = a_Competition row.
Proof.
  unfold map_data. intros H. apply in_app_or in H. destruct H as [H|H];
    apply in_map_iff in H; destruct H as (x & <- & Hx).
  - right. apply per_competition_real in Hx. destruct Hx as (r & c & Hr & Hc & Hcc & _).
    exists r. cbn [with_Participation a_Competition]. repeat split; congruence.
  - left. apply in_all_combined in Hx. destruct Hx as [_ ->]. reflexivity.
Qed.

(** X10.  The competition dropdown offers each value once, its selected
    value is one of them, and the metric it starts with is valid for every
    competition.  For a loaded workbook every row of the aggregate table
    carries the value of one of the dropdown's options, so no row is out of
    reach of the page.  Run on the values the page starts with, the callback
    keeps the metric [Teams] and offers all four metrics, provided the table
    has a combined row. *)
Theorem dropdown_covers_table (book : Workbook) :
  NoDup (map value (dd_options competition_dropdown))
  /\ In (dd_value competition_dropdown) (map value (dd_options competition_dropdown))
  /\ (forall o, In o (dd_options competition_dropdown) -> label o = value o)
  /\ (forall comp, In (dd_value metric_dropdown) (valid_metrics_for comp))
  /\ (forall all_data row,
        Loader.all_data book = Some all_data ->
        In row (map_data (df_split all_data)) ->
        In (a_Competition row) (map value (dd_options competition_dropdown)))
  /\ (forall st fr,
        nth_error st map_data_ref = Some fr ->
        rows_of All_Competitions (body fr) <> [] ->
        exists opts fig,
          fst (run_callback competition_dropdown metric_dropdown st)
          = inr (opts, lit "Teams", fig)
          /\ map value opts
             = [lit "Teams"; lit "Participants"; lit "Organizations";
                lit "Participation"]).
Proof.
  split; [|split; [|split; [|split; [|split]]]].
  - vm_compute. repeat constructor; simpl; intros H;
      repeat (destruct H as [H|H]; [discriminate H|]); exact H.
  - vm_compute. left. reflexivity.
  - intros o Ho. unfold competition_dropdown in Ho. cbn [dd_options] in Ho.
    apply in_map_iff in Ho. destruct Ho as (c & <- & _). reflexivity.
  - intros comp. cbn [metric_dropdown dd_value].
    destruct (valid_metrics_cases comp) as [[_ ->]|[_ ->]]; now left.
  - intros all_data row Hload Hrow. unfold competition_dropdown.
    cbn [dd_options]. rewrite map_map. cbn [value]. rewrite map_id.
    apply map_data_competitions in Hrow. destruct Hrow as [->|(r & Hr & _ & <-)].
    + now left.
    + right. unfold Loader.all_data in Hload.
      pose proof (df_split_competitions (fun c => In c competition_order)
                    (load_all_competitions book competition_order Hload)) as Hcomp.
      rewrite Forall_forall in Hcomp. now apply Hcomp.
  - intros st fr Hfr Hrows. unfold run_callback.
    cbn [competition_dropdown metric_dropdown dd_value].
    rewrite (update_map_run st map_data_ref All_Competitions (lit "Teams") Hfr).
    cbn [fst].
    destruct (outcome_total (body fr) All_Competitions (lit "Teams") Hrows)
      as [fig Hfig].
    exists (options_for All_Competitions), fig. split; [exact Hfig|].
    apply map_value_options.
Qed.

Lemma dropdown_covers_table_witness :
  In (lit "CDC 2024") (map value (dd_options competition_dropdown)).
Proof.
  refine (proj1 (proj2 (proj2 (proj2 (proj2 (dropdown_covers_table example_book)))))
          _ (mkAgg (lit "CDC 2024") (lit "United States") 1%Z 1%Z 1%Z None) eq_refl _).
  vm_compute. left. reflexivity.
Defined.

End PipelineMore.

(** ** Presentation layer *)

Section PresentationMore.
Import Loader Normalizer Presentation Layout Notions Further.

Lemma filter_not_nil {A : Type} (p : A -> bool) (l : list A) :
  filter p l <> [] <-> exists x, In x l /\ p x = true.
Proof.
  split.
  - intros H. destruct (filter p l) as [|x t] eqn:E; [contradiction|].
    exists x. apply filter_In. rewrite E. now left.
  - intros (x & Hx & Hp) E.
    assert (In x (filter p l)) as H by (apply filter_In; auto).
    rewrite E in H. destruct H.
Qed.

(** The competitions with rows in the table of a record set. *)
Lemma view_not_empty (df : list (Row cell)) (comp : pystr) :
  Forall (fun r : Row cell => Competition r <> All_Competitions) df ->
  (rows_of comp (map_data df) <> [] <->
   exists r, In r df /\ COUNTRY r <> None /\
             (comp = All_Competitions \/ Competition r = comp)).
Proof.
  intros Hreal. unfold rows_of. rewrite filter_not_nil. split.
  - intros (row & Hrow & Hc). apply str_eqb_eq in Hc. subst comp.
    unfold map_data in Hrow. apply in_app_or in Hrow. destruct Hrow as [H|H];
      apply in_map_iff in H; destruct H as (x & <- & Hx).
    + apply per_competition_real in Hx. destruct Hx as (r & c & Hr & Hrc & Hcc & _).
      exists r. cbn [with_Participation a_Competition].
      repeat split; [exact Hr|congruence|now right].
    + apply in_all_combined in Hx. destruct Hx as [Hk E].
      apply in_keys_by_country in Hk. destruct Hk as (r & Hr & Hc).
      exists r. repeat split; [exact Hr|congruence|left].
      rewrite E. reflexivity.
  - intros (r & Hr & Hc & Hcomp). destruct (COUNTRY r) as [c|] eqn:Ec; [|contradiction].
    destruct Hcomp as [->|<-].
    + assert (Hk : In c (keys_by_country df)) by (apply in_keys_by_country; eauto).
      eexists. split.
      * unfold map_data. apply in_or_app. right. apply in_map.
        unfold all_combined. apply in_map. exact Hk.
      * apply str_eqb_refl.
    + assert (Hk : In (Competition r, c) (keys_by_competition_country df)).
      { apply in_keys_by_competition_country. exists r. auto. }
      eexists. split.
      * unfold map_data. apply in_or_app. left. apply in_map.
        unfold per_competition. apply in_map. exact Hk.
      * apply str_eqb_refl.
Qed.

(** X11.  The callback returns exactly when the table has a row of the
    selected competition, and raises [ValueError] otherwise.  On the table of
    a record set this is: when some record with a country belongs to the
    selected competition (any record with a country, for
    [All Competitions]). *)
Theorem callback_returns_iff_rows (st : Store) (tref : ref) (fr : Frame)
    (comp metric : pystr) (Hfr : nth_error st tref = Some fr) :
  ((exists res, fst (update_map tref comp metric st) = inr res)
   <-> rows_of comp (body fr) <> [])
  /\ (rows_of comp (body fr) = [] ->
      fst (update_map tref comp metric st) = inl ValueError)
  /\ (forall df,
        body fr = map_data df ->
        Forall (fun r : Row cell => Competition r <> All_Competitions) df ->
        ((exists res, fst (update_map tref comp metric st) = inr res)
         <-> exists r, In r df /\ COUNTRY r <> None /\
                       (comp = All_Competitions \/ Competition r = comp))).
Proof.
  rewrite (update_map_run st tref comp metric Hfr). cbn [fst].
  assert (Hiff : (exists res, outcome (body fr) comp metric = inr res)
                 <-> rows_of comp (body fr) <> []).
  { split.
    - intros [res Hres] E. rewrite (outcome_empty (body fr) comp metric E) in Hres.
      discriminate Hres.
    - intros H. destruct (outcome_total (body fr) comp metric H) as [fig Hfig].
      eexists. exact Hfig. }
  split; [exact Hiff|]. split; [apply outcome_empty|].
  intros df Hbody Hreal. rewrite Hiff, Hbody. now apply view_not_empty.
Qed.

Lemma callback_returns_iff_rows_witness :
  fst (update_map 0 (lit "ICRA 2025") (lit "Teams") [mkFrame example_table None])
  = inl ValueError.
Proof.
  refine (proj1 (proj2 (@callback_returns_iff_rows [mkFrame example_table None] 0%nat
            (mkFrame example_table None) (lit "ICRA 2025") (lit "Teams") eq_refl)) _).
  vm_compute. reflexivity.
Defined.

Lemma resolve_metric_again (comp metric : pystr) :
  resolve_metric comp (resolve_metric comp metric) = resolve_metric comp metric.
Proof.
  pose proof (resolve_metric_valid comp metric) as Hv.
  apply existsb_str_eqb in Hv. unfold resolve_metric at 1. now rewrite Hv.
Qed.

Lemma outcome_resolved (table : list (AggRow (option Z))) (comp metric : pystr) :
  outcome table comp (resolve_metric comp metric) = outcome table comp metric.
Proof. unfold outcome. now rewrite resolve_metric_again. Qed.

(** X12.  The returned metric is a fixed point of the callback: run again
    with the metric it returned, on the store it left, the callback returns
    the same options, the same metric and the same figure. *)
Theorem returned_metric_is_stable (st st' : Store) (tref : ref)
    (comp metric m : pystr) (opts : list MetricOption) (fig : Figure)
    (Hret : update_map tref comp metric st = (inr (opts, m, fig), st')) :
  fst (update_map tref comp m st') = inr (opts, m, fig)
  /\ resolve_metric comp m = m.
Proof.
  destruct (nth_error st tref) as [fr|] eqn:Hfr.
  2:{ rewrite (update_map_dangling st tref comp metric Hfr) in Hret.
      discriminate Hret. }
  rewrite (update_map_run st tref comp metric Hfr) in Hret.
  injection Hret as Hout <-.
  assert (Hm : m = resolve_metric comp metric).
  { apply outcome_returns in Hout. tauto. }
  assert (Hfr' : nth_error ((st ++ [masked_frame fr comp]) ++ [subset_frame fr comp])
                           tref = Some fr).
  { rewrite <- app_assoc, nth_error_app1; [exact Hfr|].
    apply nth_error_Some. congruence. }
  rewrite (update_map_run _ tref comp m Hfr'). cbn [fst].
  subst m. rewrite outcome_resolved. split; [exact Hout|apply resolve_metric_again].
Qed.

Lemma returned_metric_is_stable_witness :
  exists opts fig st',
    update_map 0 (lit "CDC 2024") (lit "Participation") [mkFrame example_table None]
    = (inr (opts, lit "Teams", fig), st')
    /\ fst (update_map 0 (lit "CDC 2024") (lit "Teams") st')
       = inr (opts, lit "Teams", fig).
Proof.
  assert (Hrows : rows_of (lit "CDC 2024") example_table <> [])
    by (vm_compute; discriminate).
  destruct (outcome_total example_table (lit "CDC 2024") (lit "Participation") Hrows)
    as [fig Hfig].
  assert (Hrun : update_map 0 (lit "CDC 2024") (lit "Participation")
                   [mkFrame example_table None]
                 = (inr (options_for (lit "CDC 2024"), lit "Teams", fig),
                    ([mkFrame example_table None]
                       ++ [masked_frame (mkFrame example_table None) (lit "CDC 2024")])
                      ++ [subset_frame (mkFrame example_table None) (lit "CDC 2024")])).
  { rewrite (update_map_run [mkFrame example_table None] 0 (lit "CDC 2024")
               (lit "Participation") (fr := mkFrame example_table None) eq_refl).
    cbn [body]. rewrite Hfig. reflexivity. }
  eexists _, fig, _. split; [exact Hrun|].
  exact (proj1 (@returned_metric_is_stable _ _ _ _ _ _ _ _ Hrun)).
Defined.

Lemma map_fill_counts (rows : list (AggRow (option Z))) :
  map (@a_COUNTRY _) (map (with_Participation fillna_int) rows) = map (@a_COUNTRY _) rows
  /\ map (@Participants _) (map (with_Participation fillna_int) rows)
     = map (@Participants _) rows
  /\ map (@Teams _) (map (with_Participation fillna_int) rows) = map (@Teams _) rows
  /\ map (@Organizations _) (map (with_Participation fillna_int) rows)
     = map (@Organizations _) rows.
Proof. rewrite !map_map. repeat split. Qed.

(** The parts of a returned figure. *)
Lemma outcome_figure (table : list (AggRow (option Z))) (comp metric : pystr)
    (opts : list MetricOption) (m : pystr) (fig : Figure) :
  outcome table comp metric = inr (opts, m, fig) ->
  let rows := rows_of comp table in
  fig_locations fig = map (@a_COUNTRY _) rows
  /\ fig_color_values fig = map (metric_value m) rows
  /\ length (fig_hovertemplate fig) = length rows
  /\ fig_title fig
     = title_text comp (label_of m)
         (sum (map (@Participants _) rows)) (sum (map (@Teams _) rows))
         (sum (map (@Organizations _) rows))
         (nunique str_eq_dec (map (fun r => Some (a_COUNTRY r)) rows)).
Proof.
  unfold outcome. cbv zeta.
  destruct (max_skipna _) as [mx|]; [|discriminate].
  intros H. injection H as <- <- <-.
  cbn [fig_locations fig_color_values fig_hovertemplate fig_title].
  destruct (map_fill_counts (rows_of comp table)) as (E1 & E2 & E3 & E4).
  rewrite E1, E2, E3, E4, !length_map.
  repeat split. do 2 f_equal. rewrite !map_map. reflexivity.
Qed.

(** X13.  In a returned figure the locations are the countries of the
    selected competition's rows, in the table's order; the colour values and
    the hover texts are as many as the locations; no colour value is blank;
    the figure is not empty and its tick interval is at least 1. *)
Theorem returned_figure_is_aligned (st st' : Store) (tref : ref) (fr : Frame)
    (comp metric m : pystr) (opts : list MetricOption) (fig : Figure)
    (Hfr : nth_error st tref = Some fr)
    (Hret : update_map tref comp metric st = (inr (opts, m, fig), st')) :
  fig_locations fig = map (@a_COUNTRY _) (rows_of comp (body fr))
  /\ fig_locations fig <> []
  /\ length (fig_color_values fig) = length (fig_locations fig)
  /\ length (fig_hovertemplate fig) = length (fig_locations fig)
  /\ Forall (fun v => v <> None) (fig_color_values fig)
  /\ (1 <= fig_dtick fig)%Z.
Proof.
  rewrite (update_map_run st tref comp metric Hfr) in Hret.
  injection Hret as Hout _.
  pose proof (outcome_figure _ _ _ Hout) as Hfig. cbv zeta in Hfig.
  destruct Hfig as (Hloc & Hval & Hhov & _).
  pose proof Hout as Hparts. apply outcome_returns in Hparts.
  destruct Hparts as (_ & Hm & _ & _ & _ & mx & Hmx & Hd).
  rewrite Hloc, Hval, Hhov, !length_map.
  split; [reflexivity|]. split.
  - intros E. apply map_eq_nil in E. rewrite E in Hmx. discriminate Hmx.
  - split; [reflexivity|]. split; [reflexivity|]. split.
    + rewrite Forall_forall. intros v Hv. apply in_map_iff in Hv.
      destruct Hv as (row & <- & _).
      destruct (metric_value_numeric row
                  (valid_metric_is_numeric comp _ (resolve_metric_valid comp metric)))
        as [z Hz].
      rewrite Hm, Hz. discriminate.
    + rewrite Hd. destruct (mx <=? 20)%Z; lia.
Qed.

Lemma returned_figure_is_aligned_witness :
  exists fig,
    fst (update_map 0 All_Competitions (lit "Teams") [mkFrame example_table None])
    = inr (options_for All_Competitions, lit "Teams", fig)
    /\ (1 <= fig_dtick fig)%Z.
Proof.
  assert (Hrows : rows_of All_Competitions example_table <> [])
    by (vm_compute; discriminate).
  destruct (outcome_total example_table All_Competitions (lit "Teams") Hrows)
    as [fig Hfig].
  assert (Hrun : update_map 0 All_Competitions (lit "Teams")
                   [mkFrame example_table None]
                 = (inr (options_for All_Competitions, lit "Teams", fig),
                    ([mkFrame example_table None]
                       ++ [masked_frame (mkFrame example_table None) All_Competitions])
                      ++ [subset_frame (mkFrame example_table None) All_Competitions])).
  { rewrite (update_map_run [mkFrame example_table None] 0 All_Competitions
               (lit "Teams") (fr := mkFrame example_table None) eq_refl).
    cbn [body]. rewrite Hfig. reflexivity. }
  exists fig. split; [now rewrite Hrun|].
  exact (proj2 (proj2 (proj2 (proj2 (proj2
           (@returned_figure_is_aligned [mkFrame example_table None] _ 0%nat
              (mkFrame example_table None) _ _ _ _ _ eq_refl Hrun)))))).
Defined.

Lemma outcome_hover (table : list (AggRow (option Z))) (comp metric : pystr)
    (opts : list MetricOption) (m : pystr) (fig : Figure) :
  outcome table comp metric = inr (opts, m, fig) ->
  fig_hovertemplate fig
  = map (hover_row ([lit "Teams"; lit "Participants"; lit "Organizations"]
                    ++ (if str_eqb comp All_Competitions
                        then [lit "Participation"] else [])))
        (map (with_Participation fillna_int) (rows_of comp table)).
Proof.
  unfold outcome. cbv zeta.
  destruct (max_skipna _) as [mx|]; [|discriminate].
  intros H. injection H as <- <- <-. reflexivity.
Qed.

(** X17.  The zero that line 131 puts into a blank [Participation] is
    never shown.  On the table of a record set the view of
    [All Competitions] has no blank to fill; for any other competition the
    returned metric is not [Participation] and the hover texts are those of
    the unfilled rows, without a competition count. *)
Theorem filled_zero_is_never_shown (df : list (Row cell))
    (st st' : Store) (tref : ref) (h : option (list pystr))
    (comp metric m : pystr) (opts : list MetricOption) (fig : Figure)
    (Hreal : Forall (fun r : Row cell => Competition r <> All_Competitions) df)
    (Hfr : nth_error st tref = Some (mkFrame (map_data df) h))
    (Hret : update_map tref comp metric st = (inr (opts, m, fig), st')) :
  (comp = All_Competitions ->
   map (with_Participation fillna_int) (rows_of comp (map_data df))
   = rows_of comp (map_data df)
   /\ Forall (fun row => exists n, Participation row = Some n /\ (1 <= n)%Z)
             (rows_of comp (map_data df)))
  /\ (comp <> All_Competitions ->
      m <> lit "Participation"
      /\ fig_hovertemplate fig
         = map (hover_row [lit "Teams"; lit "Participants"; lit "Organizations"])
               (rows_of comp (map_data df))
      /\ fig_color_values fig
         = map (fun row =>
                  if str_eqb m (lit "Teams") then Some (Teams row)
                  else if str_eqb m (lit "Participants") then Some (Participants row)
                  else Some (Organizations row))
               (rows_of comp (map_data df))).
Proof.
  rewrite (update_map_run st tref comp metric Hfr) in Hret.
  injection Hret as Hout _. cbn [body] in Hout.
  split.
  - intros ->. rewrite (rows_of_all Hreal), !map_map.
    cbn [with_Participation fillna_int]. split; [reflexivity|].
    rewrite Forall_forall. intros row Hrow. apply in_map_iff in Hrow.
    destruct Hrow as (x & <- & Hx). exists (Participation x).
    split; [reflexivity|]. apply in_all_combined in Hx. destruct Hx as [Hk E].
    apply in_keys_by_country in Hk. destruct Hk as (r & Hr & Hc).
    rewrite E. cbn [Participation].
    apply nunique_positive with (x := Competition r).
    apply in_map_iff. exists r. split; [reflexivity|].
    apply filter_In. split; [exact Hr|now apply country_is_spec].
  - intros Hne.
    pose proof (outcome_hover _ _ _ Hout) as Hhover.
    pose proof (outcome_figure _ _ _ Hout) as Hfig. cbv zeta in Hfig.
    destruct Hfig as (_ & Hval & _).
    apply outcome_returns in Hout. destruct Hout as (_ & Hm & _).
    pose proof (resolve_metric_valid comp metric) as Hv. rewrite <- Hm in Hv.
    destruct (valid_metrics_cases comp) as [[Hc _]|[_ Hvalid]]; [contradiction|].
    rewrite Hvalid in Hv.
    apply str_eqb_neq in Hne. rewrite Hne in Hhover. cbn [app] in Hhover.
    split; [|split].
    + intros ->. simpl in Hv.
      repeat (destruct Hv as [Hv|Hv]; [vm_compute in Hv; discriminate Hv|]).
      exact Hv.
    + rewrite Hhover, map_map. apply map_ext. intros [c k t p o q]. reflexivity.
    + rewrite Hval. apply map_ext. intros row. unfold metric_value.
      simpl in Hv. destruct Hv as [<-|[<-|[<-|[]]]]; reflexivity.
Qed.

Lemma filled_zero_is_never_shown_witness :
  exists fig,
    fst (update_map 0 (lit "CDC 2024") (lit "Participation")
           [mkFrame (map_data [entry "T" "m" "O" "India" "CDC 2024"]) None])
    = inr (options_for (lit "CDC 2024"), lit "Teams", fig)
    /\ fig_hovertemplate fig
       = map (hover_row [lit "Teams"; lit "Participants"; lit "Organizations"])
             (rows_of (lit "CDC 2024") (map_data [entry "T" "m" "O" "India" "CDC 2024"])).
Proof.
  set (df := [entry "T" "m" "O" "India" "CDC 2024"]).
  assert (Hrows : rows_of (lit "CDC 2024") (map_data df) <> [])
    by (vm_compute; discriminate).
  destruct (outcome_total (map_data df) (lit "CDC 2024") (lit "Participation") Hrows)
    as [fig Hfig].
  assert (Hrun : update_map 0 (lit "CDC 2024") (lit "Participation")
                   [mkFrame (map_data df) None]
                 = (inr (options_for (lit "CDC 2024"), lit "Teams", fig),
                    ([mkFrame (map_data df) None]
                       ++ [masked_frame (mkFrame (map_data df) None) (lit "CDC 2024")])
                      ++ [subset_frame (mkFrame (map_data df) None) (lit "CDC 2024")])).
  { rewrite (update_map_run [mkFrame (map_data df) None] 0 (lit "CDC 2024")
               (lit "Participation") (fr := mkFrame (map_data df) None) eq_refl).
    cbn [body]. rewrite Hfig. reflexivity. }
  exists fig. split; [now rewrite Hrun|].
  assert (Hreal : Forall (fun r : Row cell => Competition r <> All_Competitions) df)
    by (repeat constructor; vm_compute; discriminate).
  refine (proj1 (proj2 (proj2 (@filled_zero_is_never_shown df
            [mkFrame (map_data df) None] _ 0%nat None (lit "CDC 2024")
            (lit "Participation") (lit "Teams") _ fig Hreal eq_refl Hrun) _))).
  vm_compute. discriminate.
Defined.

Lemma nunique_distinct {A : Type} (dec : forall a b : A, {a = b} + {a <> b})
    (l : list A) :
  NoDup l -> nunique dec (map (@Some A) l) = Z.of_nat (length l).
Proof.
  intros H. apply nunique_set; [exact H|]. intros x. rewrite in_map_iff. split.
  - intros Hx. now exists x.
  - intros (y & E & Hy). now injection E as <-.
Qed.

(** The participants of a view are the member names of its records. *)
Lemma view_participants (df : list (Row cell)) (comp : pystr) :
  Forall (fun r : Row cell => Competition r <> All_Competitions) df ->
  sum (map (@Participants _) (rows_of comp (map_data df)))
  = count (map (@TEAM_MEMBER cell) (records_of comp df)).
Proof.
  intros Hreal. unfold records_of.
  destruct (str_eq_dec comp All_Competitions) as [->|Hne].
  - rewrite (rows_of_all Hreal), map_map. cbn [with_Participation Participants].
    etransitivity; [exact (all_combined_participants df)|].
    unfold with_country. f_equal. f_equal. apply filter_ext. intros r.
    rewrite str_eqb_refl. cbn [orb]. now rewrite andb_true_r.
  - rewrite (rows_of_competition df Hne), map_map.
    cbn [with_Participation Participants].
    etransitivity;
      [exact (per_competition_participants df (fun k => str_eqb (fst k) comp))|].
    f_equal. f_equal. apply filter_ext. intros r.
    apply str_eqb_neq in Hne. rewrite Hne. cbn [orb fst].
    now destruct (COUNTRY r).
Qed.

(** X14.  On the table of a record set the title of a returned figure
    gives, as participants, the number of member names among the records of
    the selected competition that have a country (among all records with a
    country for [All Competitions]) and, as countries, the number of
    coloured locations. *)
Theorem title_counts_members_and_locations (df : list (Row cell))
    (st st' : Store) (tref : ref) (h : option (list pystr))
    (comp metric m : pystr) (opts : list MetricOption) (fig : Figure)
    (Hreal : Forall (fun r : Row cell => Competition r <> All_Competitions) df)
    (Hfr : nth_error st tref = Some (mkFrame (map_data df) h))
    (Hret : update_map tref comp metric st = (inr (opts, m, fig), st')) :
  fig_title fig
  = title_text comp (label_of m)
      (count (map (@TEAM_MEMBER cell) (records_of comp df)))
      (sum (map (@Teams _) (rows_of comp (map_data df))))
      (sum (map (@Organizations _) (rows_of comp (map_data df))))
      (Z.of_nat (length (fig_locations fig))).
Proof.
  rewrite (update_map_run st tref comp metric Hfr) in Hret.
  injection Hret as Hout _. cbn [body] in Hout.
  pose proof (outcome_figure _ _ _ Hout) as Hfig. cbv zeta in Hfig.
  destruct Hfig as (Hloc & _ & _ & Htitle).
  rewrite Htitle, Hloc, length_map, (view_participants comp Hreal).
  do 2 f_equal.
  rewrite <- (length_map (@a_COUNTRY _)), <- map_map.
  apply nunique_distinct. now apply view_countries_unique.
Qed.

Lemma title_counts_members_and_locations_witness :
  exists fig,
    fst (update_map 0 All_Competitions (lit "Teams")
           [mkFrame (map_data [entry "T" "m" "O" "India" "CDC 2024";
                               entry "T" "n" "O" "India" "IROS 2024"]) None])
    = inr (options_for All_Competitions, lit "Teams", fig)
    /\ fig_title fig
       = title_text All_Competitions (lit "Number of Teams") 2 1 1 1.
Proof.
  set (df := [entry "T" "m" "O" "India" "CDC 2024";
              entry "T" "n" "O" "India" "IROS 2024"]).
  assert (Hrows : rows_of All_Competitions (map_data df) <> [])
    by (vm_compute; discriminate).
  destruct (outcome_total (map_data df) All_Competitions (lit "Teams") Hrows)
    as [fig Hfig].
  assert (Hrun : update_map 0 All_Competitions (lit "Teams")
                   [mkFrame (map_data df) None]
                 = (inr (options_for All_Competitions, lit "Teams", fig),
                    ([mkFrame (map_data df) None]
                       ++ [masked_frame (mkFrame (map_data df) None) All_Competitions])
                      ++ [subset_frame (mkFrame (map_data df) None) All_Competitions])).
  { rewrite (update_map_run [mkFrame (map_data df) None] 0 All_Competitions
               (lit "Teams") (fr := mkFrame (map_data df) None) eq_refl).
    cbn [body]. rewrite Hfig. reflexivity. }
  exists fig. split; [now rewrite Hrun|].
  assert (Hreal : Forall (fun r : Row cell => Competition r <> All_Competitions) df)
    by (repeat constructor; vm_compute; discriminate).
  pose proof (@title_counts_members_and_locations df [mkFrame (map_data df) None] _
                0%nat None All_Competitions (lit "Teams") (lit "Teams") _ fig
                Hreal eq_refl Hrun) as Ht.
  rewrite Ht.
  assert (Hloc : length (fig_locations fig) = 1%nat).
  { pose proof (outcome_figure _ _ _ Hfig) as Hf. cbv zeta in Hf.
    destruct Hf as (-> & _). vm_compute. reflexivity. }
  rewrite Hloc. vm_compute. reflexivity.
Defined.

End PresentationMore.

(** ** The separator pattern, and running the normaliser twice *)

Section SeparatorMore.
Import Re Normalizer Notions Further.

Lemma star_ws_all (s : pystr) : star WS (fun t : pystr => Some t) s = Some (lstrip s).
Proof.
  induction s as [|c t IH]; [reflexivity|]. cbn [star lstrip atom_ok].
  destruct (isspace c); [now rewrite IH|reflexivity].
Qed.

(** A greedy run of whitespace before something that cannot start with
    whitespace is the whole run. *)
Lemma star_ws_greedy (rest : pystr -> option pystr) :
  (forall c t, isspace c = true -> rest (c :: t) = None) ->
  forall s, star WS rest s = rest (lstrip s).
Proof.
  intros Hrest. induction s as [|c t IH]; [reflexivity|].
  cbn [star lstrip atom_ok]. destruct (isspace c) eqn:E; [|reflexivity].
  rewrite IH. destruct (rest (lstrip t)) eqn:Er; [reflexivity|].
  now apply Hrest.
Qed.

Lemma one_chr_not_space (x : N) (k : pystr -> option pystr) :
  isspace x = false ->
  forall c t, isspace c = true -> one (Chr x) k (c :: t) = None.
Proof.
  intros Hx c t Hc. cbn [one atom_ok].
  destruct (N.eqb_spec c x) as [->|_]; [congruence|reflexivity].
Qed.

(** The pattern of line 40, matched with backtracking, is the scanner. *)
Lemma match_alt_separator_scan (s : pystr) :
  match_alt separator s = sep_match s.
Proof.
  assert (Heta : forall x : option pystr,
             match x with Some r => Some r | None => None end = x)
    by (now intros [r|]).
  assert (Hand : one WS (star WS (one (Chr (chr "a")) (one (Chr (chr "n"))
                   (one (Chr (chr "d")) (one WS (star WS (fun t : pystr => Some t)))))))
                     s
                 = match s with
                   | x :: _ =>
                       if isspace x then
                         match lstrip s with
                         | c :: n :: d :: y :: w =>
                             if (c =? chr "a")%N && (n =? chr "n")%N
                                && (d =? chr "d")%N && isspace y
                             then Some (lstrip w) else None
                         | _ => None
                         end
                       else None
                   | [] => None
                   end).
  { destruct s as [|x t]; [reflexivity|]. cbn [one atom_ok lstrip].
    destruct (isspace x); [|reflexivity].
    rewrite (star_ws_greedy (one (Chr _) _))
      by (apply one_chr_not_space; reflexivity).
    destruct (lstrip t) as [|c [|n [|d [|y w]]]]; cbn [one atom_ok];
      repeat match goal with
             | |- context [(?a =? ?b)%N] =>
                 destruct (a =? b)%N; cbn [one atom_ok andb]
             end; try reflexivity.
    destruct (isspace y); [apply star_ws_all|reflexivity]. }
  unfold separator, sep_match. cbn [match_alt match_items].
  rewrite Hand, Heta.
  rewrite !(star_ws_greedy (one (Chr _) _))
    by (apply one_chr_not_space; reflexivity).
  destruct (lstrip s) as [|c v] eqn:El.
  - cbn [one]. destruct s as [|x t]; [reflexivity|]. now destruct (isspace x).
  - cbn [one atom_ok]. rewrite !star_ws_all.
    destruct (c =? chr "&")%N; [reflexivity|].
    destruct (c =? chr "/")%N; [reflexivity|].
    destruct s as [|x t]; [reflexivity|].
    destruct (isspace x); [|reflexivity].
    destruct v as [|n [|d [|y w]]]; reflexivity.
Qed.

Lemma lstrip_split (s : pystr) :
  exists ws, s = ws ++ lstrip s /\ Forall (fun c => isspace c = true) ws.
Proof.
  induction s as [|c t IH]; [exists []; split; [reflexivity|constructor]|].
  cbn [lstrip]. destruct (isspace c) eqn:E.
  - destruct IH as (ws & Hs & Hws). exists (c :: ws). split.
    + cbn [app]. now rewrite <- Hs.
    + now constructor.
  - exists []. split; [reflexivity|constructor].
Qed.

Lemma lstrip_head (s : pystr) (c : N) (v : pystr) :
  lstrip s = c :: v -> isspace c = false.
Proof.
  induction s as [|x t IH]; cbn [lstrip]; [discriminate|].
  destruct (isspace x) eqn:E; [exact IH|]. intros H. injection H as <- _. exact E.
Qed.

Lemma lstrip_spaces_app (ws z : pystr) :
  Forall (fun c => isspace c = true) ws -> lstrip (ws ++ z) = lstrip z.
Proof.
  induction 1 as [|c ws Hc Hws IH]; [reflexivity|]. cbn [app lstrip]. now rewrite Hc.
Qed.

Lemma lstrip_app_nonempty (v z : pystr) (c : N) (v' : pystr) :
  lstrip v = c :: v' -> lstrip (v ++ z) = c :: v' ++ z.
Proof.
  induction v as [|x t IH]; cbn [lstrip app]; [discriminate|].
  destruct (isspace x); [exact IH|]. intros H. injection H as <- <-. reflexivity.
Qed.

Lemma spaces_no_comma (ws : pystr) :
  Forall (fun c => isspace c = true) ws -> ~ In (chr ",") ws.
Proof.
  intros H Hin. rewrite Forall_forall in H. apply H in Hin. discriminate Hin.
Qed.

(** What a match leaves is a proper end of the text. *)
Lemma sep_match_suffix (s r : pystr) :
  sep_match s = Some r -> exists pre, s = pre ++ r /\ pre <> [].
Proof.
  unfold sep_match. destruct (lstrip_split s) as (ws & Hs & _).
  destruct (lstrip s) as [|c v] eqn:El; [discriminate|].
  assert (Hv : forall mid u, v = mid ++ u ->
                 exists pre, s = pre ++ lstrip u /\ pre <> []).
  { intros mid u ->. destruct (lstrip_split u) as (ws' & Hu & _).
    exists (ws ++ c :: mid ++ ws'). split.
    - rewrite Hs at 1. rewrite Hu at 1.
      rewrite <- !app_assoc. cbn [app]. now rewrite <- !app_assoc.
    - destruct ws; discriminate. }
  destruct (c =? chr "&")%N.
  { intros H. injection H as <-. apply (Hv [] v). reflexivity. }
  destruct (c =? chr "/")%N.
  { intros H. injection H as <-. apply (Hv [] v). reflexivity. }
  destruct s as [|x t]; [discriminate|]. destruct (isspace x); [|discriminate].
  destruct v as [|n [|d [|y w]]]; try discriminate.
  destruct (_ && _); [|discriminate].
  intros H. injection H as <-. apply (Hv [n; d; y] w). reflexivity.
Qed.

Lemma sep_match_extend (v z r : pystr) :
  sep_match v = Some r -> sep_match (v ++ z) <> None.
Proof.
  unfold sep_match. destruct (lstrip v) as [|c v'] eqn:El; [discriminate|].
  rewrite (lstrip_app_nonempty v z El).
  destruct (c =? chr "&")%N; [discriminate|].
  destruct (c =? chr "/")%N; [discriminate|].
  destruct v as [|x t]; [discriminate|]. cbn [app].
  destruct (isspace x); [|discriminate].
  destruct v' as [|n [|d [|y w]]]; try discriminate. cbn [app].
  destruct (_ && _); discriminate.
Qed.

(** X15.  Matched with backtracking at the start of a text, the pattern of
    line 40 does what the scanner [sep_match] does: it skips the leading
    whitespace, takes an [&] or a [/], or the word [and] when whitespace
    stood before it and follows it, and then the whitespace after it.  A
    match takes at least one character and what it leaves does not start
    with whitespace. *)
Theorem separator_matches_like_scanner (s : pystr) :
  match_alt separator s = sep_match s
  /\ (forall r, match_alt separator s = Some r ->
                (exists pre, s = pre ++ r /\ pre <> []) /\ lstrip r = r)
  /\ (match_alt separator s <> None ->
      forall z, match_alt separator (s ++ z) <> None).
Proof.
  split; [apply match_alt_separator_scan|]. split.
  - intros r Hr. rewrite match_alt_separator_scan in Hr.
    split; [now apply sep_match_suffix|].
    unfold sep_match in Hr. destruct (lstrip s) as [|c v]; [discriminate|].
    destruct (c =? chr "&")%N; [injection Hr as <-; apply lstrip_again|].
    destruct (c =? chr "/")%N; [injection Hr as <-; apply lstrip_again|].
    destruct s as [|x t]; [discriminate|]. destruct (isspace x); [|discriminate].
    destruct v as [|n [|d [|y w]]]; try discriminate.
    destruct (_ && _); [|discriminate]. injection Hr as <-. apply lstrip_again.
  - intros H z. rewrite match_alt_separator_scan in *.
    destruct (sep_match s) as [r|] eqn:E; [|contradiction].
    eapply sep_match_extend. exact E.
Qed.

Lemma separator_matches_like_scanner_witness :
  (exists pre, lit " and Peru" = pre ++ lit "Peru" /\ pre <> [])
  /\ lstrip (lit "Peru") = lit "Peru".
Proof.
  refine (proj1 (proj2 (separator_matches_like_scanner (lit " and Peru")))
                (lit "Peru") _).
  vm_compute. reflexivity.
Defined.

Lemma sub_from_skip (repl pre r : pystr) :
  sub_from separator repl (length pre) (pre ++ r) = sub_from separator repl 0 r.
Proof. induction pre as [|x pre IH]; [reflexivity|]. cbn [length app sub_from]. exact IH. Qed.

(** Line 40, step by step. *)
Lemma sub_miss (c : N) (t : pystr) :
  sep_match (c :: t) = None ->
  Re.sub separator (lit ",") (c :: t) = c :: Re.sub separator (lit ",") t.
Proof.
  intros H. unfold Re.sub. cbn [sub_from].
  now rewrite match_alt_separator_scan, H.
Qed.

Lemma sub_hit (s r : pystr) :
  sep_match s = Some r ->
  Re.sub separator (lit ",") s = chr "," :: Re.sub separator (lit ",") r.
Proof.
  intros H. destruct (sep_match_suffix s H) as (pre & Hs & Hpre).
  destruct pre as [|c pre]; [contradiction|]. subst s. cbn [app] in *.
  unfold Re.sub. cbn [sub_from]. rewrite match_alt_separator_scan, H.
  assert (Hlen : (length r <? length (c :: pre ++ r))%nat = true).
  { apply Nat.ltb_lt. cbn [length]. rewrite length_app. lia. }
  rewrite Hlen.
  replace (length (c :: pre ++ r) - length r - 1)%nat with (length pre)
    by (cbn [length]; rewrite length_app; lia).
  rewrite sub_from_skip. reflexivity.
Qed.

Lemma sub_no_amp_slash (s : pystr) (x : N) :
  In x (Re.sub separator (lit ",") s) -> x <> chr "&" /\ x <> chr "/".
Proof.
  intros H. unfold Re.sub in H. apply sub_from_chars in H.
  destruct H as [[<-|[]]|(_ & H)]; [split; discriminate|exact H].
Qed.

(** A comma-free start of the output is a start of the input. *)
Lemma sub_prefix (q : pystr) :
  ~ In (chr ",") q ->
  forall t rest, Re.sub separator (lit ",") t = q ++ rest ->
                 exists rest', t = q ++ rest'.
Proof.
  induction q as [|x q IH]; intros Hq t rest H; [now exists t|].
  destruct t as [|c t]; [discriminate H|].
  destruct (sep_match (c :: t)) as [r|] eqn:E.
  - rewrite (sub_hit _ E) in H. injection H as Hx _. elim Hq. now left.
  - rewrite (sub_miss _ _ E) in H. injection H as <- H.
    destruct (IH (fun Hin => Hq (or_intror Hin)) t rest H) as [rest' ->].
    now exists rest'.
Qed.

(** Replacing what follows a position where no separator starts does not
    make one start there. *)
Lemma sep_match_after_sub (c : N) (t : pystr) :
  sep_match (c :: t) = None ->
  sep_match (c :: Re.sub separator (lit ",") t) = None.
Proof.
  intros H. unfold sep_match in *. cbn [lstrip] in *.
  destruct (isspace c) eqn:Ec.
  - destruct (lstrip (Re.sub separator (lit ",") t)) as [|c' v'] eqn:El;
      [reflexivity|].
    assert (Hin : In c' (Re.sub separator (lit ",") t)).
    { apply lstrip_incl. rewrite El. now left. }
    apply sub_no_amp_slash in Hin. destruct Hin as [Hamp Hslash].
    apply N.eqb_neq in Hamp, Hslash. rewrite Hamp, Hslash.
    destruct v' as [|n [|d [|y w]]]; try reflexivity.
    destruct ((c' =? chr "a")%N && (n =? chr "n")%N && (d =? chr "d")%N && isspace y)
      eqn:Econd; [|reflexivity].
    exfalso. apply andb_prop in Econd. destruct Econd as [Econd Hy].
    apply andb_prop in Econd. destruct Econd as [Econd Hd].
    apply andb_prop in Econd. destruct Econd as [Ha Hn].
    apply N.eqb_eq in Ha, Hn, Hd. subst c' n d.
    destruct (lstrip_split (Re.sub separator (lit ",") t)) as (ws & Ho & Hws).
    rewrite El in Ho.
    assert (Hq : ~ In (chr ",") (ws ++ [chr "a"; chr "n"; chr "d"; y])).
    { intros Hin. apply in_app_or in Hin. destruct Hin as [Hin|Hin].
      - now apply (spaces_no_comma Hws).
      - simpl in Hin. destruct Hin as [E|[E|[E|[E|[]]]]]; try discriminate E.
        subst y. discriminate Hy. }
    destruct (sub_prefix _ Hq t w) as [rest' Ht].
    { rewrite Ho at 1. rewrite <- app_assoc. reflexivity. }
    rewrite Ht, <- app_assoc, (lstrip_spaces_app _ Hws) in H.
    cbn [app lstrip] in H.
    change (isspace (chr "a")) with false in H. cbn beta iota in H.
    change ((chr "a" =? chr "&")%N) with false in H.
    change ((chr "a" =? chr "/")%N) with false in H.
    rewrite !N.eqb_refl, Hy in H. discriminate H.
  - destruct (c =? chr "&")%N; [discriminate H|].
    destruct (c =? chr "/")%N; [discriminate H|]. reflexivity.
Qed.

Lemma sep_match_comma (t : pystr) : sep_match (chr "," :: t) = None.
Proof. reflexivity. Qed.

Lemma sub_output_free_upto (n : nat) :
  forall s, (length s <= n)%nat -> separator_free (Re.sub separator (lit ",") s).
Proof.
  induction n as [|n IH]; intros s Hlen p v Hpv.
  - destruct s; [|cbn [length] in Hlen; lia].
    destruct p; [|discriminate Hpv]. cbn [app] in Hpv. subst v. reflexivity.
  - destruct s as [|c t].
    { destruct p; [|discriminate Hpv]. cbn [app] in Hpv. subst v. reflexivity. }
    rewrite match_alt_separator_scan.
    destruct (sep_match (c :: t)) as [r|] eqn:E.
    + rewrite (sub_hit _ E) in Hpv.
      destruct (sep_match_suffix _ E) as (pre & Hs & Hpre).
      assert (Hr : (length r <= n)%nat).
      { apply (f_equal (@length N)) in Hs. rewrite length_app in Hs.
        cbn [length] in *. destruct pre; [contradiction|]. cbn [length] in Hs. lia. }
      destruct p as [|x p]; cbn [app] in Hpv.
      * subst v. apply sep_match_comma.
      * injection Hpv as _ Hpv. rewrite <- match_alt_separator_scan.
        exact (IH r Hr p v Hpv).
    + rewrite (sub_miss _ _ E) in Hpv.
      destruct p as [|x p]; cbn [app] in Hpv.
      * subst v. now apply sep_match_after_sub.
      * injection Hpv as _ Hpv. rewrite <- match_alt_separator_scan.
        cbn [length] in Hlen. exact (IH t ltac:(lia) p v Hpv).
Qed.

(** No separator starts in the output of line 40. *)
Lemma sub_output_free (s : pystr) : separator_free (Re.sub separator (lit ",") s).
Proof. apply sub_output_free_upto with (n := length s). lia. Qed.

Lemma sub_separator_free (u : pystr) :
  separator_free u -> Re.sub separator (lit ",") u = u.
Proof.
  induction u as [|c t IH]; intros H; [reflexivity|].
  rewrite sub_miss.
  - f_equal. apply IH. intros p v Hpv. apply (H (c :: p) v). cbn [app]. now rewrite Hpv.
  - rewrite <- match_alt_separator_scan. now apply (H [] (c :: t)).
Qed.

Lemma separator_free_segment (a t b : pystr) :
  separator_free (a ++ t ++ b) -> separator_free t.
Proof.
  intros H p v Hpv. destruct (match_alt separator v) as [r|] eqn:E; [|reflexivity].
  exfalso. rewrite match_alt_separator_scan in E.
  apply (sep_match_extend v b) in E. apply E.
  rewrite <- match_alt_separator_scan.
  apply (H (a ++ p) (v ++ b)). subst t. now rewrite <- !app_assoc.
Qed.

Lemma split_head (sep : N) (s : pystr) :
  forall h r, split sep s = h :: r -> exists b, s = h ++ b.
Proof.
  induction s as [|c t IH]; intros h r H; cbn [split] in H.
  - injection H as <- _. now exists [].
  - destruct (c =? sep)%N.
    + injection H as <- _. now exists (c :: t).
    + destruct (split sep t) as [|h' r'] eqn:E; injection H as <- _.
      * now exists t.
      * destruct (IH h' r' eq_refl) as [b ->]. now exists b.
Qed.

Lemma split_segment (sep : N) (s : pystr) :
  forall tok, In tok (split sep s) -> exists a b, s = a ++ tok ++ b.
Proof.
  induction s as [|c t IH]; intros tok Htok; cbn [split] in Htok.
  - destruct Htok as [<-|[]]. now exists [], [].
  - destruct (c =? sep)%N.
    + destruct Htok as [<-|Htok]; [now exists [], (c :: t)|].
      destruct (IH tok Htok) as (a & b & ->). now exists (c :: a), b.
    + destruct (split sep t) as [|h r] eqn:E.
      * elim (split_not_nil sep t E).
      * destruct Htok as [<-|Htok].
        -- destruct (split_head sep t E) as [b ->]. now exists [], b.
        -- destruct (IH tok (or_intror Htok)) as (a & b & ->).
           now exists (c :: a), b.
Qed.

Lemma strip_segment (t : pystr) : exists a b, t = a ++ strip t ++ b.
Proof.
  destruct (lstrip_split t) as (ws & Ht & _).
  destruct (lstrip_split (rev (lstrip t))) as (ws2 & Hr & _).
  exists ws, (rev ws2). unfold strip, rstrip.
  rewrite <- rev_app_distr, <- Hr, rev_involutive. exact Ht.
Qed.

Lemma split_without_sep (sep : N) (s : pystr) : ~ In sep s -> split sep s = [s].
Proof.
  induction s as [|c t IH]; intros H; [reflexivity|]. cbn [split].
  destruct (N.eqb_spec c sep) as [->|_]; [elim H; now left|].
  rewrite IH; [reflexivity|]. intros Hin. apply H. now right.
Qed.

Lemma settledb_fixed (r : Row cell) (c : pystr) :
  COUNTRY r = Some c -> settledb c = true -> normalized r = [r].
Proof.
  intros Hc H. unfold settledb in H. rewrite !andb_true_iff in H.
  destruct H as [[[Hsub Hcomma] Hstrip] Hkey].
  apply str_eqb_eq in Hsub, Hstrip. apply negb_true_iff in Hcomma.
  assert (Hno : ~ In (chr ",") c).
  { intros Hin. assert (existsb (N.eqb (chr ",")) c = true) as Ht; [|congruence].
    apply existsb_exists. exists (chr ","). split; [exact Hin|reflexivity]. }
  unfold normalized. rewrite Hc. cbn [str_accessor option_map].
  rewrite Hsub, (split_without_sep _ _ Hno).
  cbn [explode_cell map str_accessor option_map replace].
  rewrite Hstrip. destruct (dict_get country_alias_map c); [discriminate Hkey|].
  destruct r as [sr tn tm org c0 comp]. cbn [COUNTRY] in Hc. subst c0. reflexivity.
Qed.

Lemma alias_values_settled (k v : pystr) :
  In (k, v) country_alias_map -> settledb v = true.
Proof.
  intros H. unfold country_alias_map in H.
  repeat (destruct H as [H|H]; [injection H as <- <-; vm_compute; reflexivity|]).
  destruct H.
Qed.

(** A token of line 41, trimmed, passes line 40 to 43 unchanged. *)
Lemma token_settled (s t : pystr) :
  In t (split (chr ",") (Re.sub separator (lit ",") s)) ->
  dict_get country_alias_map (strip t) = None ->
  settledb (strip t) = true.
Proof.
  intros Ht Hkey. unfold settledb. rewrite Hkey, !andb_true_iff. repeat split.
  - apply str_eqb_eq, sub_separator_free.
    destruct (split_segment _ _ _ Ht) as (a & b & Ho).
    destruct (strip_segment t) as (a' & b' & Hseg).
    apply separator_free_segment with (a := a ++ a') (b := b' ++ b).
    replace ((a ++ a') ++ strip t ++ b' ++ b) with (a ++ (a' ++ strip t ++ b') ++ b)
      by (now rewrite <- !app_assoc).
    rewrite <- Hseg, <- Ho. apply sub_output_free.
  - apply negb_true_iff. destruct (existsb (N.eqb (chr ",")) (strip t)) eqn:E;
      [|reflexivity].
    exfalso. apply existsb_exists in E. destruct E as (x & Hx & Ex).
    apply N.eqb_eq in Ex. subst x.
    apply split_tokens in Ht. destruct Ht as [Hno _]. apply Hno.
    now apply strip_incl.
  - apply str_eqb_eq, strip_again.
Qed.

Lemma normalized_settled (r0 r : Row cell) :
  In r (normalized r0) -> normalized r = [r].
Proof.
  intros Hr. unfold normalized in Hr. apply in_map_iff in Hr.
  destruct Hr as (tok & <- & Htok).
  destruct (COUNTRY r0) as [s|] eqn:Es; cbn [str_accessor option_map] in Htok.
  2:{ destruct Htok as [<-|[]]. destruct r0 as [sr tn tm org c comp].
      reflexivity. }
  pose proof (split_not_nil (chr ",") (Re.sub separator (lit ",") s)) as Hne.
  destruct (split (chr ",") (Re.sub separator (lit ",") s)) as [|t0 ts] eqn:E;
    [contradiction|].
  cbn [explode_cell] in Htok. rewrite <- E in Htok.
  apply in_map_iff in Htok. destruct Htok as (t & <- & Ht).
  cbn [str_accessor option_map replace].
  destruct (dict_get country_alias_map (strip t)) as [v|] eqn:Ev.
  - apply settledb_fixed with (c := v); [reflexivity|].
    apply dict_get_in in Ev. eapply alias_values_settled. exact Ev.
  - apply settledb_fixed with (c := strip t); [reflexivity|].
    eapply token_settled; eassumption.
Qed.

Lemma flat_map_fixed {A : Type} (f : A -> list A) (l : list A) :
  (forall x, In x l -> f x = [x]) -> flat_map f l = l.
Proof.
  induction l as [|x t IH]; intros H; [reflexivity|]. cbn [flat_map].
  rewrite (H x (or_introl eq_refl)), IH; [reflexivity|].
  intros y Hy. apply H. now right.
Qed.

(** X16.  Normalising twice is normalising once: the normaliser leaves
    its own output as it is, and so does line 40 with the text it
    produced. *)
Theorem df_split_is_idempotent (all_data : list (Row cell)) :
  df_split (df_split all_data) = df_split all_data
  /\ (forall s, Re.sub separator (lit ",") (Re.sub separator (lit ",") s)
                = Re.sub separator (lit ",") s).
Proof.
  split.
  - rewrite (df_split_flat_map (df_split all_data)). apply flat_map_fixed.
    intros r Hr. apply df_split_origin in Hr. destruct Hr as (r0 & _ & Hr).
    eapply normalized_settled. exact Hr.
  - intros s. apply sub_separator_free, sub_output_free.
Qed.

End SeparatorMore.
